(** * Workflow orchestration engine: agent graph, tier selector, session
    store and workflow engine.

    Shallow embedding of
    - orchestration/types.js            (enumerations),
    - orchestration/agent-configs.js    (AGENT_CONFIGS, topologicalSortAgents),
    - orchestration/model-selector.js   (ModelSelector),
    - orchestration/predefined-workflows.js (PREDEFINED_WORKFLOWS, getWorkflow),
    - orchestration/session-manager.js  (SessionManager),
    - orchestration/workflow-engine.js  (WorkflowEngine),
    - pms/types.js                      (task identifiers and transitions),
    - pms/task-manager.js               (TaskManager),
    - pms/context-serializer.js         (XML escaping).

    Conventions of the embedding.
    - A JavaScript object used as a table is a [gmap] over its own keys.
    - [uuidv4()] draws from a counter; identifiers are natural numbers.
    - Wall-clock fields (timestamps, [updatedAt], [startTime], [endTime])
      are left out; elapsed times come from the environment.
    - Every [SessionManager] mutator calls [saveSession] before it returns,
      so the in-memory table and the session files agree on every field the
      manager itself writes; both are one table here.
    - Event emission ([emit]) has no effect on the state and is left out. *)

From stdpp Require Import gmap strings list fin_maps.
From Stdlib Require Import ZArith Lia Ascii DecimalNat DecimalString.

Local Open Scope Z_scope.

(** ** Enumerations (orchestration/types.js) *)

Module AgentType.
Definition PM : string := "PM".
Definition ARCHITECT : string := "ARCHITECT".
Definition UIUX : string := "UIUX".
Definition TL_FRONTEND : string := "TL_FRONTEND".
Definition TL_BACKEND : string := "TL_BACKEND".
Definition DEV_FRONTEND : string := "DEV_FRONTEND".
Definition DEV_BACKEND : string := "DEV_BACKEND".
Definition TEST : string := "TEST".
Definition CQR : string := "CQR".
Definition SR : string := "SR".
Definition DOE : string := "DOE".
End AgentType.

Module AgentStatus.
Inductive t := IDLE | SPAWNING | RUNNING | COMPLETED | FAILED.
End AgentStatus.

Module WorkflowStatus.
Inductive t := PENDING | RUNNING | PAUSED | COMPLETED | FAILED | CANCELLED.
End WorkflowStatus.

(** Tiers travel as strings: nothing in [configure] or [selectModel] checks
    that an override or a maximum is one of the three names. *)
Module ModelTier.
Definition OPUS : string := "opus".
Definition SONNET : string := "sonnet".
Definition HAIKU : string := "haiku".
End ModelTier.

Module StageExecutionMode.
Inductive t := SEQUENTIAL | PARALLEL.
End StageExecutionMode.

Module PRFailureMode.
Inductive t := FAIL | WARN.
End PRFailureMode.

(** ** Errors

    [throw new Error(msg)] with the messages of the sources; [TypeError]
    is the runtime's own error on a property read of [undefined];
    [External] is an error raised by a collaborator (task store, Claude
    CLI, response parser, git, pull-request manager). The message of an
    error is the error itself. *)
Inductive Error :=
| UnknownWorkflow (workflowId : string)
| SessionNotFound (sessionId : nat)
| CannotRestore (sessionId : nat)
| CannotResumeCompleted
| NoCheckpoints
| WorkflowCancelled
| CircularDependency
| TypeError (property : string)
| External (msg : string).

(** Outcome of a call that may throw. *)
Inductive Outcome (A : Type) : Type :=
| Returned (a : A)
| Threw (e : Error).
Arguments Returned {A} a.
Arguments Threw {A} e.

(** ** Agent configurations (orchestration/agent-configs.js) *)

Record AgentConfig := mkAgentConfig {
  cfg_type : string;
  cfg_name : string;
  cfg_dependencies : list string;
  cfg_defaultModel : string;
  cfg_promptFile : string;
  cfg_maxRetries : Z;
  cfg_timeoutMs : Z
}.

Definition AGENT_CONFIGS : gmap string AgentConfig :=
  list_to_map [
    (AgentType.PM, mkAgentConfig AgentType.PM "Project Manager"
       [] ModelTier.OPUS "pm.md" 3 300000);
    (AgentType.ARCHITECT, mkAgentConfig AgentType.ARCHITECT "System Architect"
       [AgentType.PM] ModelTier.OPUS "architect.md" 3 300000);
    (AgentType.UIUX, mkAgentConfig AgentType.UIUX "UI/UX Designer"
       [AgentType.PM] ModelTier.SONNET "uiux.md" 3 240000);
    (AgentType.TL_FRONTEND, mkAgentConfig AgentType.TL_FRONTEND "Tech Lead - Frontend"
       [AgentType.ARCHITECT; AgentType.UIUX] ModelTier.SONNET "tl-frontend.md" 3 240000);
    (AgentType.TL_BACKEND, mkAgentConfig AgentType.TL_BACKEND "Tech Lead - Backend"
       [AgentType.ARCHITECT] ModelTier.SONNET "tl-backend.md" 3 240000);
    (AgentType.DEV_FRONTEND, mkAgentConfig AgentType.DEV_FRONTEND "Frontend Developer"
       [AgentType.TL_FRONTEND] ModelTier.SONNET "dev-frontend.md" 3 360000);
    (AgentType.DEV_BACKEND, mkAgentConfig AgentType.DEV_BACKEND "Backend Developer"
       [AgentType.TL_BACKEND] ModelTier.SONNET "dev-backend.md" 3 360000);
    (AgentType.TEST, mkAgentConfig AgentType.TEST "Test Engineer"
       [AgentType.DEV_FRONTEND; AgentType.DEV_BACKEND] ModelTier.SONNET "test.md" 3 300000);
    (AgentType.CQR, mkAgentConfig AgentType.CQR "Code Quality Reviewer"
       [AgentType.DEV_FRONTEND; AgentType.DEV_BACKEND] ModelTier.SONNET "cqr.md" 3 240000);
    (AgentType.SR, mkAgentConfig AgentType.SR "Security Reviewer"
       [AgentType.DEV_FRONTEND; AgentType.DEV_BACKEND] ModelTier.OPUS "sr.md" 3 300000);
    (AgentType.DOE, mkAgentConfig AgentType.DOE "DevOps Engineer"
       [AgentType.DEV_FRONTEND; AgentType.DEV_BACKEND] ModelTier.HAIKU "doe.md" 3 180000)
  ].

(** The functions below take the configuration table as an argument; the
    repository's table is [AGENT_CONFIGS]. *)

Definition getAgentConfig (configs : gmap string AgentConfig)
    (agentType : string) : option AgentConfig :=
  configs !! agentType.

Definition getAgentDependencies (configs : gmap string AgentConfig)
    (agentType : string) : list string :=
  match configs !! agentType with
  | Some config => cfg_dependencies config
  | None => []
  end.

(** *** topologicalSortAgents *)

Module TopoSort.

(** [None] is a loop that ran out of fuel. *)
Definition Result : Type := option (Outcome (list (list string))).

Section Sort.
Variable configs : gmap string AgentConfig.

(** [getAgentDependencies(type).filter(d => agentTypes.includes(d))] *)
Definition depsWithin (agentTypes : list string) (type : string) : list string :=
  filter (λ d, d ∈ agentTypes) (getAgentDependencies configs type).

(** First loop: every tag gets in-degree 0 and an empty adjacency list. *)
Definition initialize (agentTypes : list string)
    : gmap string Z * gmap string (list string) :=
  foldl (λ g type, (<[type := 0]> g.1, <[type := []]> g.2)) (∅, ∅) agentTypes.

(** [adjacency.get(dep).push(type)]; [dep] passed the [includes] filter,
    so the key is present. *)
Definition pushDependent (type : string)
    (adjacency : gmap string (list string)) (dep : string)
    : gmap string (list string) :=
  alter (λ l, l ++ [type]) dep adjacency.

(** Second loop: in-degrees and reverse edges. *)
Definition buildGraph (agentTypes : list string)
    (g : gmap string Z * gmap string (list string))
    : gmap string Z * gmap string (list string) :=
  foldl (λ g type,
           let deps := depsWithin agentTypes type in
           (<[type := Z.of_nat (length deps)]> g.1,
            foldl (pushDependent type) g.2 deps))
        g agentTypes.

(** [inDegree.set(dependent, inDegree.get(dependent) - 1)] *)
Definition decrement (inDegree : gmap string Z) (dependent : string)
    : gmap string Z :=
  alter (λ n, n - 1) dependent inDegree.

Definition releaseLevel (adjacency : gmap string (list string))
    (inDegree : gmap string Z) (currentLevel : list string) : gmap string Z :=
  foldl (λ deg type, foldl decrement deg (default [] (adjacency !! type)))
        inDegree currentLevel.

(** The [while (remaining.length > 0)] loop; [fuel] bounds the number of
    iterations and [topologicalSortAgents] supplies enough of it. *)
Fixpoint kahn (fuel : nat) (adjacency : gmap string (list string))
    (inDegree : gmap string Z) (remaining : list string)
    (levels : list (list string)) : Result :=
  match remaining with
  | [] => Some (Returned levels)
  | _ :: _ =>
    match fuel with
    | O => None
    | S fuel' =>
      let currentLevel := filter (λ type, inDegree !! type = Some 0) remaining in
      match currentLevel with
      | [] => Some (Threw CircularDependency)
      | _ :: _ =>
        kahn fuel' adjacency
             (releaseLevel adjacency inDegree currentLevel)
             (filter (λ type, type ∉ currentLevel) remaining)
             (levels ++ [currentLevel])
      end
    end
  end.

Definition topologicalSortAgents (agentTypes : list string) : Result :=
  let g := buildGraph agentTypes (initialize agentTypes) in
  kahn (length agentTypes) g.2 g.1 agentTypes [].

End Sort.
End TopoSort.

(** ** Tier selector (orchestration/model-selector.js) *)

Module ModelSelector.

Definition DEFAULT_MODEL_MAPPINGS : gmap string string :=
  list_to_map [
    (AgentType.PM, ModelTier.OPUS);
    (AgentType.ARCHITECT, ModelTier.OPUS);
    (AgentType.UIUX, ModelTier.SONNET);
    (AgentType.TL_FRONTEND, ModelTier.SONNET);
    (AgentType.TL_BACKEND, ModelTier.SONNET);
    (AgentType.DEV_FRONTEND, ModelTier.SONNET);
    (AgentType.DEV_BACKEND, ModelTier.SONNET);
    (AgentType.TEST, ModelTier.SONNET);
    (AgentType.CQR, ModelTier.SONNET);
    (AgentType.SR, ModelTier.OPUS);
    (AgentType.DOE, ModelTier.HAIKU)
  ].

Definition MODEL_HIERARCHY : gmap string Z :=
  list_to_map [
    (ModelTier.HAIKU, 0);
    (ModelTier.SONNET, 1);
    (ModelTier.OPUS, 2)
  ].

Definition COST_MULTIPLIERS : gmap string Z :=
  list_to_map [
    (ModelTier.HAIKU, 1);
    (ModelTier.SONNET, 5);
    (ModelTier.OPUS, 15)
  ].

(** [this.options]; the constructor's value is [defaultOptions]. *)
Record Options := mkOptions {
  maxTier : string;
  overrides : gmap string string;
  optimizeCost : bool
}.

Definition defaultOptions : Options :=
  mkOptions ModelTier.OPUS ∅ false.

(** [configure(options)]: the given keys replace the current ones. *)
Record OptionsPatch := mkOptionsPatch {
  patch_maxTier : option string;
  patch_overrides : option (gmap string string);
  patch_optimizeCost : option bool
}.

Definition configure (options : Options) (patch : OptionsPatch) : Options :=
  mkOptions (default (maxTier options) (patch_maxTier patch))
            (default (overrides options) (patch_overrides patch))
            (default (optimizeCost options) (patch_optimizeCost patch)).

(** A string is truthy when it is not empty. *)
Definition truthy (s : string) : bool :=
  match s with EmptyString => false | _ => true end.

(** [a || b] on optional strings ([None] is [undefined]). *)
Definition orElse (a : option string) (b : option string) : option string :=
  match a with
  | Some s => if truthy s then Some s else b
  | None => b
  end.


Section Selector.
Variable configs : gmap string AgentConfig.
Variable options : Options.

Definition enforceMaxTier (tier : string) : string :=
  let maxLevel := default 2 (MODEL_HIERARCHY !! maxTier options) in
  let requestedLevel := default 1 (MODEL_HIERARCHY !! tier) in
  if requestedLevel >? maxLevel then maxTier options else tier.

Definition downgrade (tier : string) : string :=
  match MODEL_HIERARCHY !! tier with
  | Some 0 => ModelTier.HAIKU
  | Some 1 => ModelTier.HAIKU
  | _ => ModelTier.SONNET
  end.

Definition upgrade (tier : string) : string :=
  match MODEL_HIERARCHY !! tier with
  | Some 0 => ModelTier.SONNET
  | Some 1 => ModelTier.OPUS
  | _ => ModelTier.OPUS
  end.

(** [complexity] is [context.complexity] when it is a string. *)
Definition selectModel (agentType : string) (complexity : option string) : string :=
  match orElse (overrides options !! agentType) None with
  | Some override => enforceMaxTier override
  | None =>
    let agentConfig := getAgentConfig configs agentType in
    let selectedModel :=
      default ModelTier.SONNET
        (orElse (cfg_defaultModel <$> agentConfig)
                (orElse (DEFAULT_MODEL_MAPPINGS !! agentType) None)) in
    let selectedModel :=
      if bool_decide (complexity = Some "low") && optimizeCost options
      then downgrade selectedModel
      else if bool_decide (complexity = Some "high")
      then upgrade selectedModel
      else selectedModel in
    enforceMaxTier selectedModel
  end.

(** [estimateCost]: the summed multiplier; [COST_MULTIPLIERS[model]] of a
    name outside the table is [undefined] and the sum is then [NaN]
    ([None]). *)
Definition totalMultiplier (agentTypes : list string) : option Z :=
  foldl (λ acc agentType,
           match acc, COST_MULTIPLIERS !! selectModel agentType None with
           | Some total, Some multiplier => Some (total + multiplier)
           | _, _ => None
           end)
        (Some 0) agentTypes.

Definition getModelCliArg (tier : string) : string :=
  let modelNames : gmap string string :=
    list_to_map [
      (ModelTier.HAIKU, "claude-3-haiku-20240307");
      (ModelTier.SONNET, "claude-sonnet-4-20250514");
      (ModelTier.OPUS, "claude-3-opus-20240229")
    ] in
  default "claude-sonnet-4-20250514" (modelNames !! tier).

End Selector.
End ModelSelector.

(** ** Data model of sessions (orchestration/session-manager.js) *)

Record Artifact := mkArtifact {
  art_name : string;
  art_type : string;
  art_path : option string;
  art_content : string
}.

(** The structured output of [parseAgentResponse]; [out_tokensUsed] is
    [output.metadata?.tokensUsed]. *)
Record AgentOutput := mkAgentOutput {
  out_success : bool;
  out_summary : string;
  out_artifacts : list Artifact;
  out_tokensUsed : option Z
}.

(** Values held by a context object: the caller's strings, the retry
    counters and the agent outputs the engine writes. *)
Inductive Value :=
| VStr (s : string)
| VNum (n : Z)
| VOutput (o : AgentOutput).

Abbreviation Context := (gmap string Value).

(** JavaScript truthiness of a context value. *)
Definition truthyValue (v : Value) : bool :=
  match v with
  | VStr s => ModelSelector.truthy s
  | VNum n => negb (n =? 0)
  | VOutput _ => true
  end.

Module SessionStatus.
Inductive t := RUNNING | PAUSED | COMPLETED | FAILED.
#[global] Instance eq_dec : EqDecision t.
Proof. solve_decision. Defined.
End SessionStatus.

(** The options object of [startWorkflow]. *)
Record RunOptions := mkRunOptions {
  opt_createBranch : option bool
}.

(** The argument of [markCompleted]. *)
Record RunResult := mkRunResult {
  res_runId : nat;
  res_gitBranch : option string
}.

(** The entries the engine passes to [addLog], by their [type] field. *)
Inductive LogEntry :=
| workflow_started (workflowId : string) (runId : nat)
| stage_started (stageIndex : Z) (stageName : string)
| agent_spawned (agentType : string) (executionId : nat) (model : string)
| agent_retry (agentType : string) (attempt : Z)
| pr_created (prUrl : string)
| pr_failed (error : Error).

(** The record the engine passes to [recordAgentExecution]. *)
Record ExecutionRecord := mkExecutionRecord {
  rec_agentType : string;
  rec_executionId : nat;
  rec_status : AgentStatus.t;
  rec_tokensUsed : option Z;
  rec_error : option Error;
  rec_executionTime : Z
}.

Record CheckpointState := mkCheckpointState {
  cps_currentStageIndex : Z;
  cps_context : Context
}.

Module Checkpoint.
Record t := mk {
  id : nat;
  sessionId : nat;
  stageIndex : Z;
  stageName : string;
  completedAgents : list string;
  state : option CheckpointState
}.
End Checkpoint.

(** The [data] argument of [checkpoint]. *)
Record CheckpointData := mkCheckpointData {
  cpd_stageIndex : Z;
  cpd_stageName : string;
  cpd_completedAgents : option (list string);
  cpd_state : option CheckpointState
}.

Record Metadata := mkMetadata {
  totalTokens : Z;
  totalExecutionTime : Z;
  agentExecutions : list ExecutionRecord
}.

Module Session.
Record t := mk {
  id : nat;
  status : SessionStatus.t;
  workflowId : string;
  context : Context;
  options : RunOptions;
  checkpoints : list Checkpoint.t;
  logs : list LogEntry;
  completedAgents : list string;
  currentStage : Z;
  metadata : Metadata;
  error : option Error;
  result : option RunResult
}.

Definition with_status (v : SessionStatus.t) (s : t) : t :=
  mk (id s) v (workflowId s) (context s) (options s) (checkpoints s) (logs s)
     (completedAgents s) (currentStage s) (metadata s) (error s) (result s).
Definition with_workflowId (v : string) (s : t) : t :=
  mk (id s) (status s) v (context s) (options s) (checkpoints s) (logs s)
     (completedAgents s) (currentStage s) (metadata s) (error s) (result s).
Definition with_context (v : Context) (s : t) : t :=
  mk (id s) (status s) (workflowId s) v (options s) (checkpoints s) (logs s)
     (completedAgents s) (currentStage s) (metadata s) (error s) (result s).
Definition with_options (v : RunOptions) (s : t) : t :=
  mk (id s) (status s) (workflowId s) (context s) v (checkpoints s) (logs s)
     (completedAgents s) (currentStage s) (metadata s) (error s) (result s).
Definition with_checkpoints (v : list Checkpoint.t) (s : t) : t :=
  mk (id s) (status s) (workflowId s) (context s) (options s) v (logs s)
     (completedAgents s) (currentStage s) (metadata s) (error s) (result s).
Definition with_logs (v : list LogEntry) (s : t) : t :=
  mk (id s) (status s) (workflowId s) (context s) (options s) (checkpoints s) v
     (completedAgents s) (currentStage s) (metadata s) (error s) (result s).
Definition with_completedAgents (v : list string) (s : t) : t :=
  mk (id s) (status s) (workflowId s) (context s) (options s) (checkpoints s)
     (logs s) v (currentStage s) (metadata s) (error s) (result s).
Definition with_currentStage (v : Z) (s : t) : t :=
  mk (id s) (status s) (workflowId s) (context s) (options s) (checkpoints s)
     (logs s) (completedAgents s) v (metadata s) (error s) (result s).
Definition with_metadata (v : Metadata) (s : t) : t :=
  mk (id s) (status s) (workflowId s) (context s) (options s) (checkpoints s)
     (logs s) (completedAgents s) (currentStage s) v (error s) (result s).
Definition with_error (v : option Error) (s : t) : t :=
  mk (id s) (status s) (workflowId s) (context s) (options s) (checkpoints s)
     (logs s) (completedAgents s) (currentStage s) (metadata s) v (result s).
Definition with_result (v : option RunResult) (s : t) : t :=
  mk (id s) (status s) (workflowId s) (context s) (options s) (checkpoints s)
     (logs s) (completedAgents s) (currentStage s) (metadata s) (error s) v.
End Session.

(** The [updates] argument of [updateStatus]: the session fields a patch
    may carry ([None]: key absent). No caller patches [id]. *)
Record Updates := mkUpdates {
  upd_status : option SessionStatus.t;
  upd_workflowId : option string;
  upd_context : option Context;
  upd_options : option RunOptions;
  upd_checkpoints : option (list Checkpoint.t);
  upd_logs : option (list LogEntry);
  upd_completedAgents : option (list string);
  upd_currentStage : option Z;
  upd_metadata : option Metadata;
  upd_error : option Error;
  upd_result : option RunResult
}.

Definition noUpdates : Updates :=
  mkUpdates None None None None None None None None None None None.
Definition errorUpdate (e : Error) : Updates :=
  mkUpdates None None None None None None None None None (Some e) None.
Definition resultUpdate (r : RunResult) : Updates :=
  mkUpdates None None None None None None None None None None (Some r).

Module SessionManager.

Abbreviation Store := (gmap nat Session.t).

(** [Object.assign(session, updates)] *)
Definition assign (updates : Updates) (s : Session.t) : Session.t :=
  Session.mk (Session.id s)
    (default (Session.status s) (upd_status updates))
    (default (Session.workflowId s) (upd_workflowId updates))
    (default (Session.context s) (upd_context updates))
    (default (Session.options s) (upd_options updates))
    (default (Session.checkpoints s) (upd_checkpoints updates))
    (default (Session.logs s) (upd_logs updates))
    (default (Session.completedAgents s) (upd_completedAgents updates))
    (default (Session.currentStage s) (upd_currentStage updates))
    (default (Session.metadata s) (upd_metadata updates))
    (match upd_error updates with Some e => Some e | None => Session.error s end)
    (match upd_result updates with Some r => Some r | None => Session.result s end).

(** [createSession({workflowId, context, options})]; [sessionId] is the
    identifier [uuidv4()] returned. *)
Definition createSession (sessionId : nat) (workflowId : string)
    (context : option Context) (options : RunOptions) (store : Store)
    : Session.t * Store :=
  let session :=
    Session.mk sessionId SessionStatus.RUNNING workflowId (default ∅ context)
      options [] [] [] 0 (mkMetadata 0 0 []) None None in
  (session, <[sessionId := session]> store).

Definition getSession (store : Store) (sessionId : nat) : option Session.t :=
  store !! sessionId.

Definition updateStatus (sessionId : nat) (status : SessionStatus.t)
    (updates : Updates) (store : Store) : Outcome Store :=
  match getSession store sessionId with
  | None => Threw (SessionNotFound sessionId)
  | Some session =>
    Returned (<[sessionId := assign updates (Session.with_status status session)]> store)
  end.

(** [checkpoint(sessionId, data)]; [checkpointId] is the fresh identifier. *)
Definition checkpoint (checkpointId : nat) (sessionId : nat)
    (data : CheckpointData) (store : Store) : Outcome (Checkpoint.t * Store) :=
  match getSession store sessionId with
  | None => Threw (SessionNotFound sessionId)
  | Some session =>
    let cp :=
      Checkpoint.mk checkpointId sessionId (cpd_stageIndex data)
        (cpd_stageName data) (default [] (cpd_completedAgents data))
        (cpd_state data) in
    let session :=
      Session.with_completedAgents (Checkpoint.completedAgents cp)
        (Session.with_currentStage (cpd_stageIndex data + 1)
           (Session.with_checkpoints (Session.checkpoints session ++ [cp])
              session)) in
    Returned (cp, <[sessionId := session]> store)
  end.

(** [restore(sessionId)]: [Returned None] is the [null] result. *)
Definition restore (sessionId : nat) (store : Store)
    : Outcome (option (Session.t * option Checkpoint.t) * Store) :=
  match store !! sessionId with
  | None => Returned (None, store)
  | Some session =>
    if bool_decide (Session.status session = SessionStatus.COMPLETED)
    then Threw CannotResumeCompleted
    else if (length (Session.checkpoints session) =? 0)%nat
            && bool_decide (Session.status session = SessionStatus.FAILED)
    then Threw NoCheckpoints
    else
      let latestCheckpoint := last (Session.checkpoints session) in
      let session := Session.with_status SessionStatus.RUNNING session in
      Returned (Some (session, latestCheckpoint), <[sessionId := session]> store)
  end.

(** [session.logs.slice(-n)] *)
Definition sliceLast {A : Type} (n : nat) (l : list A) : list A :=
  drop (length l - n) l.

Definition addLog (sessionId : nat) (logEntry : LogEntry) (store : Store)
    : Store :=
  match getSession store sessionId with
  | None => store
  | Some session =>
    let logs := Session.logs session ++ [logEntry] in
    let logs :=
      if (1000 <? length logs)%nat then sliceLast 1000 logs else logs in
    <[sessionId := Session.with_logs logs session]> store
  end.

Definition recordAgentExecution (sessionId : nat) (execution : ExecutionRecord)
    (store : Store) : Store :=
  match getSession store sessionId with
  | None => store
  | Some session =>
    let m := Session.metadata session in
    let m :=
      mkMetadata (totalTokens m + default 0 (rec_tokensUsed execution))
                 (totalExecutionTime m + rec_executionTime execution)
                 (agentExecutions m ++ [execution]) in
    let completed :=
      match rec_status execution with
      | AgentStatus.COMPLETED =>
        Session.completedAgents session ++ [rec_agentType execution]
      | _ => Session.completedAgents session
      end in
    <[sessionId := Session.with_completedAgents completed
                     (Session.with_metadata m session)]> store
  end.

Definition markFailed (sessionId : nat) (error : Error) (store : Store)
    : Outcome Store :=
  updateStatus sessionId SessionStatus.FAILED (errorUpdate error) store.

Definition markCompleted (sessionId : nat) (result : RunResult) (store : Store)
    : Outcome Store :=
  updateStatus sessionId SessionStatus.COMPLETED (resultUpdate result) store.

Definition markPaused (sessionId : nat) (store : Store) : Outcome Store :=
  updateStatus sessionId SessionStatus.PAUSED noUpdates store.

Definition getLogs (store : Store) (sessionId : nat) : list LogEntry :=
  match getSession store sessionId with
  | Some session => Session.logs session
  | None => []
  end.

Definition isResumable (store : Store) (sessionId : nat) : bool :=
  match getSession store sessionId with
  | None => false
  | Some session =>
    (bool_decide (Session.status session = SessionStatus.FAILED)
     || bool_decide (Session.status session = SessionStatus.PAUSED))
    && ((0 <? length (Session.checkpoints session))%nat
        || (0 <? length (Session.completedAgents session))%nat)
  end.

End SessionManager.

(** ** Workflow definitions (orchestration/predefined-workflows.js)

    Descriptions and categories are left out. *)

Record StageDefinition := mkStage {
  stage_name : string;
  stage_agents : list string;
  stage_executionMode : StageExecutionMode.t;
  stage_dependencies : list string
}.

Record WorkflowOptions := mkWorkflowOptions {
  wo_prFailureMode : option PRFailureMode.t;
  wo_createPR : bool;
  wo_draftPR : option bool
}.

Record WorkflowDefinition := mkWorkflow {
  wf_id : string;
  wf_name : string;
  wf_stages : list StageDefinition;
  wf_options : option WorkflowOptions
}.

Definition FULL_APP_GENERATION : WorkflowDefinition :=
  mkWorkflow "FULL_APP_GENERATION" "Full App Generation"
    [ mkStage "Planning" [AgentType.PM] StageExecutionMode.SEQUENTIAL [];
      mkStage "Architecture & Design" [AgentType.ARCHITECT; AgentType.UIUX]
        StageExecutionMode.PARALLEL ["Planning"];
      mkStage "Technical Leadership" [AgentType.TL_FRONTEND; AgentType.TL_BACKEND]
        StageExecutionMode.PARALLEL ["Architecture & Design"];
      mkStage "Development" [AgentType.DEV_FRONTEND; AgentType.DEV_BACKEND]
        StageExecutionMode.PARALLEL ["Technical Leadership"];
      mkStage "Quality & Security" [AgentType.TEST; AgentType.CQR; AgentType.SR]
        StageExecutionMode.PARALLEL ["Development"];
      mkStage "Deployment" [AgentType.DOE] StageExecutionMode.SEQUENTIAL
        ["Quality & Security"] ]
    (Some (mkWorkflowOptions (Some PRFailureMode.FAIL) true (Some true))).

Definition FEATURE_ADDITION : WorkflowDefinition :=
  mkWorkflow "FEATURE_ADDITION" "Feature Addition"
    [ mkStage "Feature Planning" [AgentType.PM] StageExecutionMode.SEQUENTIAL [];
      mkStage "Technical Design" [AgentType.ARCHITECT; AgentType.UIUX]
        StageExecutionMode.PARALLEL ["Feature Planning"];
      mkStage "Implementation" [AgentType.DEV_FRONTEND; AgentType.DEV_BACKEND]
        StageExecutionMode.PARALLEL ["Technical Design"];
      mkStage "Validation" [AgentType.TEST; AgentType.CQR]
        StageExecutionMode.PARALLEL ["Implementation"] ]
    (Some (mkWorkflowOptions (Some PRFailureMode.FAIL) true (Some true))).

Definition BUG_FIX : WorkflowDefinition :=
  mkWorkflow "BUG_FIX" "Bug Fix"
    [ mkStage "Investigation" [AgentType.PM] StageExecutionMode.SEQUENTIAL [];
      mkStage "Fix Implementation" [AgentType.DEV_FRONTEND; AgentType.DEV_BACKEND]
        StageExecutionMode.PARALLEL ["Investigation"];
      mkStage "Verification" [AgentType.TEST] StageExecutionMode.SEQUENTIAL
        ["Fix Implementation"] ]
    (Some (mkWorkflowOptions (Some PRFailureMode.FAIL) true (Some false))).

Definition REFACTORING : WorkflowDefinition :=
  mkWorkflow "REFACTORING" "Refactoring"
    [ mkStage "Analysis" [AgentType.ARCHITECT; AgentType.CQR]
        StageExecutionMode.PARALLEL [];
      mkStage "Refactoring" [AgentType.DEV_FRONTEND; AgentType.DEV_BACKEND]
        StageExecutionMode.PARALLEL ["Analysis"];
      mkStage "Validation" [AgentType.TEST; AgentType.CQR]
        StageExecutionMode.PARALLEL ["Refactoring"] ]
    (Some (mkWorkflowOptions (Some PRFailureMode.WARN) true (Some true))).

Definition TEST_GENERATION : WorkflowDefinition :=
  mkWorkflow "TEST_GENERATION" "Test Generation"
    [ mkStage "Test Planning" [AgentType.TEST] StageExecutionMode.SEQUENTIAL [];
      mkStage "Test Implementation" [AgentType.TEST]
        StageExecutionMode.SEQUENTIAL ["Test Planning"] ]
    (Some (mkWorkflowOptions (Some PRFailureMode.WARN) true (Some true))).

Definition CODE_REVIEW : WorkflowDefinition :=
  mkWorkflow "CODE_REVIEW" "Code Review"
    [ mkStage "Quality Review" [AgentType.CQR] StageExecutionMode.SEQUENTIAL [];
      mkStage "Architecture Review" [AgentType.ARCHITECT]
        StageExecutionMode.SEQUENTIAL ["Quality Review"] ]
    (Some (mkWorkflowOptions (Some PRFailureMode.WARN) false (Some false))).

Definition SECURITY_AUDIT : WorkflowDefinition :=
  mkWorkflow "SECURITY_AUDIT" "Security Audit"
    [ mkStage "Security Analysis" [AgentType.SR] StageExecutionMode.SEQUENTIAL [];
      mkStage "Architecture Security Review" [AgentType.ARCHITECT; AgentType.SR]
        StageExecutionMode.PARALLEL ["Security Analysis"] ]
    (Some (mkWorkflowOptions (Some PRFailureMode.FAIL) false (Some false))).

Definition PREDEFINED_WORKFLOWS : gmap string WorkflowDefinition :=
  list_to_map [
    ("FULL_APP_GENERATION", FULL_APP_GENERATION);
    ("FEATURE_ADDITION", FEATURE_ADDITION);
    ("BUG_FIX", BUG_FIX);
    ("REFACTORING", REFACTORING);
    ("TEST_GENERATION", TEST_GENERATION);
    ("CODE_REVIEW", CODE_REVIEW);
    ("SECURITY_AUDIT", SECURITY_AUDIT)
  ].

Definition getWorkflow (workflows : gmap string WorkflowDefinition)
    (workflowId : string) : option WorkflowDefinition :=
  workflows !! workflowId.

(** ** Workflow runs (orchestration/workflow-engine.js) *)

(** An entry of [run.agentExecutions]. *)
Record AgentExecution := mkAgentExecution {
  exe_id : nat;
  exe_agentType : string;
  exe_status : AgentStatus.t;
  exe_output : option AgentOutput;
  exe_error : option Error;
  exe_model : string
}.

(** A resumed run starts from the session's recorded executions, which
    have the shape of [ExecutionRecord]. *)
Inductive RunExecution :=
| Live (e : AgentExecution)
| Recorded (r : ExecutionRecord).

Module Run.
Record t := mk {
  id : nat;
  workflowId : string;
  workflowDef : WorkflowDefinition;
  sessionId : nat;
  status : WorkflowStatus.t;
  context : Context;
  currentStageIndex : Z;
  agentExecutions : list RunExecution;
  completedAgents : list string;
  gitBranch : option string;
  error : option Error;
  options : RunOptions;
  prUrl : option string
}.

Definition with_status (v : WorkflowStatus.t) (r : t) : t :=
  mk (id r) (workflowId r) (workflowDef r) (sessionId r) v (context r)
     (currentStageIndex r) (agentExecutions r) (completedAgents r)
     (gitBranch r) (error r) (options r) (prUrl r).
Definition with_context (v : Context) (r : t) : t :=
  mk (id r) (workflowId r) (workflowDef r) (sessionId r) (status r) v
     (currentStageIndex r) (agentExecutions r) (completedAgents r)
     (gitBranch r) (error r) (options r) (prUrl r).
Definition with_currentStageIndex (v : Z) (r : t) : t :=
  mk (id r) (workflowId r) (workflowDef r) (sessionId r) (status r) (context r)
     v (agentExecutions r) (completedAgents r)
     (gitBranch r) (error r) (options r) (prUrl r).
Definition with_agentExecutions (v : list RunExecution) (r : t) : t :=
  mk (id r) (workflowId r) (workflowDef r) (sessionId r) (status r) (context r)
     (currentStageIndex r) v (completedAgents r)
     (gitBranch r) (error r) (options r) (prUrl r).
Definition with_completedAgents (v : list string) (r : t) : t :=
  mk (id r) (workflowId r) (workflowDef r) (sessionId r) (status r) (context r)
     (currentStageIndex r) (agentExecutions r) v
     (gitBranch r) (error r) (options r) (prUrl r).
Definition with_gitBranch (v : option string) (r : t) : t :=
  mk (id r) (workflowId r) (workflowDef r) (sessionId r) (status r) (context r)
     (currentStageIndex r) (agentExecutions r) (completedAgents r)
     v (error r) (options r) (prUrl r).
Definition with_error (v : option Error) (r : t) : t :=
  mk (id r) (workflowId r) (workflowDef r) (sessionId r) (status r) (context r)
     (currentStageIndex r) (agentExecutions r) (completedAgents r)
     (gitBranch r) v (options r) (prUrl r).
Definition with_prUrl (v : option string) (r : t) : t :=
  mk (id r) (workflowId r) (workflowDef r) (sessionId r) (status r) (context r)
     (currentStageIndex r) (agentExecutions r) (completedAgents r)
     (gitBranch r) (error r) (options r) v.
End Run.

(** [set.add(x)] on an insertion-ordered [Set]. *)
Definition setAdd (x : string) (s : list string) : list string :=
  if bool_decide (x ∈ s) then s else s ++ [x].

(** [new Set(array)] *)
Definition setOf (l : list string) : list string :=
  foldl (λ s x, setAdd x s) [] l.

(** *** The collaborators

    Everything awaited between [run.agentExecutions.push(execution)] and
    the end of the [try] block of [spawnAndExecuteAgent] belongs to
    collaborators: task creation, context serialisation, the Claude CLI
    call, response parsing, task completion and the commit of artifacts.
    [executeAttempt] is their joint answer to one attempt: the parsed
    output, or the error that reached the [catch] block. Marking the task
    failed inside the [catch] block and writing session files are taken
    to succeed. *)

Record AttemptRequest := mkAttemptRequest {
  req_agentType : string;
  req_executionId : nat;
  req_workflowId : string;
  req_context : Context;
  req_dependencyOutputs : Context;
  req_model : string;
  req_timeoutMs : Z;
  req_gitBranch : option string
}.

Record World := mkWorld {
  executeAttempt : AttemptRequest → Outcome AgentOutput;
  (** [execution.endTime - execution.startTime] of an execution *)
  elapsed : nat → Z;
  (** the branch name built from the project name and the date *)
  branchName : Context → string;
  createBranch : string → Outcome unit;
  (** [createPR(branch, {title, body, draft})], the URL on success *)
  createPR : string → string → Context → bool → Outcome string;
  (** which of the pending executions of a parallel stage settles next,
      as a position in the list of their identifiers *)
  settleNext : list nat → nat
}.

(** *** State and control *)

Record St := mkSt {
  sessions : gmap nat Session.t;
  run : Run.t;
  uuid : nat
}.

(** [Stuck]: out of fuel, or outside the modelled fragment. *)
Inductive Exec (A : Type) : Type :=
| Done (a : A) (st : St)
| Raised (e : Error) (st : St)
| Stuck.
Arguments Done {A} a st.
Arguments Raised {A} e st.
Arguments Stuck {A}.

Definition M (A : Type) : Type := St → Exec A.

Definition ret {A : Type} (a : A) : M A := λ st, Done a st.

Definition bind {A B : Type} (m : M A) (k : A → M B) : M B :=
  λ st, match m st with
        | Done a st' => k a st'
        | Raised e st' => Raised e st'
        | Stuck => Stuck
        end.

Definition raise {A : Type} (e : Error) : M A := λ st, Raised e st.

Definition stuck {A : Type} : M A := λ _, Stuck.

Definition tryCatch {A : Type} (m : M A) (handler : Error → M A) : M A :=
  λ st, match m st with
        | Raised e st' => handler e st'
        | r => r
        end.

Declare Scope engine_scope.
Delimit Scope engine_scope with engine.
Notation "'let*' x ':=' m 'in' k" := (bind m (λ x, k))
  (at level 10, x name, m at level 100, k at level 200) : engine_scope.
Notation "m ';;' k" := (bind m (λ _, k))
  (at level 100, k at level 200, right associativity) : engine_scope.

Definition getRun : M Run.t := λ st, Done (run st) st.

Definition modifyRun (f : Run.t → Run.t) : M unit :=
  λ st, Done tt (mkSt (sessions st) (f (run st)) (uuid st)).

Definition modifySessions (f : gmap nat Session.t → gmap nat Session.t) : M unit :=
  λ st, Done tt (mkSt (f (sessions st)) (run st) (uuid st)).

(** A [SessionManager] call that may throw. *)
Definition callSessions {A : Type}
    (f : gmap nat Session.t → Outcome (A * gmap nat Session.t)) : M A :=
  λ st, match f (sessions st) with
        | Returned (a, sessions') => Done a (mkSt sessions' (run st) (uuid st))
        | Threw e => Raised e st
        end.

(** [uuidv4()] *)
Definition uuidv4 : M nat :=
  λ st, Done (uuid st) (mkSt (sessions st) (run st) (S (uuid st))).

Fixpoint forEach {A : Type} (f : A → M unit) (l : list A) : M unit :=
  match l with
  | [] => ret tt
  | x :: l' => bind (f x) (λ _, forEach f l')
  end.

Fixpoint mapEach {A B : Type} (f : A → M B) (l : list A) : M (list B) :=
  match l with
  | [] => ret []
  | x :: l' => bind (f x) (λ y, bind (mapEach f l') (λ ys, ret (y :: ys)))
  end.

(** *** The engine *)

Module WorkflowEngine.

(** A spawned execution of a parallel stage that has not settled yet; the
    request is the one built right after the spawn, or the error met while
    building it. *)
Record Pending := mkPending {
  pen_agentType : string;
  pen_executionId : nat;
  pen_request : Outcome AttemptRequest
}.

Definition outputKey (agentType : string) : string := agentType +:+ "_output".
Definition retriesKey (agentType : string) : string := agentType +:+ "_retries".

(** [context.complexity] when it is a string. *)
Definition complexityOf (ctx : Context) : option string :=
  match ctx !! "complexity" with
  | Some (VStr s) => Some s
  | _ => None
  end.

(** [run.context[`${agentType}_retries`] || 0]; a counter that is neither
    absent, falsy nor a number is outside the model ([None]). *)
Definition retriesOf (ctx : Context) (agentType : string) : option Z :=
  match ctx !! retriesKey agentType with
  | None => Some 0
  | Some (VNum n) => Some n
  | Some (VStr s) => if ModelSelector.truthy s then None else Some 0
  | Some (VOutput _) => None
  end.

(** [session.context.gitBranch || null], for a branch that is a string. *)
Definition branchOf (ctx : Context) : option string :=
  match ctx !! "gitBranch" with
  | Some (VStr s) => if ModelSelector.truthy s then Some s else None
  | _ => None
  end.

Definition updateExecution (executionId : nat)
    (f : AgentExecution → AgentExecution) (l : list RunExecution)
    : list RunExecution :=
  map (λ x, match x with
            | Live e => if bool_decide (exe_id e = executionId) then Live (f e) else x
            | Recorded _ => x
            end) l.

Section Engine.
Variable configs : gmap string AgentConfig.
Variable workflows : gmap string WorkflowDefinition.
Variable selector : ModelSelector.Options.
Variable world : World.

Local Open Scope engine_scope.

Definition addLog (entry : LogEntry) : M unit :=
  let* r := getRun in
  modifySessions (SessionManager.addLog (Run.sessionId r) entry).

Definition recordAgentExecution (rec : ExecutionRecord) : M unit :=
  let* r := getRun in
  modifySessions (SessionManager.recordAgentExecution (Run.sessionId r) rec).

(** [gatherDependencyOutputs(run, agentType)] *)
Definition gatherDependencyOutputs (ctx : Context) (agentType : string)
    : Outcome Context :=
  match getAgentConfig configs agentType with
  | None => Threw (TypeError "dependencies")
  | Some agentConfig =>
    Returned
      (foldl (λ outputs depType,
                match ctx !! outputKey depType with
                | Some depOutput =>
                  if truthyValue depOutput
                  then <[depType := depOutput]> outputs
                  else outputs
                | None => outputs
                end)
             ∅ (cfg_dependencies agentConfig))
  end.

(** What the [try] block hands to the collaborators. *)
Definition buildRequest (r : Run.t) (agentType : string) (executionId : nat)
    : Outcome AttemptRequest :=
  match gatherDependencyOutputs (Run.context r) agentType with
  | Threw e => Threw e
  | Returned dependencyOutputs =>
    match getAgentConfig configs agentType with
    | None => Threw (TypeError "name")
    | Some agentConfig =>
      Returned
        (mkAttemptRequest agentType executionId (Run.workflowId r)
           (Run.context r) dependencyOutputs
           (ModelSelector.getModelCliArg
              (ModelSelector.selectModel configs selector agentType None))
           (cfg_timeoutMs agentConfig) (Run.gitBranch r))
    end
  end.

(** [spawnAndExecuteAgent] up to its first collaborator call: the
    execution record, the [agent_spawned] log entry and the request. *)
Definition spawn (agentType : string) : M Pending :=
  let* executionId := uuidv4 in
  let* r := getRun in
  let model :=
    ModelSelector.selectModel configs selector agentType
      (complexityOf (Run.context r)) in
  let execution :=
    mkAgentExecution executionId agentType AgentStatus.SPAWNING None None model in
  modifyRun (Run.with_agentExecutions (Run.agentExecutions r ++ [Live execution]));;
  addLog (agent_spawned agentType executionId model);;
  let* r := getRun in
  ret (mkPending agentType executionId (buildRequest r agentType executionId)).

(** The answer of the collaborators to a pending execution. *)
Definition attempt (p : Pending) : Outcome AgentOutput :=
  match pen_request p with
  | Threw e => Threw e
  | Returned request => executeAttempt world request
  end.

(** The end of the [try] block, after the last collaborator call. *)
Definition complete (p : Pending) (output : AgentOutput) : M unit :=
  let agentType := pen_agentType p in
  let executionId := pen_executionId p in
  modifyRun (λ r,
    Run.with_completedAgents (setAdd agentType (Run.completedAgents r))
      (Run.with_context (<[outputKey agentType := VOutput output]> (Run.context r))
         (Run.with_agentExecutions
            (updateExecution executionId
               (λ e, mkAgentExecution (exe_id e) (exe_agentType e)
                       AgentStatus.COMPLETED (Some output) (exe_error e)
                       (exe_model e))
               (Run.agentExecutions r))
            r)));;
  recordAgentExecution
    (mkExecutionRecord agentType executionId AgentStatus.COMPLETED
       (out_tokensUsed output) None (elapsed world executionId)).

(** The [catch] block up to the retry decision: [true] when the agent is
    to be run again (the counter is then incremented and the retry
    logged), [false] when the error is to be thrown. *)
Definition fail (p : Pending) (error : Error) : M bool :=
  let agentType := pen_agentType p in
  let executionId := pen_executionId p in
  modifyRun (λ r,
    Run.with_agentExecutions
      (updateExecution executionId
         (λ e, mkAgentExecution (exe_id e) (exe_agentType e)
                 AgentStatus.FAILED (exe_output e) (Some error) (exe_model e))
         (Run.agentExecutions r))
      r);;
  recordAgentExecution
    (mkExecutionRecord agentType executionId AgentStatus.FAILED None
       (Some error) (elapsed world executionId));;
  let* r := getRun in
  match retriesOf (Run.context r) agentType with
  | None => stuck
  | Some retries =>
    match getAgentConfig configs agentType with
    | None => raise (TypeError "maxRetries")
    | Some agentConfig =>
      if retries <? cfg_maxRetries agentConfig
      then
        modifyRun (Run.with_context
                     (<[retriesKey agentType := VNum (retries + 1)]> (Run.context r)));;
        addLog (agent_retry agentType (retries + 1));;
        ret true
      else ret false
    end
  end.

(** [spawnAndExecuteAgent(run, agentType)]; one unit of fuel per attempt. *)
Fixpoint spawnAndExecuteAgentFuel (fuel : nat) (agentType : string) : M unit :=
  match fuel with
  | O => stuck
  | S fuel' =>
    let* p := spawn agentType in
    match attempt p with
    | Returned output => complete p output
    | Threw error =>
      let* again := fail p error in
      if again then spawnAndExecuteAgentFuel fuel' agentType else raise error
    end
  end.

(** The number of attempts the retry counter leaves to an agent. *)
Definition attemptBudget (ctx : Context) (agentType : string) : nat :=
  match retriesOf ctx agentType, getAgentConfig configs agentType with
  | Some retries, Some agentConfig =>
    S (Z.to_nat (cfg_maxRetries agentConfig - retries))
  | _, _ => 1
  end.

Definition spawnAndExecuteAgent (agentType : string) : M unit :=
  λ st, spawnAndExecuteAgentFuel
          (attemptBudget (Run.context (run st)) agentType) agentType st.

(** [await Promise.all(promises)] over the spawned executions: they settle
    one at a time in the order the environment chooses. A success runs the
    end of the [try] block, a failure the [catch] block, which either
    spawns the agent again or rejects; the first rejection rejects
    [Promise.all]. The executions still pending at that moment go on in
    the background and are not followed further. *)
Fixpoint settleAll (fuel : nat) (pending : list Pending) : M unit :=
  match pending with
  | [] => ret tt
  | _ :: _ =>
    match fuel with
    | O => stuck
    | S fuel' =>
      let i := (settleNext world (map pen_executionId pending)
                `mod` length pending)%nat in
      match pending !! i with
      | None => stuck
      | Some p =>
        match attempt p with
        | Returned output =>
          complete p output;;
          settleAll fuel' (delete i pending)
        | Threw error =>
          let* again := fail p error in
          if again
          then let* p' := spawn (pen_agentType p) in
               settleAll fuel' (<[i := p']> pending)
          else raise error
        end
      end
    end
  end.

(** [executeStage(run, stage)] *)
Definition executeStage (stage : StageDefinition) : M unit :=
  let* r := getRun in
  let agentsToRun :=
    filter (λ a, a ∉ Run.completedAgents r) (stage_agents stage) in
  match agentsToRun with
  | [] => ret tt
  | _ :: _ =>
    match stage_executionMode stage with
    | StageExecutionMode.PARALLEL =>
      let* pending := mapEach spawn agentsToRun in
      settleAll (sum_list (map (attemptBudget (Run.context r)) agentsToRun))
                pending
    | StageExecutionMode.SEQUENTIAL =>
      forEach spawnAndExecuteAgent agentsToRun
    end
  end.

(** The body of the [for] loop of [executeWorkflow], [n] iterations from
    index [i] on. *)
Fixpoint executeStagesFrom (n : nat) (i : Z) : M unit :=
  match n with
  | O => ret tt
  | S n' =>
    let* r := getRun in
    match Run.status r with
    | WorkflowStatus.CANCELLED => raise WorkflowCancelled
    | _ =>
      match (if i <? 0 then None
             else wf_stages (Run.workflowDef r) !! Z.to_nat i) with
      | None => raise (TypeError "name")
      | Some stage =>
        modifyRun (Run.with_currentStageIndex i);;
        addLog (stage_started i (stage_name stage));;
        executeStage stage;;
        let* r := getRun in
        let* checkpointId := uuidv4 in
        callSessions
          (λ store,
             match SessionManager.checkpoint checkpointId (Run.sessionId r)
                     (mkCheckpointData i (stage_name stage)
                        (Some (Run.completedAgents r))
                        (Some (mkCheckpointState (i + 1) (Run.context r))))
                     store with
             | Returned (_, store') => Returned (tt, store')
             | Threw e => Threw e
             end);;
        executeStagesFrom n' (i + 1)
      end
    end
  end.

Definition executeWorkflow : M unit :=
  let* r := getRun in
  executeStagesFrom
    (Z.to_nat (Z.of_nat (length (wf_stages (Run.workflowDef r)))
               - Run.currentStageIndex r))
    (Run.currentStageIndex r).

(** [createWorkflowBranch(run)] *)
Definition createWorkflowBranch : M string :=
  let* r := getRun in
  let name := branchName world (Run.context r) in
  match createBranch world name with
  | Returned _ => ret name
  | Threw e => raise e
  end.

(** [createWorkflowPR(run)] *)
Definition createWorkflowPR : M unit :=
  let* r := getRun in
  let options := wf_options (Run.workflowDef r) in
  match createPR world (default "" (Run.gitBranch r)) (Run.workflowId r)
          (Run.context r) (default true (options ≫= wo_draftPR)) with
  | Returned url =>
    modifyRun (Run.with_prUrl (Some url));;
    addLog (pr_created url)
  | Threw error =>
    match default PRFailureMode.WARN (options ≫= wo_prFailureMode) with
    | PRFailureMode.FAIL => raise error
    | PRFailureMode.WARN => addLog (pr_failed error)
    end
  end.

Definition createPRIfConfigured : M unit :=
  let* r := getRun in
  if default false (wo_createPR <$> wf_options (Run.workflowDef r))
     && default false (ModelSelector.truthy <$> Run.gitBranch r)
  then createWorkflowPR
  else ret tt.

(** The [catch] block of [startWorkflow] and of [resumeWorkflow]. *)
Definition failRun (sessionId : nat) (error : Error) : M unit :=
  modifyRun (λ r, Run.with_error (Some error)
                    (Run.with_status WorkflowStatus.FAILED r));;
  callSessions
    (λ store,
       match SessionManager.markFailed sessionId error store with
       | Returned store' => Returned (tt, store')
       | Threw e => Threw e
       end);;
  raise error.

Definition markCompleted (sessionId : nat) (withBranch : bool) : M unit :=
  modifyRun (Run.with_status WorkflowStatus.COMPLETED);;
  let* r := getRun in
  callSessions
    (λ store,
       match SessionManager.markCompleted sessionId
               (mkRunResult (Run.id r)
                  (if withBranch then Run.gitBranch r else None))
               store with
       | Returned store' => Returned (tt, store')
       | Threw e => Threw e
       end).

(** The call either throws before a run exists, or makes a run and
    executes it. *)
Inductive Top :=
| Rejected (e : Error) (sessions : gmap nat Session.t)
| Ran (x : Exec unit).

(** [startWorkflow] up to the [try] block: the session, the run and the
    first log entry. *)
Definition startRun (definition : string + WorkflowDefinition)
    (context : Context) (options : RunOptions)
    (store : gmap nat Session.t) (uuid : nat) : Outcome St :=
  let workflowDef :=
    match definition with
    | inl workflowId => getWorkflow workflows workflowId
    | inr workflowDef => Some workflowDef
    end in
  match workflowDef with
  | None =>
    Threw (UnknownWorkflow
             (match definition with inl workflowId => workflowId | inr _ => "" end))
  | Some workflowDef =>
    let sessionId := uuid in
    let '(session, store) :=
      SessionManager.createSession sessionId (wf_id workflowDef)
        (Some context) options store in
    let runId := S uuid in
    let r :=
      Run.mk runId (wf_id workflowDef) workflowDef (Session.id session)
        WorkflowStatus.RUNNING context 0 [] [] None None options None in
    Returned
      (mkSt (SessionManager.addLog (Session.id session)
               (workflow_started (wf_id workflowDef) runId) store)
            r (S (S uuid)))
  end.

Definition startWorkflow (definition : string + WorkflowDefinition)
    (context : Context) (options : RunOptions)
    (store : gmap nat Session.t) (uuid : nat) : Top :=
  match startRun definition context options store uuid with
  | Threw e => Rejected e store
  | Returned st =>
    Ran (tryCatch
           ((if bool_decide (opt_createBranch options = Some false)
             then ret tt
             else let* branch := createWorkflowBranch in
                  modifyRun (Run.with_gitBranch (Some branch)));;
            executeWorkflow;;
            createPRIfConfigured;;
            markCompleted (Run.sessionId (run st)) true)
           (failRun (Run.sessionId (run st))) st)
  end.

(** [resumeWorkflow] up to the [try] block: the restored session and the
    run made from it. The store is returned in both cases: [restore] has
    written to it when the workflow turns out to be unknown. *)
Definition resumeRun (sessionId : nat) (store : gmap nat Session.t)
    (uuid : nat) : Outcome St * gmap nat Session.t :=
  match SessionManager.restore sessionId store with
  | Threw e => (Threw e, store)
  | Returned (None, store) => (Threw (CannotRestore sessionId), store)
  | Returned (Some (session, checkpoint), store) =>
    match getWorkflow workflows (Session.workflowId session) with
    | None => (Threw (UnknownWorkflow (Session.workflowId session)), store)
    | Some workflowDef =>
      let resumeIndex :=
        match checkpoint with
        | Some cp =>
          if Checkpoint.stageIndex cp + 1 =? 0
          then Session.currentStage session
          else Checkpoint.stageIndex cp + 1
        | None => Session.currentStage session
        end in
      let r :=
        Run.mk uuid (Session.workflowId session) workflowDef
          (Session.id session) WorkflowStatus.RUNNING
          (Session.context session) resumeIndex
          (map Recorded (agentExecutions (Session.metadata session)))
          (setOf (Session.completedAgents session))
          (branchOf (Session.context session)) None
          (Session.options session) None in
      (Returned (mkSt store r (S uuid)), store)
    end
  end.

Definition resumeWorkflow (sessionId : nat) (store : gmap nat Session.t)
    (uuid : nat) : Top :=
  match resumeRun sessionId store uuid with
  | (Threw e, store) => Rejected e store
  | (Returned st, _) =>
    Ran (tryCatch
           (executeWorkflow;;
            createPRIfConfigured;;
            markCompleted sessionId false)
           (failRun sessionId) st)
  end.

End Engine.
End WorkflowEngine.

(** ** Vocabulary of the properties *)

(** A sequence of [addLog] calls on one session. *)
Definition addLogs (sessionId : nat) (entries : list LogEntry)
    (store : gmap nat Session.t) : gmap nat Session.t :=
  foldl (λ store entry, SessionManager.addLog sessionId entry store)
        store entries.


(** The [SessionManager] mutators the engine calls, each with the session
    it is aimed at; a call that throws leaves the store as it was. *)
Inductive Call :=
| CallUpdateStatus (sessionId : nat) (status : SessionStatus.t) (updates : Updates)
| CallCheckpoint (checkpointId : nat) (sessionId : nat) (data : CheckpointData)
| CallAddLog (sessionId : nat) (entry : LogEntry)
| CallRecordAgentExecution (sessionId : nat) (execution : ExecutionRecord)
| CallRestore (sessionId : nat).

Definition applyCall (store : gmap nat Session.t) (c : Call)
    : gmap nat Session.t :=
  match c with
  | CallUpdateStatus sessionId status updates =>
    match SessionManager.updateStatus sessionId status updates store with
    | Returned store' => store'
    | Threw _ => store
    end
  | CallCheckpoint checkpointId sessionId data =>
    match SessionManager.checkpoint checkpointId sessionId data store with
    | Returned (_, store') => store'
    | Threw _ => store
    end
  | CallAddLog sessionId entry => SessionManager.addLog sessionId entry store
  | CallRecordAgentExecution sessionId execution =>
    SessionManager.recordAgentExecution sessionId execution store
  | CallRestore sessionId =>
    match SessionManager.restore sessionId store with
    | Returned (_, store') => store'
    | Threw _ => store
    end
  end.

(** The patch of an [updateStatus] call carries no [context] key. *)
Definition leavesContext (c : Call) : Prop :=
  match c with
  | CallUpdateStatus _ _ updates => upd_context updates = None
  | _ => True
  end.

(** The executions of an agent in a run, one per attempt. *)
Definition attemptsIn (agentType : string) (l : list RunExecution)
    : list AgentExecution :=
  omap (λ x, match x with
             | Live e =>
               if bool_decide (exe_agentType e = agentType) then Some e else None
             | Recorded _ => None
             end)
       l.

Definition attemptsOf (agentType : string) (r : Run.t) : list AgentExecution :=
  attemptsIn agentType (Run.agentExecutions r).

(** [d] is a dependency of [t] and both are among [agentTypes]. *)
Definition dependsWithin (configs : gmap string AgentConfig)
    (agentTypes : list string) (t d : string) : Prop :=
  t ∈ agentTypes ∧ d ∈ agentTypes ∧ d ∈ getAgentDependencies configs t.

(** The dependency relation restricted to [agentTypes] has no cycle. *)
Definition acyclicWithin (configs : gmap string AgentConfig)
    (agentTypes : list string) : Prop :=
  ∀ t, ¬ tc (dependsWithin configs agentTypes) t t.

(** [t] is in the level of index [i]. *)
Definition inLevel (levels : list (list string)) (i : nat) (t : string) : Prop :=
  ∃ level, levels !! i = Some level ∧ t ∈ level.

(** The number of occurrences of [x] in [l]. *)
Definition occurrences (x : string) (l : list string) : nat :=
  length (filter (λ y, y = x) l).

(** Invariant of the loop of [topologicalSortAgents]: the in-degree of a
    tag counts its dependencies that are still [remaining]. *)
Definition countedWithin (configs : gmap string AgentConfig)
    (agentTypes : list string) (inDegree : gmap string Z)
    (remaining : list string) : Prop :=
  ∀ t, t ∈ agentTypes →
       inDegree !! t
       = Some (Z.of_nat
                 (length (filter (λ d, d ∈ remaining)
                                 (getAgentDependencies configs t)))).

(** Every tag's dependencies within the subset lie in strictly earlier
    levels. *)
Definition orderedWithin (configs : gmap string AgentConfig)
    (agentTypes : list string) (levels : list (list string)) : Prop :=
  ∀ i t d, inLevel levels i t → d ∈ agentTypes →
           d ∈ getAgentDependencies configs t →
           ∃ j, (j < i)%nat ∧ inLevel levels j d.

(** [store'] comes from [store] by mutator calls whose patches carry no
    [context] key. *)
Definition writes (store store' : gmap nat Session.t) : Prop :=
  ∃ calls, Forall leavesContext calls ∧ store' = foldl applyCall store calls.

(** A computation of the engine touches the session store only through
    such calls, and leaves the session of the run the same. *)
Definition tracks {A : Type} (m : M A) : Prop :=
  ∀ st,
    match m st with
    | Done _ st' | Raised _ st' =>
      writes (sessions st) (sessions st')
      ∧ Run.sessionId (run st') = Run.sessionId (run st)
    | Stuck => True
    end.

(** ** Sample data *)

Module Sample.

Definition output : AgentOutput := mkAgentOutput true "done" [] (Some 10).

Definition context : Context := {["projectName" := VStr "mobile-app"]}.

Definition session : Session.t :=
  Session.mk 0 SessionStatus.RUNNING "CODE_REVIEW" context (mkRunOptions None)
    [] [] [] 0 (mkMetadata 0 0 []) None None.

(** A failed session that never reached a checkpoint but completed one
    agent. *)
Definition failedSession : Session.t :=
  Session.mk 0 SessionStatus.FAILED "CODE_REVIEW" context (mkRunOptions None)
    [] [] ["CQR"] 0 (mkMetadata 0 0 []) None None.

Definition completedSession : Session.t :=
  Session.with_status SessionStatus.COMPLETED session.

Definition checkpointData : CheckpointData :=
  mkCheckpointData 2 "Implementation" (Some ["PM"]) None.

(** Collaborators that always succeed, except that the agents listed in
    [failing] always fail. *)
Definition world (failing : list string) : World :=
  mkWorld
    (λ request,
       if bool_decide (req_agentType request ∈ failing)
       then Threw (External "agent failed")
       else Returned output)
    (λ _, 5)
    (λ _, "feature/mobile-app/20240101")
    (λ _, Returned tt)
    (λ _ _ _ _, Returned "https://example.org/pr/1")
    (λ _, 0%nat).



(** A configuration table with a cycle: A depends on B and B on A. *)
Definition cyclic : gmap string AgentConfig :=
  list_to_map [
    ("A", mkAgentConfig "A" "A" ["B"] ModelTier.SONNET "a.md" 3 60000);
    ("B", mkAgentConfig "B" "B" ["A"] ModelTier.SONNET "b.md" 3 60000)
  ].

Definition run : Run.t :=
  Run.mk 1 "CODE_REVIEW" CODE_REVIEW 0 WorkflowStatus.RUNNING context 0 [] []
    None None (mkRunOptions None) None.

Definition state : St := mkSt {[0%nat := session]} run 2.

End Sample.

(** ** Further functions of the sources *)

(** *** Agent graph (orchestration/agent-configs.js) *)

(** The entries of [AGENT_CONFIGS] in source order, which is the order of
    [Object.keys] and [Object.values]. *)
Definition AGENT_CONFIG_ENTRIES : list (string * AgentConfig) :=
  [ (AgentType.PM, mkAgentConfig AgentType.PM "Project Manager"
       [] ModelTier.OPUS "pm.md" 3 300000);
    (AgentType.ARCHITECT, mkAgentConfig AgentType.ARCHITECT "System Architect"
       [AgentType.PM] ModelTier.OPUS "architect.md" 3 300000);
    (AgentType.UIUX, mkAgentConfig AgentType.UIUX "UI/UX Designer"
       [AgentType.PM] ModelTier.SONNET "uiux.md" 3 240000);
    (AgentType.TL_FRONTEND, mkAgentConfig AgentType.TL_FRONTEND "Tech Lead - Frontend"
       [AgentType.ARCHITECT; AgentType.UIUX] ModelTier.SONNET "tl-frontend.md" 3 240000);
    (AgentType.TL_BACKEND, mkAgentConfig AgentType.TL_BACKEND "Tech Lead - Backend"
       [AgentType.ARCHITECT] ModelTier.SONNET "tl-backend.md" 3 240000);
    (AgentType.DEV_FRONTEND, mkAgentConfig AgentType.DEV_FRONTEND "Frontend Developer"
       [AgentType.TL_FRONTEND] ModelTier.SONNET "dev-frontend.md" 3 360000);
    (AgentType.DEV_BACKEND, mkAgentConfig AgentType.DEV_BACKEND "Backend Developer"
       [AgentType.TL_BACKEND] ModelTier.SONNET "dev-backend.md" 3 360000);
    (AgentType.TEST, mkAgentConfig AgentType.TEST "Test Engineer"
       [AgentType.DEV_FRONTEND; AgentType.DEV_BACKEND] ModelTier.SONNET "test.md" 3 300000);
    (AgentType.CQR, mkAgentConfig AgentType.CQR "Code Quality Reviewer"
       [AgentType.DEV_FRONTEND; AgentType.DEV_BACKEND] ModelTier.SONNET "cqr.md" 3 240000);
    (AgentType.SR, mkAgentConfig AgentType.SR "Security Reviewer"
       [AgentType.DEV_FRONTEND; AgentType.DEV_BACKEND] ModelTier.OPUS "sr.md" 3 300000);
    (AgentType.DOE, mkAgentConfig AgentType.DOE "DevOps Engineer"
       [AgentType.DEV_FRONTEND; AgentType.DEV_BACKEND] ModelTier.HAIKU "doe.md" 3 180000)
  ].


Definition getDependentAgents (entries : list (string * AgentConfig))
    (agentType : string) : list string :=
  cfg_type <$> filter (λ config, agentType ∈ cfg_dependencies config) entries.*2.

(** [validateDependencies(agentTypes, completedAgents)]: the [missing]
    messages; [completedAgents] is a set, read with [has] only. *)
Definition missingDependencies (configs : gmap string AgentConfig)
    (agentTypes completedAgents : list string) : list string :=
  agentTypes ≫= λ type,
    map (λ dep, type +:+ " requires " +:+ dep)
        (filter (λ dep, (dep ∉ completedAgents) ∧ (dep ∉ agentTypes))
                (getAgentDependencies configs type)).

Record Validation := mkValidation {
  valid : bool;
  missing : list string
}.

Definition validateDependencies (configs : gmap string AgentConfig)
    (agentTypes completedAgents : list string) : Validation :=
  let missing := missingDependencies configs agentTypes completedAgents in
  mkValidation (length missing =? 0)%nat missing.


(** *** Tier selector (orchestration/model-selector.js) *)

Module CostEstimate.

(** The numbers of [estimateCost(agentTypes, tokensPerAgent)]; [None] is
    [NaN], which a multiplier outside the table and the division of an
    empty list's total by its length both give. The quotient is kept as
    numerator and denominator. *)
Record t := mk {
  totalMultiplier : option Z;
  relativeCost : option (Z * Z);
  estimatedTokens : Z
}.

End CostEstimate.



(** *** Session store (orchestration/session-manager.js) *)

Definition deleteSession (sessionId : nat) (store : gmap nat Session.t)
    : gmap nat Session.t :=
  delete sessionId store.

Record Statistics := mkStatistics {
  stat_sessionId : nat;
  stat_workflowId : string;
  stat_status : SessionStatus.t;
  stat_totalTokens : Z;
  stat_totalExecutionTime : Z;
  stat_completedAgents : nat;
  stat_checkpoints : nat
}.

Definition getStatistics (store : gmap nat Session.t) (sessionId : nat)
    : option Statistics :=
  match SessionManager.getSession store sessionId with
  | None => None
  | Some session =>
    Some (mkStatistics sessionId (Session.workflowId session)
            (Session.status session)
            (totalTokens (Session.metadata session))
            (totalExecutionTime (Session.metadata session))
            (length (Session.completedAgents session))
            (length (Session.checkpoints session)))
  end.

(** *** Workflow definitions (orchestration/predefined-workflows.js) *)


(** *** Vocabulary of the session properties *)


(** The patch of an [updateStatus] call carries no [metadata] key. *)
Definition leavesMetadata (c : Call) : Prop :=
  match c with
  | CallUpdateStatus _ _ updates => upd_metadata updates = None
  | _ => True
  end.

(** The tokens and the time of a list of recorded executions. *)
Definition tokensOf (executions : list ExecutionRecord) : Z :=
  foldr (λ execution total, default 0 (rec_tokensUsed execution) + total)
        0 executions.

Definition timeOf (executions : list ExecutionRecord) : Z :=
  foldr (λ execution total, rec_executionTime execution + total) 0 executions.

(** The session a mutator call is aimed at, and what the call makes of
    that session when it is stored. *)
Definition callTarget (c : Call) : nat :=
  match c with
  | CallUpdateStatus sessionId _ _ => sessionId
  | CallCheckpoint _ sessionId _ => sessionId
  | CallAddLog sessionId _ => sessionId
  | CallRecordAgentExecution sessionId _ => sessionId
  | CallRestore sessionId => sessionId
  end.

Definition callEffect (c : Call) (session : Session.t) : option Session.t :=
  applyCall {[callTarget c := session]} c !! callTarget c.

(** The executions that the [recordAgentExecution] calls among [calls]
    hand to the session [sessionId]. *)
Definition recordedFor (sessionId : nat) (calls : list Call)
    : list ExecutionRecord :=
  omap (λ c, match c with
             | CallRecordAgentExecution target execution =>
               if bool_decide (target = sessionId) then Some execution else None
             | _ => None
             end)
       calls.

(** *** Vocabulary of the engine properties *)

(** A computation of the engine relates the state it starts from to the
    state it ends in by [J], whether it returns or throws, and returns
    values that satisfy [Q]. *)
Definition keeps {A : Type} (J : St → St → Prop) (Q : A → Prop) (m : M A)
    : Prop :=
  ∀ st,
    match m st with
    | Done a st' => J st st' ∧ Q a
    | Raised _ st' => J st st'
    | Stuck => True
    end.

(** The calls that only append to a session: log entries and execution
    records. *)
Definition isAppend (c : Call) : Prop :=
  match c with
  | CallAddLog _ _ | CallRecordAgentExecution _ _ => True
  | _ => False
  end.

(** The patch of an [updateStatus] call carries no [error] key. *)
Definition leavesError (c : Call) : Prop :=
  match c with
  | CallUpdateStatus _ _ updates => upd_error updates = None
  | _ => True
  end.

(** The run has kept its identifier, its session and its workflow
    definition. *)
Definition sameRun (r r' : Run.t) : Prop :=
  Run.id r' = Run.id r
  ∧ Run.sessionId r' = Run.sessionId r
  ∧ Run.workflowDef r' = Run.workflowDef r.

(** Between two states the session store has changed by calls that
    satisfy [P], and the run is the same. *)
Definition storeStep (P : Call → Prop) (st st' : St) : Prop :=
  (∃ calls, Forall P calls
            ∧ sessions st' = foldl applyCall (sessions st) calls)
  ∧ sameRun (run st) (run st').

(** While a stage runs, the session store is only appended to. *)
Definition stageStep : St → St → Prop := storeStep isAppend.

(** Between two states no execution of [agentType] has been added to the
    run, and the agent has stayed completed if it was. *)
Definition noAttempt (agentType : string) (st st' : St) : Prop :=
  length (attemptsOf agentType (run st'))
  = length (attemptsOf agentType (run st))
  ∧ (agentType ∈ Run.completedAgents (run st) →
     agentType ∈ Run.completedAgents (run st')).

(** *** The registry of runs (orchestration/workflow-engine.js)

    [this.activeRuns], from run identifiers to runs. [startWorkflow] and
    [resumeWorkflow] register the run they make; only [cancelWorkflow]
    removes one. *)

Inductive CancelError :=
| RunNotFound (runId : nat)
| SessionError (e : Error).

(** The loop of [cancelWorkflow] over [run.agentExecutions]. *)
Definition cancelExecution (x : RunExecution) : RunExecution :=
  match x with
  | Live e =>
    match exe_status e with
    | AgentStatus.RUNNING | AgentStatus.SPAWNING =>
      Live (mkAgentExecution (exe_id e) (exe_agentType e) AgentStatus.FAILED
              (exe_output e) (Some WorkflowCancelled) (exe_model e))
    | _ => x
    end
  | Recorded r =>
    match rec_status r with
    | AgentStatus.RUNNING | AgentStatus.SPAWNING =>
      Recorded (mkExecutionRecord (rec_agentType r) (rec_executionId r)
                  AgentStatus.FAILED (rec_tokensUsed r)
                  (Some WorkflowCancelled) (rec_executionTime r))
    | _ => x
    end
  end.

(** [cancelWorkflow(runId, options)]: the error thrown, if any, with the
    registry and the session store the call leaves. Deleting the branch
    on [options.cleanup] touches neither (its errors are swallowed). *)
Definition cancelWorkflow (runId : nat) (activeRuns : gmap nat Run.t)
    (store : gmap nat Session.t)
    : option CancelError * gmap nat Run.t * gmap nat Session.t :=
  match activeRuns !! runId with
  | None => (Some (RunNotFound runId), activeRuns, store)
  | Some r =>
    let r :=
      Run.with_agentExecutions (map cancelExecution (Run.agentExecutions r))
        (Run.with_status WorkflowStatus.CANCELLED r) in
    match SessionManager.markFailed (Run.sessionId r) WorkflowCancelled store with
    | Threw e => (Some (SessionError e), <[runId := r]> activeRuns, store)
    | Returned store' => (None, delete runId activeRuns, store')
    end
  end.

(** [hasActiveRun(sessionId)]: some registered run belongs to the
    session. *)
Definition hasActiveRun (activeRuns : gmap nat Run.t) (sessionId : nat) : bool :=
  bool_decide (map_Exists (λ _ r, Run.sessionId r = sessionId) activeRuns).

(** *** Further sample data *)

Module SampleFurther.

(** A session of CODE_REVIEW that failed after the checkpoint of its first
    stage. *)
Definition interrupted : Session.t :=
  Session.mk 0 SessionStatus.FAILED "CODE_REVIEW" Sample.context
    (mkRunOptions None)
    [Checkpoint.mk 4 0 0 "Quality Review" ["CQR"] None] [] ["CQR"] 1
    (mkMetadata 0 0 []) (Some (External "agent failed")) None.

(** A run of REFACTORING that has come to its last stage, Validation,
    whose agents are TEST and the already completed CQR. *)
Definition validating : St :=
  mkSt {[0%nat := Sample.session]}
    (Run.mk 1 "REFACTORING" REFACTORING 0 WorkflowStatus.RUNNING Sample.context
       2 [] ["ARCHITECT"; "CQR"; "DEV_FRONTEND"; "DEV_BACKEND"] None None
       (mkRunOptions None) None)
    2.

End SampleFurther.

(** ** Task store (pms/types.js, pms/task-manager.js)

    The in-memory table [this.tasks] of the [TaskManager]; every mutator
    saves the tasks it changes, and the timestamps and the free-form
    [metadata] of a task are left out. *)

Module TaskStatus.
Inductive t := PENDING | IN_PROGRESS | COMPLETED | BLOCKED | FAILED.
#[global] Instance eq_dec : EqDecision t.
Proof. solve_decision. Defined.
End TaskStatus.

Module TaskPriority.
Inductive t := LOW | MEDIUM | HIGH | CRITICAL.
End TaskPriority.

(** [String(sequence)]: the decimal digits of a number. *)
Definition decimal (n : nat) : string :=
  DecimalString.NilEmpty.string_of_uint (Nat.to_uint n).

(** [s.padStart(4, '0')] *)
Definition padStart4 (s : string) : string :=
  Nat.iter (4 - String.length s) (String "0"%char) s.

Definition generateTaskId (sequence : nat) : string :=
  "TASK-" +:+ padStart4 (decimal sequence).

(** The value of a decimal digit. *)
Definition digitValue (c : ascii) : option nat :=
  let n := Ascii.nat_of_ascii c in
  if (48 <=? n)%nat && (n <=? 57)%nat then Some (n - 48)%nat else None.

(** [parseInt] over the longest run of digits a string starts with;
    [None] when it starts with no digit ([\d+] does not match). *)
Fixpoint readDigits (s : string) (acc : option nat) : option nat :=
  match s with
  | EmptyString => acc
  | String c rest =>
    match digitValue c with
    | Some d => readDigits rest (Some (10 * default 0%nat acc + d)%nat)
    | None => acc
    end
  end.

Fixpoint dropString (n : nat) (s : string) : string :=
  match n, s with
  | S n', String _ rest => dropString n' rest
  | _, _ => s
  end.

(** [parseTaskId(taskId)]: the number after the leftmost [TASK-] that is
    followed by a digit, 0 when there is none. *)
Fixpoint parseTaskId (taskId : string) : nat :=
  match taskId with
  | EmptyString => 0
  | String _ rest =>
    if String.prefix "TASK-" taskId
    then match readDigits (dropString 5 taskId) None with
         | Some n => n
         | None => parseTaskId rest
         end
    else parseTaskId rest
  end.

Definition isValidStatusTransition (currentStatus newStatus : TaskStatus.t)
    : bool :=
  bool_decide
    (newStatus
     ∈ match currentStatus with
       | TaskStatus.PENDING => [TaskStatus.IN_PROGRESS; TaskStatus.BLOCKED]
       | TaskStatus.IN_PROGRESS =>
         [TaskStatus.COMPLETED; TaskStatus.FAILED; TaskStatus.BLOCKED]
       | TaskStatus.BLOCKED => [TaskStatus.PENDING; TaskStatus.IN_PROGRESS]
       | TaskStatus.COMPLETED => []
       | TaskStatus.FAILED => [TaskStatus.PENDING]
       end).

Module Task.
Record t := mk {
  id : string;
  agentType : string;
  summary : string;
  description : string;
  status : TaskStatus.t;
  priority : TaskPriority.t;
  deps : list string;
  blocked_by : list string;
  blocking : list string;
  context : string;
  output : option AgentOutput;
  error : option string
}.

Definition with_status (v : TaskStatus.t) (x : t) : t :=
  mk (id x) (agentType x) (summary x) (description x) v (priority x) (deps x)
     (blocked_by x) (blocking x) (context x) (output x) (error x).
Definition with_blocked_by (v : list string) (x : t) : t :=
  mk (id x) (agentType x) (summary x) (description x) (status x) (priority x)
     (deps x) v (blocking x) (context x) (output x) (error x).
Definition with_blocking (v : list string) (x : t) : t :=
  mk (id x) (agentType x) (summary x) (description x) (status x) (priority x)
     (deps x) (blocked_by x) v (context x) (output x) (error x).
Definition with_output (v : option AgentOutput) (x : t) : t :=
  mk (id x) (agentType x) (summary x) (description x) (status x) (priority x)
     (deps x) (blocked_by x) (blocking x) (context x) v (error x).
Definition with_error (v : option string) (x : t) : t :=
  mk (id x) (agentType x) (summary x) (description x) (status x) (priority x)
     (deps x) (blocked_by x) (blocking x) (context x) (output x) v.
End Task.

(** The [params] of [createTask] ([None]: key absent). *)
Record TaskParams := mkTaskParams {
  par_agentType : string;
  par_summary : option string;
  par_description : option string;
  par_priority : option TaskPriority.t;
  par_dependencies : option (list string);
  par_context : option string
}.

(** The [updates] the task manager itself passes to [updateStatus]. *)
Inductive TaskUpdates :=
| NoTaskUpdates
| OutputUpdate (output : AgentOutput)
| ErrorUpdate (error : string).

Inductive TaskError :=
| TaskNotFound (taskId : string)
| InvalidTransition (currentStatus newStatus : TaskStatus.t).

Module TaskManager.

Record t := mk {
  tasks : gmap string Task.t;
  sequence : nat
}.

(** The result of a call that may throw, with the state it leaves. *)
Inductive Result (A : Type) : Type :=
| Ok (a : A) (tm : t)
| Threw (e : TaskError) (tm : t).
Arguments Ok {A} a tm.
Arguments Threw {A} e tm.

(** [loadTasks()] over the tasks read from the files of the directory. *)
Definition loadTasks (files : list Task.t) : t :=
  foldl (λ tm data,
           mk (<[Task.id data := data]> (tasks tm))
              (Nat.max (sequence tm) (parseTaskId (Task.id data))))
        (mk ∅ 0) files.

Definition getTask (tm : t) (taskId : string) : option Task.t :=
  tasks tm !! taskId.

(** [updateBlockingRelationships(task)]; [task] is not stored yet. *)
Definition updateBlockingRelationships (task : Task.t)
    (tasks : gmap string Task.t) : Task.t * gmap string Task.t :=
  let '(task, tasks) :=
    foldl (λ '(task, tasks) depId,
             match tasks !! depId with
             | Some depTask =>
               if bool_decide (Task.status depTask ≠ TaskStatus.COMPLETED)
               then
                 (Task.with_blocked_by (Task.blocked_by task ++ [depId]) task,
                  if bool_decide (Task.id task ∈ Task.blocking depTask)
                  then tasks
                  else <[depId := Task.with_blocking
                                    (Task.blocking depTask ++ [Task.id task])
                                    depTask]> tasks)
               else (task, tasks)
             | None => (task, tasks)
             end)
          (task, tasks) (Task.deps task) in
  (if (0 <? length (Task.blocked_by task))%nat
   then Task.with_status TaskStatus.BLOCKED task
   else task,
   tasks).

Definition orEmpty (s : option string) : string :=
  match s with
  | Some s => s
  | None => EmptyString
  end.

Definition createTask (params : TaskParams) (tm : t) : Task.t * t :=
  let sequence := S (sequence tm) in
  let taskId := generateTaskId sequence in
  let task :=
    Task.mk taskId (par_agentType params) (orEmpty (par_summary params))
      (orEmpty (par_description params)) TaskStatus.PENDING
      (default TaskPriority.MEDIUM (par_priority params))
      (default [] (par_dependencies params)) [] []
      (orEmpty (par_context params)) None None in
  let '(task, tasks) := updateBlockingRelationships task (tasks tm) in
  (task, mk (<[taskId := task]> tasks) sequence).

(** One iteration of the loop of [unblockDependentTasks]. *)
Definition unblock (completedTaskId : string) (task : Task.t) : Task.t :=
  let blocked_by := filter (λ id, id ≠ completedTaskId) (Task.blocked_by task) in
  let task := Task.with_blocked_by blocked_by task in
  if (length blocked_by =? 0)%nat
     && bool_decide (Task.status task = TaskStatus.BLOCKED)
  then Task.with_status TaskStatus.PENDING task
  else task.

Definition unblockDependentTasks (completedTaskId : string)
    (tasks : gmap string Task.t) : gmap string Task.t :=
  match tasks !! completedTaskId with
  | None => tasks
  | Some completedTask =>
    let tasks :=
      foldl (λ tasks blockingId, alter (unblock completedTaskId) blockingId tasks)
            tasks (Task.blocking completedTask) in
    alter (Task.with_blocking []) completedTaskId tasks
  end.

(** [Object.assign(task, updates)] *)
Definition assign (updates : TaskUpdates) (task : Task.t) : Task.t :=
  match updates with
  | NoTaskUpdates => task
  | OutputUpdate output => Task.with_output (Some output) task
  | ErrorUpdate error => Task.with_error (Some error) task
  end.

Definition updateStatus (taskId : string) (newStatus : TaskStatus.t)
    (updates : TaskUpdates) (tm : t) : Result Task.t :=
  match getTask tm taskId with
  | None => Threw (TaskNotFound taskId) tm
  | Some task =>
    if isValidStatusTransition (Task.status task) newStatus
    then
      let task := assign updates (Task.with_status newStatus task) in
      let tasks := <[taskId := task]> (tasks tm) in
      let tasks :=
        if bool_decide (newStatus = TaskStatus.COMPLETED)
        then unblockDependentTasks taskId tasks
        else tasks in
      Ok (default task (tasks !! taskId)) (mk tasks (sequence tm))
    else Threw (InvalidTransition (Task.status task) newStatus) tm
  end.

Definition startTask (taskId : string) (tm : t) : Result Task.t :=
  updateStatus taskId TaskStatus.IN_PROGRESS NoTaskUpdates tm.

Definition completeTask (taskId : string) (output : AgentOutput) (tm : t)
    : Result Task.t :=
  updateStatus taskId TaskStatus.COMPLETED (OutputUpdate output) tm.

Definition failTask (taskId : string) (error : string) (tm : t)
    : Result Task.t :=
  updateStatus taskId TaskStatus.FAILED (ErrorUpdate error) tm.

(** [blockTask(taskId, blockedBy)]: the blocker is pushed before the
    transition is checked. *)
Definition blockTask (taskId blockedBy : string) (tm : t) : Result Task.t :=
  match getTask tm taskId with
  | None => Threw (TaskNotFound taskId) tm
  | Some task =>
    let task :=
      if bool_decide (blockedBy ∈ Task.blocked_by task)
      then task
      else Task.with_blocked_by (Task.blocked_by task ++ [blockedBy]) task in
    updateStatus taskId TaskStatus.BLOCKED NoTaskUpdates
      (mk (<[taskId := task]> (tasks tm)) (sequence tm))
  end.

(** [getReadyTasks()], in no particular order. *)
Definition getReadyTasks (tm : t) : list Task.t :=
  filter (λ task, Task.status task = TaskStatus.PENDING
                  ∧ Task.blocked_by task = [])
         (map_to_list (tasks tm)).*2.

Definition deleteTask (taskId : string) (tm : t) : t :=
  mk (delete taskId (tasks tm)) (sequence tm).

End TaskManager.

(** *** Vocabulary of the task properties *)

(** No stored task carries a number above the sequence counter. *)
Definition numbered (tm : TaskManager.t) : Prop :=
  ∀ taskId, is_Some (TaskManager.tasks tm !! taskId) →
            (parseTaskId taskId ≤ TaskManager.sequence tm)%nat.

(** The state a call leaves, whether it returns or throws. *)
Definition stateAfter {A : Type} (r : TaskManager.Result A) : TaskManager.t :=
  match r with
  | TaskManager.Ok _ tm | TaskManager.Threw _ tm => tm
  end.

(** A dependency that is stored and not completed. *)
Definition unfinished (tasks : gmap string Task.t) (depId : string) : bool :=
  match tasks !! depId with
  | Some depTask => bool_decide (Task.status depTask ≠ TaskStatus.COMPLETED)
  | None => false
  end.

(** What [updateBlockingRelationships] makes of a blocker of [taskId]. *)
Definition addBlocking (taskId : string) (depTask : Task.t) : Task.t :=
  if bool_decide (taskId ∈ Task.blocking depTask)
  then depTask
  else Task.with_blocking (Task.blocking depTask ++ [taskId]) depTask.

(** *** Sample tasks *)

Module SampleTasks.

(** A task in progress that blocks the next one. *)
Definition working : Task.t :=
  Task.mk "TASK-0001" "PM" EmptyString EmptyString TaskStatus.IN_PROGRESS TaskPriority.MEDIUM
    [] [] ["TASK-0002"] EmptyString None None.

Definition waiting : Task.t :=
  Task.mk "TASK-0002" "ARCHITECT" EmptyString EmptyString TaskStatus.BLOCKED TaskPriority.MEDIUM
    ["TASK-0001"] ["TASK-0001"] [] EmptyString None None.

Definition idle : Task.t :=
  Task.mk "TASK-0003" "UIUX" EmptyString EmptyString TaskStatus.PENDING TaskPriority.MEDIUM
    [] [] [] EmptyString None None.

Definition store : TaskManager.t :=
  TaskManager.loadTasks [working; waiting; idle].

End SampleTasks.

(** ** XML escaping (pms/context-serializer.js)

    Strings are sequences of 8-bit characters. *)

Module ContextSerializer.

(** The double quote. *)
Definition quote : ascii := Ascii.ascii_of_nat 34.

(** [str.replace(/c/g, replacement)] for one character [c]. *)
Fixpoint replaceChar (c : ascii) (replacement : string) (str : string)
    : string :=
  match str with
  | EmptyString => EmptyString
  | String x rest =>
    if Ascii.eqb x c
    then replacement +:+ replaceChar c replacement rest
    else String x (replaceChar c replacement rest)
  end.

(** [pattern] matches at the start of [str]. *)
Fixpoint startsWith (pattern str : string) : bool :=
  match pattern with
  | EmptyString => true
  | String a pattern' =>
    match str with
    | EmptyString => false
    | String b str' => Ascii.eqb a b && startsWith pattern' str'
    end
  end.

(** [str.replace(/pattern/g, replacement)] for a literal, non-empty
    [pattern]: the matches are taken from left to right and do not
    overlap; [skip] characters of a match are still to be passed over. *)
Fixpoint replaceFrom (pattern : string) (replacement : ascii) (skip : nat)
    (str : string) : string :=
  match str with
  | EmptyString => EmptyString
  | String x rest =>
    match skip with
    | S skip' => replaceFrom pattern replacement skip' rest
    | O =>
      if startsWith pattern str
      then String replacement
             (replaceFrom pattern replacement (String.length pattern - 1) rest)
      else String x (replaceFrom pattern replacement 0 rest)
    end
  end.

Definition replaceAll (pattern : string) (replacement : ascii) (str : string)
    : string :=
  replaceFrom pattern replacement 0 str.

Definition escapeXml (str : string) : string :=
  replaceChar "'" "&apos;"
    (replaceChar quote "&quot;"
       (replaceChar ">" "&gt;"
          (replaceChar "<" "&lt;"
             (replaceChar "&" "&amp;" str)))).

Definition unescapeXml (str : string) : string :=
  replaceAll "&amp;" "&"
    (replaceAll "&lt;" "<"
       (replaceAll "&gt;" ">"
          (replaceAll "&quot;" quote
             (replaceAll "&apos;" "'" str)))).

(** The characters of [[a-zA-Z0-9_-]]. *)
Definition isTagChar (c : ascii) : bool :=
  let n := Ascii.nat_of_ascii c in
  ((97 <=? n) && (n <=? 122) || (65 <=? n) && (n <=? 90)
   || (48 <=? n) && (n <=? 57) || (n =? 95) || (n =? 45))%nat.

(** The characters of [[0-9-]]. *)
Definition isDigitOrHyphen (c : ascii) : bool :=
  let n := Ascii.nat_of_ascii c in
  ((48 <=? n) && (n <=? 57) || (n =? 45))%nat.

Fixpoint mapChars (f : ascii → ascii) (str : string) : string :=
  match str with
  | EmptyString => EmptyString
  | String x rest => String (f x) (mapChars f rest)
  end.

Definition sanitizeTagName (str : string) : string :=
  let str := mapChars (λ c, if isTagChar c then c else "_"%char) str in
  match str with
  | String x _ => if isDigitOrHyphen x then String "_" str else str
  | EmptyString => str
  end.

End ContextSerializer.

(** *** Vocabulary of the escaping properties *)

(** Every character of a string satisfies [P]. *)
Fixpoint allChars (P : ascii → bool) (str : string) : bool :=
  match str with
  | EmptyString => true
  | String x rest => P x && allChars P rest
  end.

(** What [escapeXml] writes for one character. *)
Definition escapeChar (c : ascii) : string :=
  if Ascii.eqb c "&" then "&amp;"
  else if Ascii.eqb c "<" then "&lt;"
  else if Ascii.eqb c ">" then "&gt;"
  else if Ascii.eqb c ContextSerializer.quote then "&quot;"
  else if Ascii.eqb c "'" then "&apos;"
  else String c EmptyString.

(** * Properties *)

(** ** Agent graph *)

Section Counting.
Implicit Types (l k : list string) (x y : string).

Lemma occurrences_cons x y l :
  occurrences x (y :: l)
  = ((if decide (y = x) then 1 else 0) + occurrences x l)%nat.
Proof.
  unfold occurrences. rewrite filter_cons. by destruct (decide (y = x)).
Qed.

Lemma occurrences_app x l k :
  occurrences x (l ++ k) = (occurrences x l + occurrences x k)%nat.
Proof. unfold occurrences. by rewrite filter_app, length_app. Qed.

Lemma occurrences_not_in x l : x ∉ l → occurrences x l = 0%nat.
Proof.
  intros Hx. unfold occurrences.
  induction l as [|y l IH]; [done|].
  rewrite filter_cons. apply not_elem_of_cons in Hx as [Hne Hx].
  destruct (decide (y = x)); [congruence|by apply IH].
Qed.

Lemma decide_elem_of_cons {A : Type} (a b : A) x y l :
  (if decide (x ∈ y :: l) then a else b)
  = if decide (y = x) then a else if decide (x ∈ l) then a else b.
Proof.
  destruct (decide (x ∈ y :: l)) as [Hin|Hnin], (decide (y = x)) as [Heq|Hne],
    (decide (x ∈ l)) as [Hl|Hl]; try done; exfalso;
    first [ apply elem_of_cons in Hin as [?|?]; [by apply Hne|by apply Hl]
          | apply Hnin; subst; by left
          | apply Hnin; by right ].
Qed.

Lemma filter_ext_in (P Q : string → Prop)
    `{!∀ x, Decision (P x)} `{!∀ x, Decision (Q x)} l :
  (∀ x, x ∈ l → P x ↔ Q x) → filter P l = filter Q l.
Proof.
  induction l as [|y l IH]; [done|]. intros Hext.
  rewrite !filter_cons.
  rewrite IH by (intros x Hx; apply Hext; by right).
  pose proof (Hext y ltac:(by left)) as Hy.
  destruct (decide (P y)) as [HP|HP], (decide (Q y)) as [HQ|HQ]; try done;
    exfalso; tauto.
Qed.

(** A filter splits along two exclusive cases. *)
Lemma length_filter_split (P Q R : string → Prop)
    `{!∀ x, Decision (P x)} `{!∀ x, Decision (Q x)} `{!∀ x, Decision (R x)} l :
  (∀ x, P x ↔ Q x ∨ R x) →
  (∀ x, Q x → R x → False) →
  length (filter P l)
  = (length (filter Q l) + length (filter R l))%nat.
Proof.
  intros Hiff Hex. induction l as [|y l IH]; [done|].
  rewrite !filter_cons.
  destruct (decide (P y)) as [HP|HP], (decide (Q y)) as [HQ|HQ],
    (decide (R y)) as [HR|HR]; simpl; rewrite ?IH; try lia.
  - exfalso. by eapply Hex.
  - exfalso. apply Hiff in HP. tauto.
  - exfalso. apply HP, Hiff. tauto.
  - exfalso. apply HP, Hiff. tauto.
  - exfalso. apply HP, Hiff. tauto.
Qed.

Lemma filter_none (P : string → Prop) `{!∀ x, Decision (P x)} l :
  (∀ x, x ∈ l → ¬ P x) → filter P l = [].
Proof.
  induction l as [|y l IH]; [done|]. intros Hno.
  rewrite filter_cons. destruct (decide (P y)) as [HP|HP].
  - exfalso. by apply (Hno y); [left|].
  - apply IH. intros x Hx. apply Hno. by right.
Qed.

Lemma sum_list_with_agree (f g : string → nat) l :
  (∀ x, x ∈ l → f x = g x) → sum_list_with f l = sum_list_with g l.
Proof.
  induction l as [|y l IH]; [done|]. intros Hfg. simpl.
  rewrite (Hfg y) by (by left). rewrite IH; [done|].
  intros x Hx. apply Hfg. by right.
Qed.

(** Counting the members of a duplicate-free list [k] inside [l]. *)
Lemma sum_occurrences k l :
  NoDup k →
  sum_list_with (λ c, occurrences c l) k
  = length (filter (λ x, x ∈ k) l).
Proof.
  induction 1 as [|c k Hc Hk IH]; simpl.
  - rewrite filter_none; [done|]. intros x _. apply not_elem_of_nil.
  - rewrite IH. unfold occurrences. symmetry.
    apply length_filter_split.
    + intros x. by rewrite elem_of_cons.
    + intros x -> Hx. done.
Qed.

End Counting.

Section Graph.
Import TopoSort.
Variable configs : gmap string AgentConfig.
Variable agentTypes : list string.

Implicit Types (inDegree : gmap string Z) (adjacency : gmap string (list string)).
Implicit Types (l remaining level : list string) (t d c : string).

(** *** The graph [topologicalSortAgents] builds *)

Lemma initialize_from (g : gmap string Z * gmap string (list string)) l t :
  let g' := foldl (λ g type, (<[type := 0]> g.1, <[type := []]> g.2)) g l in
  g'.1 !! t = (if decide (t ∈ l) then Some 0 else g.1 !! t)
  ∧ g'.2 !! t = (if decide (t ∈ l) then Some [] else g.2 !! t).
Proof.
  revert g. induction l as [|x l IH]; intros g; cbn zeta; cbn [foldl].
  - by destruct (decide (t ∈ [])) as [Hin|_]; [apply elem_of_nil in Hin|].
  - destruct (IH (<[x := 0]> g.1, <[x := []]> g.2)) as [H1 H2].
    cbn zeta in H1, H2. cbn [fst snd] in *. rewrite H1, H2.
    rewrite !decide_elem_of_cons.
    destruct (decide (x = t)) as [->|Hne], (decide (t ∈ l)); try done.
    + by rewrite !lookup_insert_eq.
    + by rewrite !lookup_insert_ne.
Qed.

(** Pushing [type] onto the adjacency lists of its dependencies. *)
Lemma pushDependent_all type ds adjacency c :
  (c ∈ ds → is_Some (adjacency !! c)) →
  default [] (foldl (pushDependent type) adjacency ds !! c)
  = default [] (adjacency !! c) ++ replicate (occurrences c ds) type.
Proof.
  revert adjacency. induction ds as [|d ds IH]; intros adjacency Hc; simpl.
  - by rewrite app_nil_r.
  - rewrite IH.
    + unfold pushDependent. rewrite occurrences_cons.
      destruct (decide (d = c)) as [->|Hne].
      * rewrite lookup_alter_eq.
        destruct (Hc ltac:(by left)) as [l ->]. simpl.
        by rewrite <- app_assoc.
      * by rewrite lookup_alter_ne.
    + intros Hin. unfold pushDependent.
      apply lookup_alter_is_Some. apply Hc. by right.
Qed.

Lemma pushDependent_keys type ds adjacency c :
  is_Some (foldl (pushDependent type) adjacency ds !! c)
  ↔ is_Some (adjacency !! c).
Proof.
  revert adjacency. induction ds as [|d ds IH]; intros adjacency; [done|].
  simpl. rewrite IH. unfold pushDependent. apply lookup_alter_is_Some.
Qed.

Lemma occurrences_replicate t n x :
  occurrences t (replicate n x) = if decide (x = t) then n else 0%nat.
Proof.
  induction n as [|n IH]; simpl.
  - by destruct (decide (x = t)).
  - rewrite occurrences_cons, IH. by destruct (decide (x = t)).
Qed.

Lemma depsWithin_subset t d : d ∈ depsWithin configs agentTypes t → d ∈ agentTypes.
Proof. unfold depsWithin. rewrite list_elem_of_filter. tauto. Qed.

(** The second loop over a duplicate-free list [l] of tags, on a graph [g]
    whose adjacency table has a key for every tag. *)
Lemma buildGraph_from (g : gmap string Z * gmap string (list string)) l :
  NoDup l →
  (∀ c, c ∈ agentTypes → is_Some (g.2 !! c)) →
  let g' :=
    foldl (λ g type,
             let deps := depsWithin configs agentTypes type in
             (<[type := Z.of_nat (length deps)]> g.1,
              foldl (pushDependent type) g.2 deps))
          g l in
  (∀ t, g'.1 !! t
        = if decide (t ∈ l)
          then Some (Z.of_nat (length (depsWithin configs agentTypes t)))
          else g.1 !! t)
  ∧ (∀ c t, occurrences t (default [] (g'.2 !! c))
            = (occurrences t (default [] (g.2 !! c))
               + if decide (t ∈ l)
                 then occurrences c (depsWithin configs agentTypes t)
                 else 0)%nat).
Proof.
  revert g. induction l as [|x l IH]; intros g Hnd Hkeys; cbn zeta; cbn [foldl].
  - split; intros;
      (destruct (decide (t ∈ [])) as [Hin|_]; [by apply elem_of_nil in Hin|]);
      [done|lia].
  - apply NoDup_cons in Hnd as [Hx Hnd].
    set (g1 := (<[x := Z.of_nat (length (depsWithin configs agentTypes x))]> g.1,
                foldl (pushDependent x) g.2 (depsWithin configs agentTypes x))).
    destruct (IH g1 Hnd) as [H1 H2].
    { intros c Hc. simpl. apply pushDependent_keys. by apply Hkeys. }
    cbn zeta in H1, H2. fold g1. split.
    + intros t. rewrite H1. subst g1. cbn [fst snd].
      rewrite decide_elem_of_cons.
      destruct (decide (x = t)) as [->|Hne], (decide (t ∈ l)); try done.
      * by rewrite lookup_insert_eq.
      * by rewrite lookup_insert_ne.
    + intros c t. rewrite H2. subst g1. cbn [fst snd].
      rewrite pushDependent_all
        by (intros Hc; apply Hkeys; by eapply depsWithin_subset).
      rewrite occurrences_app, occurrences_replicate.
      rewrite decide_elem_of_cons.
      destruct (decide (x = t)) as [->|Hne], (decide (t ∈ l)); try done; lia.
Qed.

(** The built graph: in-degrees count the dependencies within the subset,
    and [type] sits on the adjacency list of [c] once per occurrence of
    [c] among those dependencies. *)
Lemma buildGraph_spec :
  NoDup agentTypes →
  let g := buildGraph configs agentTypes (initialize agentTypes) in
  (∀ t, t ∈ agentTypes →
        g.1 !! t = Some (Z.of_nat (length (depsWithin configs agentTypes t))))
  ∧ (∀ c t, t ∈ agentTypes →
            occurrences t (default [] (g.2 !! c))
            = occurrences c (depsWithin configs agentTypes t)).
Proof.
  intros Hnd.
  destruct (buildGraph_from (initialize agentTypes) agentTypes Hnd) as [H1 H2].
  { intros c Hc. unfold initialize.
    destruct (initialize_from (∅, ∅) agentTypes c) as [_ ->].
    by rewrite decide_True. }
  split.
  - intros t Ht. unfold buildGraph. rewrite H1. by rewrite decide_True.
  - intros c t Ht. unfold buildGraph. rewrite H2. rewrite decide_True by done.
    unfold initialize.
    destruct (initialize_from (∅, ∅) agentTypes c) as [_ ->].
    destruct (decide (c ∈ agentTypes)); simpl; [done|].
    by rewrite lookup_empty.
Qed.

(** *** Releasing a level *)

Lemma decrement_all l inDegree t :
  foldl decrement inDegree l !! t
  = (λ n, n - Z.of_nat (occurrences t l)) <$> inDegree !! t.
Proof.
  revert inDegree. induction l as [|x l IH]; intros inDegree; simpl.
  - change (occurrences t []) with 0%nat.
    destruct (inDegree !! t); simpl; [f_equal; lia|done].
  - rewrite IH, occurrences_cons. unfold decrement.
    destruct (decide (x = t)) as [->|Hne].
    + rewrite lookup_alter_eq. destruct (inDegree !! t); simpl; [f_equal; lia|done].
    + rewrite lookup_alter_ne by done.
      destruct (inDegree !! t); simpl; [f_equal; lia|done].
Qed.

Lemma releaseLevel_lookup adjacency inDegree level t :
  releaseLevel adjacency inDegree level !! t
  = (λ n, n - Z.of_nat
              (sum_list_with
                 (λ c, occurrences t (default [] (adjacency !! c))) level))
    <$> inDegree !! t.
Proof.
  unfold releaseLevel. revert inDegree.
  induction level as [|c level IH]; intros inDegree; simpl.
  - destruct (inDegree !! t); simpl; [f_equal; lia|done].
  - rewrite IH, decrement_all.
    destruct (inDegree !! t); simpl; [f_equal; lia|done].
Qed.


(** *** The loop *)

(** The graph built for a duplicate-free [agentTypes]. *)
Hypothesis agentTypes_NoDup : NoDup agentTypes.

Let adjacency0 := (buildGraph configs agentTypes (initialize agentTypes)).2.

Local Abbreviation counted := (countedWithin configs agentTypes).
Local Abbreviation ordered := (orderedWithin configs agentTypes).

Lemma counted_initially :
  counted (buildGraph configs agentTypes (initialize agentTypes)).1 agentTypes.
Proof.
  intros t Ht. by apply (proj1 (buildGraph_spec agentTypes_NoDup)).
Qed.

Lemma counted_zero inDegree remaining t :
  counted inDegree remaining → t ∈ agentTypes →
  inDegree !! t = Some 0 ↔
  ∀ d, d ∈ getAgentDependencies configs t → d ∉ remaining.
Proof.
  intros Hc Ht. rewrite (Hc t Ht). split.
  - intros Hz d Hd Hr. injection Hz as Hz.
    assert (length (filter (λ d, d ∈ remaining)
                      (getAgentDependencies configs t)) = 0%nat) as Hl by lia.
    apply nil_length_inv in Hl.
    by eapply (filter_nil_not_elem_of _ _ d Hl).
  - intros Hno. rewrite filter_none; [done|]. intros d Hd. by apply Hno.
Qed.

Lemma counted_released inDegree remaining :
  counted inDegree remaining →
  NoDup remaining →
  (∀ t, t ∈ remaining → t ∈ agentTypes) →
  let currentLevel := filter (λ type, inDegree !! type = Some 0) remaining in
  counted (releaseLevel adjacency0 inDegree currentLevel)
          (filter (λ type, type ∉ currentLevel) remaining).
Proof.
  intros Hc Hnd Hsub currentLevel t Ht.
  rewrite releaseLevel_lookup, (Hc t Ht). simpl. f_equal.
  assert (Hsum :
    sum_list_with (λ c, occurrences t (default [] (adjacency0 !! c))) currentLevel
    = length (filter (λ d, d ∈ currentLevel) (getAgentDependencies configs t))).
  { rewrite (sum_list_with_agree _
               (λ c, occurrences c (depsWithin configs agentTypes t)))
      by (intros c _; apply (proj2 (buildGraph_spec agentTypes_NoDup) c t Ht)).
    rewrite sum_occurrences by (by apply NoDup_filter).
    unfold depsWithin. rewrite list_filter_filter. f_equal.
    apply filter_ext_in. intros d _. split; [tauto|].
    intros Hd. split; [done|]. apply Hsub.
    apply list_elem_of_filter in Hd. tauto. }
  rewrite Hsum.
  rewrite (length_filter_split
             (λ d, d ∈ remaining) (λ d, d ∈ currentLevel)
             (λ d, d ∈ filter (λ type, type ∉ currentLevel) remaining)).
  - lia.
  - intros d. rewrite list_elem_of_filter. subst currentLevel.
    rewrite list_elem_of_filter.
    destruct (decide (inDegree !! d = Some 0)); tauto.
  - intros d Hd1 Hd2. apply list_elem_of_filter in Hd2. tauto.
Qed.

Lemma inLevel_snoc (levels : list (list string)) level i t :
  inLevel (levels ++ [level]) i t
  ↔ inLevel levels i t ∨ (i = length levels ∧ t ∈ level).
Proof.
  unfold inLevel. split.
  - intros (lv & Hlv & Ht). apply lookup_snoc_Some in Hlv as [[_ Hlv]|[-> ->]].
    + left. by exists lv.
    + by right.
  - intros [(lv & Hlv & Ht)|[-> Ht]].
    + exists lv. split; [|done]. by apply lookup_app_l_Some.
    + exists level. split; [|done]. apply lookup_snoc_Some. by right.
Qed.

Lemma inLevel_concat (levels : list (list string)) t :
  t ∈ concat levels ↔ ∃ i, inLevel levels i t.
Proof.
  unfold inLevel. induction levels as [|lv levels IH]; simpl.
  - split; [by intros ?%elem_of_nil|]. by intros (i & l & Hl & _).
  - rewrite elem_of_app, IH. split.
    + intros [Ht|(i & l & Hl & Ht)].
      * exists 0%nat, lv. done.
      * exists (S i), l. done.
    + intros ([|i] & l & Hl & Ht).
      * left. by injection Hl as ->.
      * right. by exists i, l.
Qed.

(** One iteration takes the ready tags out of [remaining]. *)
Lemma level_and_rest inDegree remaining :
  let currentLevel := filter (λ type, inDegree !! type = Some 0) remaining in
  currentLevel ++ filter (λ type, type ∉ currentLevel) remaining ≡ₚ remaining.
Proof.
  intros currentLevel.
  rewrite (filter_ext_in (λ type, type ∉ currentLevel)
             (λ type, ¬ inDegree !! type = Some 0) remaining).
  - apply filter_app_complement.
  - intros t Ht. subst currentLevel. rewrite list_elem_of_filter. tauto.
Qed.

Lemma rest_shorter inDegree (remaining : list string) :
  let currentLevel := filter (λ type, inDegree !! type = Some 0) remaining in
  currentLevel ≠ [] →
  (length (filter (λ type, type ∉ currentLevel) remaining) < length remaining)%nat.
Proof.
  intros currentLevel Hne.
  destruct currentLevel as [|t rest] eqn:Hcl; [done|].
  assert (Ht : t ∈ currentLevel) by (rewrite Hcl; by left).
  apply (length_filter_lt _ _ t).
  - subst currentLevel. apply list_elem_of_filter in Ht. tauto.
  - rewrite <- Hcl. tauto.
Qed.

(** The loop ends, with levels or with the circular-dependency error. *)
Lemma kahn_ends fuel :
  ∀ adjacency inDegree remaining levels,
    (length remaining ≤ fuel)%nat →
    (∃ result, kahn fuel adjacency inDegree remaining levels
               = Some (Returned result))
    ∨ kahn fuel adjacency inDegree remaining levels
      = Some (Threw CircularDependency).
Proof.
  induction fuel as [|fuel IH]; intros adjacency inDegree remaining levels Hlen.
  - destruct remaining; [|simpl in Hlen; lia]. left. by eexists.
  - destruct remaining as [|r remaining]; [left; by eexists|].
    cbn [kahn].
    pose proof (rest_shorter inDegree (r :: remaining)) as Hshort.
    cbn zeta in Hshort.
    destruct (filter (λ type, inDegree !! type = Some 0) (r :: remaining))
      as [|t level] eqn:Hcl; [by right|].
    apply IH. specialize (Hshort ltac:(done)).
    cbn [length] in Hshort, Hlen. lia.
Qed.

(** What the levels returned by the loop look like, given what the
    levels so far look like. *)
Lemma kahn_levels fuel :
  ∀ inDegree remaining levels result,
    NoDup remaining →
    (∀ t, t ∈ remaining → t ∈ agentTypes) →
    counted inDegree remaining →
    concat levels ++ remaining ≡ₚ agentTypes →
    ordered levels →
    kahn fuel adjacency0 inDegree remaining levels = Some (Returned result) →
    concat result ≡ₚ agentTypes ∧ ordered result.
Proof.
  induction fuel as [|fuel IH];
    intros inDegree remaining levels result Hnd Hsub Hc Hperm Hord Hrun.
  - destruct remaining; [|discriminate]. injection Hrun as <-.
    by rewrite app_nil_r in Hperm.
  - destruct remaining as [|r remaining].
    { injection Hrun as <-. by rewrite app_nil_r in Hperm. }
    cbn [kahn] in Hrun.
    pose proof (counted_released _ _ Hc Hnd Hsub) as Hc'.
    pose proof (level_and_rest inDegree (r :: remaining)) as Hsplit.
    cbn zeta in Hc', Hsplit.
    destruct (filter (λ type, inDegree !! type = Some 0) (r :: remaining))
      as [|t level] eqn:Hcl; [discriminate|].
    eapply IH in Hrun; [done|..].
    + by apply NoDup_filter.
    + intros x Hx. apply list_elem_of_filter in Hx. apply Hsub. tauto.
    + exact Hc'.
    + rewrite concat_app. simpl. rewrite app_nil_r, <- app_assoc.
      by rewrite Hsplit.
    + intros i x d Hx Hd Hdep.
      apply inLevel_snoc in Hx as [Hx|[-> Hx]].
      * destruct (Hord i x d Hx Hd Hdep) as (j & Hj & Hjd).
        exists j. split; [done|]. apply inLevel_snoc. by left.
      * rewrite <- Hcl in Hx. apply list_elem_of_filter in Hx as [Hz Hxr].
        pose proof (proj1 (counted_zero _ _ _ Hc (Hsub _ Hxr)) Hz d Hdep)
          as Hfree.
        assert (Hplaced : d ∈ concat levels).
        { rewrite <- Hperm in Hd. apply elem_of_app in Hd as [?|?]; done. }
        apply inLevel_concat in Hplaced as (j & Hj).
        exists j. split; [|apply inLevel_snoc; by left].
        destruct Hj as (lv & Hlv & _). by eapply lookup_lt_Some.
Qed.

(** Levels that hold every tag once and are ordered rule out a cycle. *)
Lemma ordered_acyclic (levels : list (list string)) :
  concat levels ≡ₚ agentTypes → ordered levels →
  acyclicWithin configs agentTypes.
Proof.
  intros Hperm Hord.
  assert (Hdown : ∀ t d, tc (dependsWithin configs agentTypes) t d →
            ∀ i, inLevel levels i t → ∃ j, (j < i)%nat ∧ inLevel levels j d).
  { induction 1 as [t d (_ & Hd & Hdep)|t m d (_ & Hm & Hdep) _ IH]; intros i Hi.
    - by eapply Hord.
    - destruct (Hord i t m Hi Hm Hdep) as (j & Hj & Hjm).
      destruct (IH j Hjm) as (k & Hk & Hkd). exists k. split; [lia|done]. }
  intros t Hcycle.
  assert (Ht : t ∈ agentTypes).
  { inversion Hcycle as [? ? [Hin _]|? ? ? [Hin _] _]; by subst. }
  rewrite <- Hperm in Ht. apply inLevel_concat in Ht as (i & Hi).
  revert Hi. induction (lt_wf i) as [i _ IH]. intros Hi.
  destruct (Hdown t t Hcycle i Hi) as (j & Hj & Hjt). by eapply IH.
Qed.

(** Without a cycle, some remaining tag has no remaining dependency. *)
Lemma some_tag_ready inDegree remaining :
  acyclicWithin configs agentTypes →
  counted inDegree remaining →
  NoDup remaining →
  (∀ t, t ∈ remaining → t ∈ agentTypes) →
  remaining ≠ [] →
  filter (λ type, inDegree !! type = Some 0) remaining ≠ [].
Proof.
  intros Hacyclic Hc Hnd Hsub Hne Hnone.
  set (next := λ t, default t (head (filter (λ d, d ∈ remaining)
                                       (getAgentDependencies configs t)))).
  assert (Hnext : ∀ t, t ∈ remaining →
            next t ∈ remaining ∧ dependsWithin configs agentTypes t (next t)).
  { intros t Ht.
    assert (Hnz : inDegree !! t ≠ Some 0).
    { intros Hz. by eapply (filter_nil_not_elem_of _ _ t Hnone). }
    rewrite (Hc t (Hsub t Ht)) in Hnz.
    unfold next.
    destruct (filter (λ d, d ∈ remaining) (getAgentDependencies configs t))
      as [|d ds] eqn:Hf; [done|]. simpl.
    assert (Hd : d ∈ filter (λ d, d ∈ remaining) (getAgentDependencies configs t))
      by (rewrite Hf; by left).
    apply list_elem_of_filter in Hd as [Hdr Hdep].
    split; [done|]. split; [by apply Hsub|]. split; [by apply Hsub|done]. }
  destruct remaining as [|r0 remaining'] eqn:Hr; [done|]. rewrite <- Hr in *.
  assert (Hr0 : r0 ∈ remaining) by (rewrite Hr; by left).
  set (walk := λ k, Nat.iter k next r0).
  assert (Hwalk : ∀ k, walk k ∈ remaining).
  { induction k as [|k IH]; [done|]. simpl. by apply Hnext. }
  assert (Hpath : ∀ n i, tc (dependsWithin configs agentTypes)
                           (walk i) (walk (S n + i)%nat)).
  { induction n as [|n IH]; intros i.
    - apply tc_once. change (walk (1 + i)%nat) with (next (walk i)).
      apply Hnext, Hwalk.
    - eapply tc_r; [apply IH|].
      change (walk (S (S n) + i)%nat) with (next (walk (S n + i)%nat)).
      apply Hnext, Hwalk. }
  assert (Hinj : NoDup (walk <$> seq 0 (S (length remaining)))).
  { apply NoDup_fmap_2_strong; [|apply NoDup_seq].
    intros i j _ _ Hij.
    destruct (Nat.lt_trichotomy i j) as [Hlt|[?|Hlt]]; [|done|]; exfalso.
    - apply (Hacyclic (walk i)). rewrite Hij at 2.
      replace j with (S (j - S i) + i)%nat by lia. apply Hpath.
    - apply (Hacyclic (walk j)). rewrite <- Hij at 2.
      replace i with (S (i - S j) + j)%nat by lia. apply Hpath. }
  apply NoDup_submseteq with (k := remaining) in Hinj.
  - apply submseteq_length in Hinj.
    rewrite length_fmap, length_seq in Hinj. lia.
  - intros x (k & -> & _)%list_elem_of_fmap. apply Hwalk.
Qed.

(** Without a cycle the loop returns levels. *)
Lemma kahn_returns fuel :
  ∀ inDegree remaining levels,
    acyclicWithin configs agentTypes →
    NoDup remaining →
    (∀ t, t ∈ remaining → t ∈ agentTypes) →
    counted inDegree remaining →
    (length remaining ≤ fuel)%nat →
    ∃ result,
      kahn fuel adjacency0 inDegree remaining levels = Some (Returned result).
Proof.
  induction fuel as [|fuel IH];
    intros inDegree remaining levels Hacyclic Hnd Hsub Hc Hlen.
  - destruct remaining; [|simpl in Hlen; lia]. by eexists.
  - destruct remaining as [|r remaining]; [by eexists|].
    cbn [kahn].
    pose proof (some_tag_ready _ _ Hacyclic Hc Hnd Hsub ltac:(done)) as Hready.
    pose proof (counted_released _ _ Hc Hnd Hsub) as Hc'.
    pose proof (rest_shorter inDegree (r :: remaining)) as Hshort.
    cbn zeta in Hc', Hshort.
    destruct (filter (λ type, inDegree !! type = Some 0) (r :: remaining))
      as [|t level] eqn:Hcl; [done|].
    apply IH; [done| | |exact Hc'|].
    + by apply NoDup_filter.
    + intros x Hx. apply list_elem_of_filter in Hx. apply Hsub. tauto.
    + specialize (Hshort ltac:(done)). cbn [length] in Hshort, Hlen. lia.
Qed.

End Graph.

(** C5: on a list of tags without duplicates (a subset), if the
    dependency relation restricted to the subset has no cycle,
    [topologicalSortAgents] returns levels that hold every tag of the
    subset exactly once and in which every dependency of a tag that lies
    within the subset sits in a strictly earlier level (dependencies
    outside the subset are not looked at); if the subset contains a cycle,
    it throws the circular-dependency error. *)
Theorem topologicalSortAgents_levels configs agentTypes :
  NoDup agentTypes →
  (acyclicWithin configs agentTypes →
   ∃ levels,
     TopoSort.topologicalSortAgents configs agentTypes = Some (Returned levels)
     ∧ concat levels ≡ₚ agentTypes
     ∧ ∀ i t d,
         inLevel levels i t → d ∈ agentTypes →
         d ∈ getAgentDependencies configs t →
         ∃ j, (j < i)%nat ∧ inLevel levels j d)
  ∧ ((∃ t, tc (dependsWithin configs agentTypes) t t) →
     TopoSort.topologicalSortAgents configs agentTypes
     = Some (Threw CircularDependency)).
Proof.
  intros Hnd.
  assert (Hsound : ∀ levels,
    TopoSort.topologicalSortAgents configs agentTypes = Some (Returned levels) →
    concat levels ≡ₚ agentTypes ∧ orderedWithin configs agentTypes levels).
  { intros levels Hrun. unfold TopoSort.topologicalSortAgents in Hrun.
    eapply (kahn_levels configs agentTypes Hnd) in Hrun; [done|done|done| | |].
    - by apply counted_initially.
    - done.
    - intros i t d (lv & Hlv & _). by rewrite lookup_nil in Hlv. }
  split.
  - intros Hacyclic.
    destruct (kahn_returns configs agentTypes Hnd (length agentTypes)
                (TopoSort.buildGraph configs agentTypes
                   (TopoSort.initialize agentTypes)).1
                agentTypes [] Hacyclic Hnd ltac:(done)
                (counted_initially configs agentTypes Hnd) ltac:(done))
      as [levels Hrun].
    exists levels. split; [exact Hrun|]. by apply Hsound.
  - intros [t Hcycle].
    destruct (kahn_ends (length agentTypes)
                (TopoSort.buildGraph configs agentTypes
                   (TopoSort.initialize agentTypes)).2
                (TopoSort.buildGraph configs agentTypes
                   (TopoSort.initialize agentTypes)).1
                agentTypes [] ltac:(done)) as [[levels Hrun]|Hrun]; [|exact Hrun].
    exfalso. destruct (Hsound levels Hrun) as [Hperm Hord].
    by apply (ordered_acyclic configs agentTypes levels Hperm Hord t).
Qed.

Lemma topologicalSortAgents_levels_witness :
  (∃ levels,
     TopoSort.topologicalSortAgents AGENT_CONFIGS ["ARCHITECT"; "PM"]
     = Some (Returned levels)
     ∧ concat levels ≡ₚ ["ARCHITECT"; "PM"]
     ∧ ∀ i t d,
         inLevel levels i t → d ∈ ["ARCHITECT"; "PM"] →
         d ∈ getAgentDependencies AGENT_CONFIGS t →
         ∃ j, (j < i)%nat ∧ inLevel levels j d)
  ∧ TopoSort.topologicalSortAgents Sample.cyclic ["A"; "B"]
    = Some (Threw CircularDependency).
Proof.
  split.
  - apply (topologicalSortAgents_levels AGENT_CONFIGS ["ARCHITECT"; "PM"]).
    + apply NoDup_cons. split; [|apply NoDup_singleton].
      intros Hin. apply list_elem_of_singleton in Hin. discriminate.
    + intros t Hcycle.
      assert (Hedge : ∀ x y, dependsWithin AGENT_CONFIGS ["ARCHITECT"; "PM"] x y →
                x = "ARCHITECT" ∧ y = "PM").
      { intros x y (Hx & Hy & Hdep).
        apply elem_of_cons in Hx as [->|Hx].
        - vm_compute in Hdep. apply list_elem_of_singleton in Hdep. done.
        - apply list_elem_of_singleton in Hx as ->.
          vm_compute in Hdep. by apply elem_of_nil in Hdep. }
      assert (Hpath : ∀ x y, tc (dependsWithin AGENT_CONFIGS ["ARCHITECT"; "PM"]) x y →
                x = "ARCHITECT" ∧ y = "PM").
      { induction 1 as [x y H|x y z H _ IH]; [by apply Hedge|].
        apply Hedge in H as [-> ->]. destruct IH as [IH _]. discriminate. }
      apply Hpath in Hcycle as [-> Hcycle]. discriminate.
  - apply (topologicalSortAgents_levels Sample.cyclic ["A"; "B"]).
    + apply NoDup_cons. split; [|apply NoDup_singleton].
      intros Hin. apply list_elem_of_singleton in Hin. discriminate.
    + exists "A". apply tc_l with "B".
      * split; [by left|]. split; [by right; left|]. vm_compute. by left.
      * apply tc_once.
        split; [by right; left|]. split; [by left|]. vm_compute. by left.
Defined.

(** The subset has to be free of duplicates: a tag listed twice is pushed
    twice on the adjacency lists of its dependencies, its in-degree drops
    below zero and the loop gives up. *)
Example duplicated_tag_rejected :
  TopoSort.topologicalSortAgents AGENT_CONFIGS ["ARCHITECT"; "ARCHITECT"; "PM"]
  = Some (Threw CircularDependency).
Proof. reflexivity. Qed.

(** ** Session store *)

Section SessionStore.
Implicit Types (store : gmap nat Session.t) (session : Session.t).

Lemma sliceLast_short {A : Type} (n : nat) (l : list A) :
  (length l ≤ n)%nat → SessionManager.sliceLast n l = l.
Proof.
  intros Hlen. unfold SessionManager.sliceLast.
  replace (length l - n)%nat with 0%nat by lia. reflexivity.
Qed.

Lemma sliceLast_length {A : Type} (n : nat) (l : list A) :
  length (SessionManager.sliceLast n l) = (length l `min` n)%nat.
Proof. unfold SessionManager.sliceLast. rewrite length_drop. lia. Qed.

Lemma sliceLast_app {A : Type} (n : nat) (l more : list A) :
  SessionManager.sliceLast n (SessionManager.sliceLast n l ++ more)
  = SessionManager.sliceLast n (l ++ more).
Proof.
  destruct (decide (length l ≤ n)%nat) as [Hle|Hgt].
  - by rewrite (sliceLast_short n l).
  - unfold SessionManager.sliceLast.
    rewrite !length_app, length_drop.
    rewrite <- (drop_app_le l more (length l - n)) by lia.
    rewrite drop_drop. f_equal. lia.
Qed.

(** One [addLog] call: the entry is appended and the list cut back to its
    last 1000 entries. *)
Lemma addLog_lookup store sessionId session entry :
  store !! sessionId = Some session →
  SessionManager.addLog sessionId entry store !! sessionId
  = Some (Session.with_logs
            (SessionManager.sliceLast 1000 (Session.logs session ++ [entry]))
            session).
Proof.
  intros Hs. unfold SessionManager.addLog, SessionManager.getSession.
  rewrite Hs, lookup_insert_eq. f_equal. f_equal.
  destruct (1000 <? length (Session.logs session ++ [entry]))%nat eqn:Hlt; [done|].
  apply Nat.ltb_ge in Hlt. by rewrite sliceLast_short.
Qed.

Lemma addLogs_lookup store sessionId session entries :
  store !! sessionId = Some session →
  entries ≠ [] →
  addLogs sessionId entries store !! sessionId
  = Some (Session.with_logs
            (SessionManager.sliceLast 1000 (Session.logs session ++ entries))
            session).
Proof.
  intros Hs Hne. revert store session Hs.
  induction entries as [|e1 entries IH]; [done|]. clear Hne.
  intros store session Hs.
  change (addLogs sessionId (e1 :: entries) store)
    with (addLogs sessionId entries (SessionManager.addLog sessionId e1 store)).
  destruct (decide (entries = [])) as [->|Hne].
  - by apply addLog_lookup.
  - rewrite (IH Hne _ _ (addLog_lookup _ _ _ e1 Hs)).
    f_equal. unfold Session.with_logs; simpl. f_equal.
    rewrite sliceLast_app. by rewrite <- app_assoc.
Qed.

(** C8: over any sequence of [addLog] calls on a stored session (whose
    list starts within the cap, as the empty list of [createSession] does,
    or which receives at least one entry), the log list stays within 1000
    entries and is exactly the last 1000 of the entries so far, in
    insertion order. *)
Theorem addLog_keeps_last_1000 store sessionId session entries :
  store !! sessionId = Some session →
  (length (Session.logs session) ≤ 1000)%nat ∨ entries ≠ [] →
  ∃ session',
    addLogs sessionId entries store !! sessionId = Some session'
    ∧ (length (Session.logs session') ≤ 1000)%nat
    ∧ Session.logs session'
      = drop (length (Session.logs session ++ entries) - 1000)
             (Session.logs session ++ entries).
Proof.
  intros Hs Hor.
  destruct (decide (entries = [])) as [->|Hne].
  - destruct Hor as [Hlen|]; [|done]. exists session. simpl.
    split; [done|]. split; [done|].
    rewrite app_nil_r. replace (length (Session.logs session) - 1000)%nat
      with 0%nat by lia. done.
  - eexists. split; [by apply addLogs_lookup|]. simpl. split; [|done].
    rewrite sliceLast_length. lia.
Qed.

Lemma addLog_keeps_last_1000_witness :
  ∃ session',
    addLogs 0 [stage_started 0 "Quality Review"] {[0%nat := Sample.session]} !! 0%nat
    = Some session'
    ∧ (length (Session.logs session') ≤ 1000)%nat
    ∧ Session.logs session'
      = drop (length (Session.logs Sample.session ++ [stage_started 0 "Quality Review"]) - 1000)
             (Session.logs Sample.session ++ [stage_started 0 "Quality Review"]).
Proof.
  apply (addLog_keeps_last_1000 {[0%nat := Sample.session]} 0 Sample.session
           [stage_started 0 "Quality Review"]).
  - reflexivity.
  - left. simpl. lia.
Defined.

(** C6: [isResumable] holds exactly of the stored sessions that are failed
    or paused and have a checkpoint or a completed agent; it is false of a
    completed session, false of a failed session with neither checkpoints
    nor completed agents, and true of a session with a checkpoint once
    [markFailed] has been called on it. *)
Theorem isResumable_iff store sessionId session :
  store !! sessionId = Some session →
  (SessionManager.isResumable store sessionId = true
   ↔ (Session.status session = SessionStatus.FAILED
      ∨ Session.status session = SessionStatus.PAUSED)
     ∧ (Session.checkpoints session ≠ []
        ∨ Session.completedAgents session ≠ []))
  ∧ (Session.status session = SessionStatus.COMPLETED →
     SessionManager.isResumable store sessionId = false)
  ∧ (Session.status session = SessionStatus.FAILED →
     Session.checkpoints session = [] →
     Session.completedAgents session = [] →
     SessionManager.isResumable store sessionId = false)
  ∧ (∀ error store',
       SessionManager.markFailed sessionId error store = Returned store' →
       Session.checkpoints session ≠ [] →
       SessionManager.isResumable store' sessionId = true).
Proof.
  intros Hs.
  assert (Hlen : ∀ {A} (l : list A), (0 <? length l)%nat = true ↔ l ≠ []).
  { intros A l. rewrite Nat.ltb_lt. destruct l; simpl; split; (done || lia). }
  split; [|split; [|split]].
  - unfold SessionManager.isResumable, SessionManager.getSession. rewrite Hs.
    rewrite andb_true_iff, !orb_true_iff, !bool_decide_eq_true, !Hlen. done.
  - intros Hc. unfold SessionManager.isResumable, SessionManager.getSession.
    rewrite Hs, Hc. done.
  - intros _ Hcp Hca.
    unfold SessionManager.isResumable, SessionManager.getSession.
    rewrite Hs, Hcp, Hca. simpl. apply andb_false_r.
  - intros error store' Hmark Hcp.
    unfold SessionManager.markFailed, SessionManager.updateStatus,
      SessionManager.getSession in Hmark.
    rewrite Hs in Hmark. injection Hmark as <-.
    unfold SessionManager.isResumable, SessionManager.getSession.
    rewrite lookup_insert_eq. simpl.
    apply Hlen in Hcp. by rewrite Hcp.
Qed.

Lemma isResumable_iff_witness :
  (SessionManager.isResumable {[0%nat := Sample.failedSession]} 0 = true
   ↔ (Session.status Sample.failedSession = SessionStatus.FAILED
      ∨ Session.status Sample.failedSession = SessionStatus.PAUSED)
     ∧ (Session.checkpoints Sample.failedSession ≠ []
        ∨ Session.completedAgents Sample.failedSession ≠ []))
  ∧ (Session.status Sample.failedSession = SessionStatus.COMPLETED →
     SessionManager.isResumable {[0%nat := Sample.failedSession]} 0 = false)
  ∧ (Session.status Sample.failedSession = SessionStatus.FAILED →
     Session.checkpoints Sample.failedSession = [] →
     Session.completedAgents Sample.failedSession = [] →
     SessionManager.isResumable {[0%nat := Sample.failedSession]} 0 = false)
  ∧ (∀ error store',
       SessionManager.markFailed 0 error {[0%nat := Sample.failedSession]}
       = Returned store' →
       Session.checkpoints Sample.failedSession ≠ [] →
       SessionManager.isResumable store' 0 = true).
Proof.
  apply (isResumable_iff {[0%nat := Sample.failedSession]} 0 Sample.failedSession).
  reflexivity.
Defined.

(** C9: a failed session without checkpoints but with a completed agent is
    reported resumable, while [restore], and with it [resumeWorkflow],
    throws the no-checkpoints error. *)
Theorem resumable_yet_restore_throws store sessionId session :
  store !! sessionId = Some session →
  Session.status session = SessionStatus.FAILED →
  Session.checkpoints session = [] →
  Session.completedAgents session ≠ [] →
  SessionManager.isResumable store sessionId = true
  ∧ SessionManager.restore sessionId store = Threw NoCheckpoints
  ∧ ∀ configs workflows selector world uuid,
      WorkflowEngine.resumeWorkflow configs workflows selector world
        sessionId store uuid
      = WorkflowEngine.Rejected NoCheckpoints store.
Proof.
  intros Hs Hst Hcp Hca.
  assert (Hr : SessionManager.restore sessionId store = Threw NoCheckpoints).
  { unfold SessionManager.restore. rewrite Hs, Hst, Hcp. done. }
  split; [|split; [done|]].
  - unfold SessionManager.isResumable, SessionManager.getSession.
    rewrite Hs, Hst, Hcp. simpl.
    destruct (Session.completedAgents session); done.
  - intros. unfold WorkflowEngine.resumeWorkflow, WorkflowEngine.resumeRun.
    by rewrite Hr.
Qed.

Lemma resumable_yet_restore_throws_witness :
  SessionManager.isResumable {[0%nat := Sample.failedSession]} 0 = true
  ∧ SessionManager.restore 0 {[0%nat := Sample.failedSession]} = Threw NoCheckpoints
  ∧ ∀ configs workflows selector world uuid,
      WorkflowEngine.resumeWorkflow configs workflows selector world
        0 {[0%nat := Sample.failedSession]} uuid
      = WorkflowEngine.Rejected NoCheckpoints {[0%nat := Sample.failedSession]}.
Proof.
  apply (resumable_yet_restore_throws {[0%nat := Sample.failedSession]} 0
           Sample.failedSession); [reflexivity|reflexivity|reflexivity|].
  simpl. discriminate.
Defined.

(** Every mutator rewrites only the session it is aimed at, and leaves
    the context of that one as it was. *)
Lemma applyCall_context store c k :
  leavesContext c →
  Session.context <$> (applyCall store c !! k)
  = Session.context <$> (store !! k).
Proof.
  intros Hc.
  destruct c as [sid status updates|cid sid data|sid entry|sid rec|sid]; simpl.
  - unfold SessionManager.updateStatus, SessionManager.getSession.
    destruct (store !! sid) as [s|] eqn:Hs; [|done].
    destruct (decide (sid = k)) as [->|Hne].
    + rewrite lookup_insert_eq, Hs. simpl. simpl in Hc. by rewrite Hc.
    + by rewrite lookup_insert_ne.
  - unfold SessionManager.checkpoint, SessionManager.getSession.
    destruct (store !! sid) as [s|] eqn:Hs; [|done].
    destruct (decide (sid = k)) as [->|Hne].
    + by rewrite lookup_insert_eq, Hs.
    + by rewrite lookup_insert_ne.
  - unfold SessionManager.addLog, SessionManager.getSession.
    destruct (store !! sid) as [s|] eqn:Hs; [|done].
    destruct (decide (sid = k)) as [->|Hne].
    + by rewrite lookup_insert_eq, Hs.
    + by rewrite lookup_insert_ne.
  - unfold SessionManager.recordAgentExecution, SessionManager.getSession.
    destruct (store !! sid) as [s|] eqn:Hs; [|done].
    destruct (decide (sid = k)) as [->|Hne].
    + by rewrite lookup_insert_eq, Hs.
    + by rewrite lookup_insert_ne.
  - unfold SessionManager.restore.
    destruct (store !! sid) as [s|] eqn:Hs; [|done].
    destruct (bool_decide _); [done|].
    destruct (_ && _); [done|].
    destruct (decide (sid = k)) as [->|Hne].
    + by rewrite lookup_insert_eq, Hs.
    + by rewrite lookup_insert_ne.
Qed.

(** C10: after [createSession], whatever sequence of [updateStatus] (with
    patches that carry no [context] key), [checkpoint], [addLog],
    [recordAgentExecution] and [restore] calls follows, the stored
    session's [context] is the one given at creation. *)
Theorem session_context_is_creation_context
    store sessionId workflowId context options calls :
  Forall leavesContext calls →
  Session.context
  <$> (foldl applyCall
         (SessionManager.createSession sessionId workflowId context options store).2
         calls !! sessionId)
  = Some (default ∅ context).
Proof.
  intros Hcalls.
  assert (Hgen : ∀ store0,
    Session.context <$> (foldl applyCall store0 calls !! sessionId)
    = Session.context <$> (store0 !! sessionId)).
  { induction Hcalls as [|c calls Hc _ IH]; [done|].
    intros store0. simpl. rewrite IH. by apply applyCall_context. }
  rewrite Hgen. simpl. by rewrite lookup_insert_eq.
Qed.

Lemma session_context_is_creation_context_witness :
  Session.context
  <$> (foldl applyCall
         (SessionManager.createSession 0 "CODE_REVIEW" (Some Sample.context)
            (mkRunOptions None) ∅).2
         [CallAddLog 0 (stage_started 0 "Quality Review");
          CallCheckpoint 1 0 Sample.checkpointData;
          CallUpdateStatus 0 SessionStatus.FAILED (errorUpdate (External "agent failed"));
          CallRestore 0] !! 0%nat)
  = Some (default ∅ (Some Sample.context)).
Proof.
  apply (session_context_is_creation_context ∅ 0 "CODE_REVIEW"
           (Some Sample.context) (mkRunOptions None)).
  repeat constructor.
Defined.

(** C4, amended: for a stored session that is not completed and whose
    workflow is registered, [checkpoint] with stage index 2 sets the
    recorded current stage to 3, [restore] then returns that checkpoint as
    the latest one, and the run [resumeWorkflow] makes from it starts at
    stage index 3. *)
Theorem checkpoint_then_resume
    workflows store sessionId session checkpointId data uuid workflowDef :
  store !! sessionId = Some session →
  Session.status session ≠ SessionStatus.COMPLETED →
  workflows !! Session.workflowId session = Some workflowDef →
  cpd_stageIndex data = 2 →
  ∃ cp store',
    SessionManager.checkpoint checkpointId sessionId data store
    = Returned (cp, store')
    ∧ Session.currentStage <$> (store' !! sessionId) = Some 3
    ∧ (∃ session' store'',
         SessionManager.restore sessionId store'
         = Returned (Some (session', Some cp), store''))
    ∧ ∃ st,
        (WorkflowEngine.resumeRun workflows sessionId store' uuid).1 = Returned st
        ∧ Run.currentStageIndex (run st) = 3.
Proof.
  intros Hs Hst Hwf Hidx.
  unfold SessionManager.checkpoint, SessionManager.getSession. rewrite Hs.
  eexists _, _. split; [reflexivity|].
  split; [by rewrite lookup_insert_eq; simpl; rewrite Hidx|].
  unfold WorkflowEngine.resumeRun, SessionManager.restore.
  rewrite lookup_insert_eq. simpl.
  rewrite bool_decide_eq_false_2 by done.
  rewrite length_app. simpl.
  replace (length (Session.checkpoints session) + 1 =? 0)%nat with false
    by (symmetry; apply Nat.eqb_neq; lia).
  simpl. rewrite last_snoc.
  split; [by eexists _, _|].
  unfold getWorkflow. simpl. rewrite Hwf. simpl.
  eexists. split; [reflexivity|]. simpl. by rewrite Hidx.
Qed.

Lemma checkpoint_then_resume_witness :
  ∃ cp store',
    SessionManager.checkpoint 5 0 Sample.checkpointData {[0%nat := Sample.session]}
    = Returned (cp, store')
    ∧ Session.currentStage <$> (store' !! 0%nat) = Some 3
    ∧ (∃ session' store'',
         SessionManager.restore 0 store'
         = Returned (Some (session', Some cp), store''))
    ∧ ∃ st,
        (WorkflowEngine.resumeRun PREDEFINED_WORKFLOWS 0 store' 6).1 = Returned st
        ∧ Run.currentStageIndex (run st) = 3.
Proof.
  apply (checkpoint_then_resume PREDEFINED_WORKFLOWS {[0%nat := Sample.session]}
           0 Sample.session 5 Sample.checkpointData 6 CODE_REVIEW);
    [reflexivity|discriminate|reflexivity|reflexivity].
Defined.

(** C4 as stated fails for a completed session: the checkpoint is taken
    and the current stage is 3, but [restore] throws and no run is made. *)
Lemma checkpoint_then_resume_counterexample :
  ∃ cp store',
    SessionManager.checkpoint 5 0 Sample.checkpointData
      {[0%nat := Sample.completedSession]}
    = Returned (cp, store')
    ∧ Session.currentStage <$> (store' !! 0%nat) = Some 3
    ∧ SessionManager.restore 0 store' = Threw CannotResumeCompleted
    ∧ ∀ configs selector world uuid,
        WorkflowEngine.resumeWorkflow configs PREDEFINED_WORKFLOWS selector world
          0 store' uuid
        = WorkflowEngine.Rejected CannotResumeCompleted store'.
Proof.
  eexists _, _. split; [reflexivity|]. split; [reflexivity|].
  split; [reflexivity|]. intros. reflexivity.
Qed.

End SessionStore.

(** ** Tier selector *)

Section TierSelector.
Import ModelSelector.











End TierSelector.

(** ** Workflow engine *)

Section EngineProperties.
Import WorkflowEngine.
Variable configs : gmap string AgentConfig.
Variable workflows : gmap string WorkflowDefinition.
Variable selector : ModelSelector.Options.
Variable world : World.

Implicit Types (st : St) (agentType : string).

Lemma attemptsIn_app agentType (l more : list RunExecution) :
  attemptsIn agentType (l ++ more)
  = attemptsIn agentType l ++ attemptsIn agentType more.
Proof. apply omap_app. Qed.

Lemma attemptsIn_update_length agentType executionId f l :
  (∀ e, exe_agentType (f e) = exe_agentType e) →
  length (attemptsIn agentType (updateExecution executionId f l))
  = length (attemptsIn agentType l).
Proof.
  intros Hf. unfold attemptsIn.
  induction l as [|x l IH]; [done|].
  destruct x as [e|rec]; simpl in *; [|exact IH].
  repeat case_bool_decide; simpl;
    first [exact IH | f_equal; exact IH | rewrite Hf in *; done].
Qed.








(** *** What the engine writes to the session store *)

Lemma writes_refl store : writes store store.
Proof. by exists []. Qed.

Lemma writes_trans store1 store2 store3 :
  writes store1 store2 → writes store2 store3 → writes store1 store3.
Proof.
  intros (calls1 & H1 & ->) (calls2 & H2 & ->).
  exists (calls1 ++ calls2). split; [by apply Forall_app|].
  by rewrite foldl_app.
Qed.

Lemma writes_call store c : leavesContext c → writes store (applyCall store c).
Proof. intros Hc. exists [c]. split; [by constructor|done]. Qed.

Lemma writes_context store store' k :
  writes store store' →
  Session.context <$> (store' !! k) = Session.context <$> (store !! k).
Proof.
  intros (calls & Hcalls & ->). revert store.
  induction Hcalls as [|c calls Hc _ IH]; [done|].
  intros store. simpl. rewrite IH. by apply applyCall_context.
Qed.


Lemma tracks_ret {A} (a : A) : tracks (ret a).
Proof. intros st. split; [apply writes_refl|done]. Qed.

Lemma tracks_raise {A} e : tracks (@raise A e).
Proof. intros st. split; [apply writes_refl|done]. Qed.

Lemma tracks_stuck {A} : tracks (@stuck A).
Proof. by intros st. Qed.

Lemma tracks_bind {A B} (m : M A) (k : A → M B) :
  tracks m → (∀ a, tracks (k a)) → tracks (bind m k).
Proof.
  intros Hm Hk st. unfold bind. specialize (Hm st).
  destruct (m st) as [a st1|e st1|]; [|done|done].
  specialize (Hk a st1). destruct Hm as [Hw Hid].
  destruct (k a st1) as [b st2|e st2|]; [| |done];
    (destruct Hk as [Hw2 Hid2]; split; [by eapply writes_trans|congruence]).
Qed.

Lemma tracks_tryCatch {A} (m : M A) handler :
  tracks m → (∀ e, tracks (handler e)) → tracks (tryCatch m handler).
Proof.
  intros Hm Hh st. unfold tryCatch. specialize (Hm st).
  destruct (m st) as [a st1|e st1|]; [done| |done].
  specialize (Hh e st1). destruct Hm as [Hw Hid].
  destruct (handler e st1) as [b st2|e2 st2|]; [| |done];
    (destruct Hh as [Hw2 Hid2]; split; [by eapply writes_trans|congruence]).
Qed.

Lemma tracks_getRun : tracks getRun.
Proof. intros st. split; [apply writes_refl|done]. Qed.

Lemma tracks_uuidv4 : tracks uuidv4.
Proof. intros st. split; [apply writes_refl|done]. Qed.

Lemma tracks_modifyRun f :
  (∀ r, Run.sessionId (f r) = Run.sessionId r) → tracks (modifyRun f).
Proof. intros Hf st. split; [apply writes_refl|apply Hf]. Qed.

Lemma tracks_addLog entry : tracks (addLog entry).
Proof.
  intros st. split; [|done].
  apply (writes_call _ (CallAddLog _ entry)). done.
Qed.

Lemma tracks_recordAgentExecution rec : tracks (recordAgentExecution rec).
Proof.
  intros st. split; [|done].
  apply (writes_call _ (CallRecordAgentExecution _ rec)). done.
Qed.

Lemma tracks_callSessions {A} (f : gmap nat Session.t → Outcome (A * gmap nat Session.t)) :
  (∀ store a store', f store = Returned (a, store') → writes store store') →
  tracks (callSessions f).
Proof.
  intros Hf st. unfold callSessions.
  destruct (f (sessions st)) as [[a store']|e] eqn:Heq.
  - split; [by eapply Hf|done].
  - split; [apply writes_refl|done].
Qed.

Lemma tracks_forEach {A} (f : A → M unit) l :
  (∀ x, tracks (f x)) → tracks (forEach f l).
Proof.
  intros Hf. induction l as [|x l IH]; [apply tracks_ret|].
  apply tracks_bind; [apply Hf|done].
Qed.

Lemma tracks_mapEach {A B} (f : A → M B) l :
  (∀ x, tracks (f x)) → tracks (mapEach f l).
Proof.
  intros Hf. induction l as [|x l IH]; [apply tracks_ret|].
  apply tracks_bind; [apply Hf|]. intros y.
  apply tracks_bind; [done|]. intros ys. apply tracks_ret.
Qed.

Ltac tracks_step :=
  lazymatch goal with
  | |- tracks (bind _ _) => apply tracks_bind; [|intros ?]
  | |- tracks (ret _) => apply tracks_ret
  | |- tracks (raise _) => apply tracks_raise
  | |- tracks stuck => apply tracks_stuck
  | |- tracks getRun => apply tracks_getRun
  | |- tracks uuidv4 => apply tracks_uuidv4
  | |- tracks (addLog _) => apply tracks_addLog
  | |- tracks (recordAgentExecution _) => apply tracks_recordAgentExecution
  | |- tracks (modifyRun _) => apply tracks_modifyRun; done
  end.

Lemma tracks_spawn agentType : tracks (spawn configs selector agentType).
Proof. unfold spawn. repeat tracks_step. Qed.

Lemma tracks_complete p output : tracks (complete world p output).
Proof. unfold complete. repeat tracks_step. Qed.

Lemma tracks_fail p error : tracks (fail configs world p error).
Proof.
  unfold fail. repeat tracks_step.
  destruct (retriesOf _ _); [|tracks_step].
  destruct (getAgentConfig _ _); [|tracks_step].
  destruct (_ <? _); repeat tracks_step.
Qed.

Lemma tracks_spawnAndExecuteAgentFuel fuel agentType :
  tracks (spawnAndExecuteAgentFuel configs selector world fuel agentType).
Proof.
  induction fuel as [|fuel IH]; [apply tracks_stuck|]. simpl.
  apply tracks_bind; [apply tracks_spawn|]. intros p.
  destruct (attempt world p); [apply tracks_complete|].
  apply tracks_bind; [apply tracks_fail|].
  intros [|]; [done|apply tracks_raise].
Qed.

Lemma tracks_spawnAndExecuteAgent agentType :
  tracks (spawnAndExecuteAgent configs selector world agentType).
Proof.
  intros st. unfold spawnAndExecuteAgent.
  apply tracks_spawnAndExecuteAgentFuel.
Qed.

Lemma tracks_settleAll fuel pending :
  tracks (settleAll configs selector world fuel pending).
Proof.
  revert pending. induction fuel as [|fuel IH]; intros [|p0 pending];
    try apply tracks_ret; try apply tracks_stuck.
  cbn [settleAll].
  destruct (_ !! _) as [p|]; [|apply tracks_stuck].
  destruct (attempt world p).
  - apply tracks_bind; [apply tracks_complete|]. intros _. apply IH.
  - apply tracks_bind; [apply tracks_fail|].
    intros [|]; [|apply tracks_raise].
    apply tracks_bind; [apply tracks_spawn|]. intros p'. apply IH.
Qed.

Lemma tracks_executeStage stage :
  tracks (executeStage configs selector world stage).
Proof.
  unfold executeStage. apply tracks_bind; [apply tracks_getRun|]. intros r.
  destruct (filter _ _); [apply tracks_ret|].
  destruct (stage_executionMode stage).
  - apply tracks_forEach. apply tracks_spawnAndExecuteAgent.
  - apply tracks_bind; [apply tracks_mapEach, tracks_spawn|].
    intros pending. apply tracks_settleAll.
Qed.

Lemma tracks_executeStagesFrom n i :
  tracks (executeStagesFrom configs selector world n i).
Proof.
  revert i. induction n as [|n IH]; intros i; [apply tracks_ret|].
  cbn [executeStagesFrom].
  apply tracks_bind; [apply tracks_getRun|]. intros r.
  assert (Hbody : tracks
    (match (if i <? 0 then None else wf_stages (Run.workflowDef r) !! Z.to_nat i) with
     | None => raise (TypeError "name")
     | Some stage =>
       bind (modifyRun (Run.with_currentStageIndex i)) (λ _,
       bind (addLog (stage_started i (stage_name stage))) (λ _,
       bind (executeStage configs selector world stage) (λ _,
       bind getRun (λ r,
       bind uuidv4 (λ checkpointId,
       bind (callSessions
          (λ store,
             match SessionManager.checkpoint checkpointId (Run.sessionId r)
                     (mkCheckpointData i (stage_name stage)
                        (Some (Run.completedAgents r))
                        (Some (mkCheckpointState (i + 1) (Run.context r))))
                     store with
             | Returned (_, store') => Returned (tt, store')
             | Threw e => Threw e
             end)) (λ _,
       executeStagesFrom configs selector world n (i + 1)))))))
     end)).
  { destruct (if i <? 0 then None else _) as [stage|]; [|apply tracks_raise].
    repeat tracks_step; [apply tracks_executeStage| |apply IH].
    apply tracks_callSessions. intros store [] store' Hcp.
    match type of Hcp with context [SessionManager.checkpoint ?c ?s ?d _] =>
      pose proof (writes_call store (CallCheckpoint c s d) I) as Hw end.
    simpl in Hw.
    destruct (SessionManager.checkpoint _ _ _ store) as [[cp store1]|];
      [|discriminate].
    by injection Hcp as <-. }
  destruct (Run.status r); try exact Hbody. apply tracks_raise.
Qed.

Lemma tracks_executeWorkflow : tracks (executeWorkflow configs selector world).
Proof.
  unfold executeWorkflow. apply tracks_bind; [apply tracks_getRun|].
  intros r. apply tracks_executeStagesFrom.
Qed.

Lemma tracks_createWorkflowBranch : tracks (createWorkflowBranch world).
Proof.
  unfold createWorkflowBranch. apply tracks_bind; [apply tracks_getRun|].
  intros r. destruct (createBranch _ _); tracks_step.
Qed.

Lemma tracks_createPRIfConfigured : tracks (createPRIfConfigured world).
Proof.
  unfold createPRIfConfigured. apply tracks_bind; [apply tracks_getRun|].
  intros r. destruct (_ && _); [|apply tracks_ret].
  unfold createWorkflowPR. apply tracks_bind; [apply tracks_getRun|].
  intros r'. destruct (createPR _ _ _ _ _); [repeat tracks_step|].
  destruct (default _ _); tracks_step.
Qed.

Lemma tracks_markCompleted sessionId withBranch :
  tracks (markCompleted sessionId withBranch).
Proof.
  unfold markCompleted. repeat tracks_step.
  apply tracks_callSessions. intros store [] store' Hm.
  match type of Hm with context [SessionManager.markCompleted ?s ?r _] =>
    pose proof (writes_call store
      (CallUpdateStatus s SessionStatus.COMPLETED (resultUpdate r)) eq_refl) as Hw
  end.
  simpl in Hw. unfold SessionManager.markCompleted in Hm.
  destruct (SessionManager.updateStatus _ _ _ store); [|discriminate].
  by injection Hm as <-.
Qed.

Lemma tracks_failRun sessionId error : tracks (failRun sessionId error).
Proof.
  unfold failRun. repeat tracks_step.
  apply tracks_callSessions. intros store [] store' Hm.
  pose proof (writes_call store
    (CallUpdateStatus sessionId SessionStatus.FAILED (errorUpdate error))
    eq_refl) as Hw.
  simpl in Hw. unfold SessionManager.markFailed in Hm.
  destruct (SessionManager.updateStatus _ _ _ store); [|discriminate].
  by injection Hm as <-.
Qed.

(** The body of the [try] block of [startWorkflow]. *)
Lemma tracks_startBody options sessionId :
  tracks
    (bind (if bool_decide (opt_createBranch options = Some false)
           then ret tt
           else bind (createWorkflowBranch world)
                     (λ branch, modifyRun (Run.with_gitBranch (Some branch))))
       (λ _, bind (executeWorkflow configs selector world)
       (λ _, bind (createPRIfConfigured world)
       (λ _, markCompleted sessionId true)))).
Proof.
  apply tracks_bind.
  { destruct (bool_decide _); [apply tracks_ret|].
    apply tracks_bind; [apply tracks_createWorkflowBranch|].
    intros branch. by apply tracks_modifyRun. }
  intros _. apply tracks_bind; [apply tracks_executeWorkflow|].
  intros _. apply tracks_bind; [apply tracks_createPRIfConfigured|].
  intros _. apply tracks_markCompleted.
Qed.






(** Whatever [startWorkflow] does to a run, the stored session keeps the
    context it was created with: the outputs of the agents go to the
    context of the run only. *)
Lemma startWorkflow_keeps_session_context
    definition context options store uid x :
  startWorkflow configs workflows selector world
    definition context options store uid = Ran x →
  match x with
  | Done _ st' | Raised _ st' =>
    Session.context <$> (sessions st' !! Run.sessionId (run st'))
    = Some context
  | Stuck => True
  end.
Proof.
  intros Hstart. unfold startWorkflow in Hstart.
  destruct (startRun workflows definition context options store uid)
    as [st0|e0] eqn:Hst0; [|discriminate].
  assert (Hs0 : Session.context <$> (sessions st0 !! Run.sessionId (run st0))
                = Some context).
  { unfold startRun in Hst0.
    destruct (match definition with inl _ => _ | inr _ => _ end);
      [|discriminate].
    injection Hst0 as <-. cbn.
    unfold SessionManager.addLog, SessionManager.getSession.
    rewrite lookup_insert_eq, lookup_insert_eq. done. }
  injection Hstart as <-.
  pose proof (tracks_tryCatch _ _
    (tracks_startBody options (Run.sessionId (run st0)))
    (tracks_failRun (Run.sessionId (run st0))) st0) as Ht.
  match goal with |- match ?x with _ => _ end =>
    change (match x with
            | Done _ st' | Raised _ st' =>
              writes (sessions st0) (sessions st')
              ∧ Run.sessionId (run st') = Run.sessionId (run st0)
            | Stuck => True
            end) in Ht;
    destruct x as [[] st'|e st'|]; [| |done]
  end; destruct Ht as [Hw Hid];
    rewrite Hid, (writes_context _ _ _ Hw); exact Hs0.
Qed.

End EngineProperties.

(** *** The engine on sample runs *)

Section EngineOnSamples.
Import WorkflowEngine.





End EngineOnSamples.

(** * Further properties *)

(** ** Agent graph: validation, dependents and the repository's table *)

Section AgentGraph.

Lemma missingDependencies_elem configs agentTypes completedAgents message :
  message ∈ missingDependencies configs agentTypes completedAgents ↔
  ∃ type dep,
    message = type +:+ " requires " +:+ dep
    ∧ type ∈ agentTypes
    ∧ dep ∈ getAgentDependencies configs type
    ∧ (dep ∉ completedAgents) ∧ (dep ∉ agentTypes).
Proof.
  unfold missingDependencies. rewrite list_elem_of_bind. split.
  - intros (type & Hm & Htype).
    apply list_elem_of_fmap in Hm as (dep & -> & Hdep).
    apply list_elem_of_filter in Hdep as [[Hc Ha] Hdep].
    by exists type, dep.
  - intros (type & dep & -> & Htype & Hdep & Hc & Ha).
    exists type. split; [|done].
    apply list_elem_of_fmap. exists dep. split; [done|].
    by apply list_elem_of_filter.
Qed.

Lemma validateDependencies_closed configs agentTypes completedAgents :
  valid (validateDependencies configs agentTypes completedAgents) = true
  ↔ ∀ type dep,
      type ∈ agentTypes → dep ∈ getAgentDependencies configs type →
      dep ∈ completedAgents ∨ dep ∈ agentTypes.
Proof.
  unfold validateDependencies. cbn [valid]. rewrite Nat.eqb_eq. split.
  - intros Hnil%nil_length_inv type dep Htype Hdep.
    destruct (decide (dep ∈ completedAgents)) as [|Hc]; [by left|].
    destruct (decide (dep ∈ agentTypes)) as [|Ha]; [by right|].
    exfalso.
    assert (Hm : type +:+ " requires " +:+ dep
                 ∈ missingDependencies configs agentTypes completedAgents).
    { apply missingDependencies_elem. by exists type, dep. }
    rewrite Hnil in Hm. by apply elem_of_nil in Hm.
  - intros Hall.
    destruct (missingDependencies configs agentTypes completedAgents)
      as [|message rest] eqn:Hm; [done|].
    assert (Hin : message
                  ∈ missingDependencies configs agentTypes completedAgents)
      by (rewrite Hm; by left).
    apply missingDependencies_elem
      in Hin as (type & dep & _ & Htype & Hdep & Hc & Ha).
    destruct (Hall type dep Htype Hdep); done.
Qed.


(** What [topologicalSortAgents] returns holds every tag once and is
    ordered within the list. *)
Lemma topologicalSortAgents_sound configs agentTypes levels :
  NoDup agentTypes →
  TopoSort.topologicalSortAgents configs agentTypes = Some (Returned levels) →
  concat levels ≡ₚ agentTypes ∧ orderedWithin configs agentTypes levels.
Proof.
  intros Hnd Hrun. unfold TopoSort.topologicalSortAgents in Hrun.
  eapply (kahn_levels configs agentTypes Hnd) in Hrun; [done|done|done| | |].
  - by apply counted_initially.
  - done.
  - intros i t d (lv & Hlv & _). by rewrite lookup_nil in Hlv.
Qed.

(** X2: a list of tags that [validateDependencies] accepts with no
    completed agent is closed under dependencies, so the levels
    [topologicalSortAgents] returns for it place every dependency of a
    tag, not only the listed ones, in a strictly earlier level. *)
Theorem validated_levels_respect_every_dependency configs agentTypes levels :
  NoDup agentTypes →
  valid (validateDependencies configs agentTypes []) = true →
  TopoSort.topologicalSortAgents configs agentTypes = Some (Returned levels) →
  ∀ i t d,
    inLevel levels i t → d ∈ getAgentDependencies configs t →
    ∃ j, (j < i)%nat ∧ inLevel levels j d.
Proof.
  intros Hnd Hvalid Hrun i t d Ht Hdep.
  destruct (topologicalSortAgents_sound _ _ _ Hnd Hrun) as [Hperm Hord].
  apply (Hord i t d Ht); [|done].
  assert (Hin : t ∈ agentTypes).
  { rewrite <- Hperm. apply inLevel_concat. by exists i. }
  destruct (proj1 (validateDependencies_closed configs agentTypes [])
              Hvalid t d Hin Hdep) as [Hc|Ha]; [|done].
  by apply elem_of_nil in Hc.
Qed.

Lemma validated_levels_respect_every_dependency_witness :
  valid (validateDependencies AGENT_CONFIGS ["ARCHITECT"; "PM"; "UIUX"] [])
  = true
  ∧ TopoSort.topologicalSortAgents AGENT_CONFIGS ["ARCHITECT"; "PM"; "UIUX"]
    = Some (Returned [["PM"]; ["ARCHITECT"; "UIUX"]])
  ∧ ∀ i t d,
      inLevel [["PM"]; ["ARCHITECT"; "UIUX"]] i t →
      d ∈ getAgentDependencies AGENT_CONFIGS t →
      ∃ j, (j < i)%nat ∧ inLevel [["PM"]; ["ARCHITECT"; "UIUX"]] j d.
Proof.
  split; [reflexivity|]. split; [reflexivity|].
  apply (validated_levels_respect_every_dependency AGENT_CONFIGS
           ["ARCHITECT"; "PM"; "UIUX"] [["PM"]; ["ARCHITECT"; "UIUX"]]).
  - refine (bool_decide_unpack _ _). by vm_compute.
  - reflexivity.
  - reflexivity.
Defined.





(** X4: in a table whose keys are distinct and whose entries carry their
    own key as [type], [getDependentAgents] is the inverse of
    [getAgentDependencies]: an agent is a dependent of [agentType] exactly
    when [agentType] is among its dependencies. *)
Theorem getDependentAgents_inverse entries agentType dependent :
  NoDup entries.*1 →
  Forall (λ entry, cfg_type entry.2 = entry.1) entries →
  dependent ∈ getDependentAgents entries agentType
  ↔ agentType ∈ getAgentDependencies (list_to_map entries) dependent.
Proof.
  intros Hnd Hkeys. unfold getDependentAgents, getAgentDependencies.
  rewrite list_elem_of_fmap. split.
  - intros (config & -> & Hin).
    apply list_elem_of_filter in Hin as [Hdep Hin].
    apply list_elem_of_fmap in Hin as ([key config'] & -> & Hin).
    pose proof (proj1 (Forall_forall _ _) Hkeys _ Hin) as Hkey.
    simpl in Hkey, Hdep |- *. rewrite Hkey.
    apply (elem_of_list_to_map (M := gmap string)) in Hin; [|done].
    by rewrite Hin.
  - intros Hdep.
    destruct (list_to_map entries !! dependent) as [config|] eqn:Hc;
      [|by apply elem_of_nil in Hdep].
    apply (elem_of_list_to_map (M := gmap string)) in Hc; [|done].
    pose proof (proj1 (Forall_forall _ _) Hkeys _ Hc) as Hkey. simpl in Hkey.
    exists config. split; [done|].
    apply list_elem_of_filter. split; [done|].
    apply list_elem_of_fmap. by exists (dependent, config).
Qed.

Lemma getDependentAgents_inverse_witness :
  "ARCHITECT" ∈ getDependentAgents AGENT_CONFIG_ENTRIES "PM"
  ↔ "PM" ∈ getAgentDependencies (list_to_map AGENT_CONFIG_ENTRIES) "ARCHITECT".
Proof.
  apply (getDependentAgents_inverse AGENT_CONFIG_ENTRIES "PM" "ARCHITECT").
  - refine (bool_decide_unpack _ _). by vm_compute.
  - refine (bool_decide_unpack _ _). by vm_compute.
Defined.

End AgentGraph.

(** ** Tier selector: the lowest maximum, cost estimates, CLI names *)

Section TierSelectorFurther.
Import ModelSelector.

















End TierSelectorFurther.

(** ** Workflow definitions: the agents of a workflow *)

Section WorkflowAgents.





End WorkflowAgents.

(** ** Session store: what a sequence of calls keeps *)

Section SessionStoreFurther.
Implicit Types (store : gmap nat Session.t) (session : Session.t).

(** A call rewrites the session it is aimed at, if that one is stored,
    and nothing else. *)
Lemma applyCall_other store c k :
  k ≠ callTarget c → applyCall store c !! k = store !! k.
Proof.
  intros Hne.
  destruct c as [sid status updates|cid sid data|sid entry|sid rec|sid];
    simpl in Hne |- *.
  - unfold SessionManager.updateStatus, SessionManager.getSession.
    destruct (store !! sid); [|done]. by rewrite lookup_insert_ne.
  - unfold SessionManager.checkpoint, SessionManager.getSession.
    destruct (store !! sid); [|done]. by rewrite lookup_insert_ne.
  - unfold SessionManager.addLog, SessionManager.getSession.
    destruct (store !! sid); [|done]. by rewrite lookup_insert_ne.
  - unfold SessionManager.recordAgentExecution, SessionManager.getSession.
    destruct (store !! sid); [|done]. by rewrite lookup_insert_ne.
  - unfold SessionManager.restore.
    destruct (store !! sid); [|done].
    destruct (bool_decide _); [done|]. destruct (_ && _); [done|].
    by rewrite lookup_insert_ne.
Qed.

Lemma applyCall_target store c session :
  store !! callTarget c = Some session →
  applyCall store c !! callTarget c = callEffect c session.
Proof.
  intros Hs. unfold callEffect.
  destruct c as [sid status updates|cid sid data|sid entry|sid rec|sid];
    simpl in Hs |- *.
  - unfold SessionManager.updateStatus, SessionManager.getSession.
    by rewrite Hs, lookup_singleton_eq, !lookup_insert_eq.
  - unfold SessionManager.checkpoint, SessionManager.getSession.
    by rewrite Hs, lookup_singleton_eq, !lookup_insert_eq.
  - unfold SessionManager.addLog, SessionManager.getSession.
    by rewrite Hs, lookup_singleton_eq, !lookup_insert_eq.
  - unfold SessionManager.recordAgentExecution, SessionManager.getSession.
    by rewrite Hs, lookup_singleton_eq, !lookup_insert_eq.
  - unfold SessionManager.restore. rewrite Hs, lookup_singleton_eq.
    destruct (bool_decide _); [by rewrite lookup_singleton_eq|].
    destruct (_ && _); [by rewrite lookup_singleton_eq|].
    by rewrite !lookup_insert_eq.
Qed.

(** What each call makes of the session it is aimed at. *)
Lemma callEffect_cases c session :
  callEffect c session
  = Some
      match c with
      | CallUpdateStatus _ status updates =>
        SessionManager.assign updates (Session.with_status status session)
      | CallCheckpoint checkpointId sessionId data =>
        Session.with_completedAgents (default [] (cpd_completedAgents data))
          (Session.with_currentStage (cpd_stageIndex data + 1)
             (Session.with_checkpoints
                (Session.checkpoints session
                 ++ [Checkpoint.mk checkpointId sessionId (cpd_stageIndex data)
                       (cpd_stageName data)
                       (default [] (cpd_completedAgents data))
                       (cpd_state data)])
                session))
      | CallAddLog _ entry =>
        Session.with_logs
          (if (1000 <? length (Session.logs session ++ [entry]))%nat
           then SessionManager.sliceLast 1000 (Session.logs session ++ [entry])
           else Session.logs session ++ [entry])
          session
      | CallRecordAgentExecution _ execution =>
        Session.with_completedAgents
          match rec_status execution with
          | AgentStatus.COMPLETED =>
            Session.completedAgents session ++ [rec_agentType execution]
          | _ => Session.completedAgents session
          end
          (Session.with_metadata
             (mkMetadata
                (totalTokens (Session.metadata session)
                 + default 0 (rec_tokensUsed execution))
                (totalExecutionTime (Session.metadata session)
                 + rec_executionTime execution)
                (agentExecutions (Session.metadata session) ++ [execution]))
             session)
      | CallRestore _ =>
        if bool_decide (Session.status session = SessionStatus.COMPLETED)
        then session
        else if (length (Session.checkpoints session) =? 0)%nat
                && bool_decide (Session.status session = SessionStatus.FAILED)
        then session
        else Session.with_status SessionStatus.RUNNING session
      end.
Proof.
  unfold callEffect.
  destruct c as [sid status updates|cid sid data|sid entry|sid rec|sid]; simpl.
  - unfold SessionManager.updateStatus, SessionManager.getSession.
    by rewrite lookup_singleton_eq, lookup_insert_eq.
  - unfold SessionManager.checkpoint, SessionManager.getSession.
    by rewrite lookup_singleton_eq, lookup_insert_eq.
  - unfold SessionManager.addLog, SessionManager.getSession.
    by rewrite lookup_singleton_eq, lookup_insert_eq.
  - unfold SessionManager.recordAgentExecution, SessionManager.getSession.
    by rewrite lookup_singleton_eq, lookup_insert_eq.
  - unfold SessionManager.restore. rewrite lookup_singleton_eq.
    destruct (bool_decide _); [by rewrite lookup_singleton_eq|].
    destruct (_ && _); [by rewrite lookup_singleton_eq|].
    by rewrite lookup_insert_eq.
Qed.

(** A sequence of calls, followed session by session. *)
Lemma calls_follow (R : Session.t → Session.t → Prop) (P : Call → Prop) k :
  (∀ session, R session session) →
  (∀ s1 s2 s3, R s1 s2 → R s2 s3 → R s1 s3) →
  (∀ c session session',
     P c → callTarget c = k → callEffect c session = Some session' →
     R session session') →
  ∀ calls store session,
    Forall P calls → store !! k = Some session →
    ∃ session', foldl applyCall store calls !! k = Some session'
                ∧ R session session'.
Proof.
  intros Hrefl Htrans Hstep calls.
  induction calls as [|c calls IH]; intros store session Hcalls Hs.
  { exists session. by split. }
  apply Forall_cons in Hcalls as [Hc Hcalls]. simpl.
  destruct (decide (k = callTarget c)) as [->|Hne].
  - pose proof (applyCall_target store c session Hs) as Ht.
    destruct (callEffect c session) as [s1|] eqn:He;
      [|by rewrite callEffect_cases in He].
    destruct (IH (applyCall store c) s1 Hcalls Ht) as (s2 & Hs2 & HR).
    exists s2. split; [done|]. eapply Htrans; [|done]. by eapply Hstep.
  - destruct (IH (applyCall store c) session Hcalls) as (s2 & Hs2 & HR).
    { by rewrite applyCall_other. }
    exists s2. by split.
Qed.



Lemma tokensOf_app l more : tokensOf (l ++ more) = tokensOf l + tokensOf more.
Proof. induction l as [|x l IH]; simpl; [done|]. rewrite IH. lia. Qed.

Lemma timeOf_app l more : timeOf (l ++ more) = timeOf l + timeOf more.
Proof. induction l as [|x l IH]; simpl; [done|]. rewrite IH. lia. Qed.

(** X11: the totals of a session are the sums over the executions
    recorded for it: after [createSession], whatever sequence of mutator
    calls (with patches that carry no [metadata] key) follows, the
    session's [agentExecutions] are the records handed to
    [recordAgentExecution] for it, in order, and the token and time totals
    that [getStatistics] reports are their sums (a missing token count
    counting as zero). *)
Theorem statistics_sum_recorded_executions
    store sessionId workflowId context options calls :
  Forall leavesMetadata calls →
  ∃ session stats,
    foldl applyCall
      (SessionManager.createSession sessionId workflowId context options store).2
      calls !! sessionId = Some session
    ∧ agentExecutions (Session.metadata session) = recordedFor sessionId calls
    ∧ getStatistics
        (foldl applyCall
           (SessionManager.createSession sessionId workflowId context options
              store).2 calls) sessionId = Some stats
    ∧ stat_totalTokens stats = tokensOf (recordedFor sessionId calls)
    ∧ stat_totalExecutionTime stats = timeOf (recordedFor sessionId calls).
Proof.
  intros Hcalls.
  assert (Hgen : ∀ store0 s0,
    store0 !! sessionId = Some s0 →
    ∃ s, foldl applyCall store0 calls !! sessionId = Some s
         ∧ agentExecutions (Session.metadata s)
           = agentExecutions (Session.metadata s0) ++ recordedFor sessionId calls
         ∧ totalTokens (Session.metadata s)
           = totalTokens (Session.metadata s0)
             + tokensOf (recordedFor sessionId calls)
         ∧ totalExecutionTime (Session.metadata s)
           = totalExecutionTime (Session.metadata s0)
             + timeOf (recordedFor sessionId calls)).
  { induction Hcalls as [|c calls Hc _ IH]; intros store0 s0 Hs0.
    { exists s0. simpl. rewrite app_nil_r. split; [done|]. split; [done|]. lia. }
    simpl foldl.
    destruct (decide (sessionId = callTarget c)) as [->|Hne].
    - pose proof (applyCall_target store0 c s0 Hs0) as Ht.
      rewrite callEffect_cases in Ht.
      destruct (IH _ _ Ht) as (s & Hs & He & Htok & Htime).
      exists s. split; [done|].
      destruct c as [sid status updates|cid sid data|sid entry|sid rec|sid];
        simpl in Hc, He, Htok, Htime |- *.
      + rewrite Hc in He, Htok, Htime. done.
      + done.
      + done.
      + rewrite bool_decide_eq_true_2 by done. simpl.
        rewrite <- app_assoc in He. split; [done|]. lia.
      + destruct (bool_decide _); [done|]. by destruct (_ && _).
    - destruct (IH (applyCall store0 c) s0) as (s & Hs & He & Htok & Htime).
      { by rewrite applyCall_other. }
      exists s. split; [done|].
      assert (Hrec : recordedFor sessionId (c :: calls)
                     = recordedFor sessionId calls).
      { destruct c as [sid status updates|cid sid data|sid entry|sid rec|sid];
          try done.
        simpl in Hne |- *. unfold recordedFor. simpl.
        by rewrite bool_decide_eq_false_2 by done. }
      by rewrite Hrec. }
  destruct (Hgen (SessionManager.createSession sessionId workflowId context
                    options store).2
              (SessionManager.createSession sessionId workflowId context
                 options store).1) as (s & Hs & He & Htok & Htime).
  { simpl. by rewrite lookup_insert_eq. }
  simpl in He, Htok, Htime.
  unfold getStatistics, SessionManager.getSession. rewrite Hs.
  eexists s, _. split; [done|]. split; [done|]. split; [done|]. simpl.
  split; lia.
Qed.

Lemma statistics_sum_recorded_executions_witness :
  ∃ session stats,
    foldl applyCall
      (SessionManager.createSession 0 "CODE_REVIEW" (Some Sample.context)
         (mkRunOptions None) ∅).2
      [CallRecordAgentExecution 0
         (mkExecutionRecord "CQR" 1 AgentStatus.FAILED None
            (Some (External "agent failed")) 5);
       CallRecordAgentExecution 0
         (mkExecutionRecord "CQR" 2 AgentStatus.COMPLETED (Some 10) None 7)]
      !! 0%nat = Some session
    ∧ agentExecutions (Session.metadata session)
      = recordedFor 0
          [CallRecordAgentExecution 0
             (mkExecutionRecord "CQR" 1 AgentStatus.FAILED None
                (Some (External "agent failed")) 5);
           CallRecordAgentExecution 0
             (mkExecutionRecord "CQR" 2 AgentStatus.COMPLETED (Some 10) None 7)]
    ∧ getStatistics
        (foldl applyCall
           (SessionManager.createSession 0 "CODE_REVIEW" (Some Sample.context)
              (mkRunOptions None) ∅).2
           [CallRecordAgentExecution 0
              (mkExecutionRecord "CQR" 1 AgentStatus.FAILED None
                 (Some (External "agent failed")) 5);
            CallRecordAgentExecution 0
              (mkExecutionRecord "CQR" 2 AgentStatus.COMPLETED (Some 10) None 7)])
        0 = Some stats
    ∧ stat_totalTokens stats
      = tokensOf
          (recordedFor 0
             [CallRecordAgentExecution 0
                (mkExecutionRecord "CQR" 1 AgentStatus.FAILED None
                   (Some (External "agent failed")) 5);
              CallRecordAgentExecution 0
                (mkExecutionRecord "CQR" 2 AgentStatus.COMPLETED (Some 10) None 7)])
    ∧ stat_totalExecutionTime stats
      = timeOf
          (recordedFor 0
             [CallRecordAgentExecution 0
                (mkExecutionRecord "CQR" 1 AgentStatus.FAILED None
                   (Some (External "agent failed")) 5);
              CallRecordAgentExecution 0
                (mkExecutionRecord "CQR" 2 AgentStatus.COMPLETED (Some 10) None 7)]).
Proof.
  apply (statistics_sum_recorded_executions ∅ 0 "CODE_REVIEW"
           (Some Sample.context) (mkRunOptions None)).
  repeat constructor.
Defined.

(** X12: a session that [isResumable] accepts and that is paused or has a
    checkpoint is restored: [restore] returns it set to running, with its
    latest checkpoint, and changes nothing else; right after that
    [isResumable] is false, so a session is not resumed twice unless it
    fails or is paused again. *)
Theorem resumable_session_restores store sessionId session :
  store !! sessionId = Some session →
  SessionManager.isResumable store sessionId = true →
  Session.status session = SessionStatus.PAUSED
  ∨ Session.checkpoints session ≠ [] →
  SessionManager.restore sessionId store
  = Returned
      (Some (Session.with_status SessionStatus.RUNNING session,
             last (Session.checkpoints session)),
       <[sessionId := Session.with_status SessionStatus.RUNNING session]> store)
  ∧ SessionManager.isResumable
      (<[sessionId := Session.with_status SessionStatus.RUNNING session]> store)
      sessionId = false.
Proof.
  intros Hs Hres Hcase.
  unfold SessionManager.isResumable, SessionManager.getSession in Hres.
  rewrite Hs in Hres. apply andb_true_iff in Hres as [Hst _].
  apply orb_true_iff in Hst. rewrite !bool_decide_eq_true in Hst.
  split.
  - unfold SessionManager.restore. rewrite Hs.
    rewrite bool_decide_eq_false_2 by (destruct Hst as [-> | ->]; done).
    destruct Hcase as [Hp|Hcp].
    + rewrite Hp. by rewrite andb_false_r.
    + destruct (Session.checkpoints session); [done|]. done.
  - unfold SessionManager.isResumable, SessionManager.getSession.
    by rewrite lookup_insert_eq.
Qed.

Lemma resumable_session_restores_witness :
  SessionManager.restore 0
    {[0%nat := Session.with_status SessionStatus.PAUSED Sample.failedSession]}
  = Returned
      (Some (Session.with_status SessionStatus.RUNNING
               (Session.with_status SessionStatus.PAUSED Sample.failedSession),
             last (Session.checkpoints
                     (Session.with_status SessionStatus.PAUSED Sample.failedSession))),
       <[0%nat := Session.with_status SessionStatus.RUNNING
                    (Session.with_status SessionStatus.PAUSED Sample.failedSession)]>
         {[0%nat := Session.with_status SessionStatus.PAUSED Sample.failedSession]})
  ∧ SessionManager.isResumable
      (<[0%nat := Session.with_status SessionStatus.RUNNING
                    (Session.with_status SessionStatus.PAUSED Sample.failedSession)]>
         {[0%nat := Session.with_status SessionStatus.PAUSED Sample.failedSession]})
      0 = false.
Proof.
  apply (resumable_session_restores
           {[0%nat := Session.with_status SessionStatus.PAUSED Sample.failedSession]}
           0 (Session.with_status SessionStatus.PAUSED Sample.failedSession)).
  - reflexivity.
  - reflexivity.
  - left. reflexivity.
Defined.



(** X14: once [deleteSession] has removed a session, the session is
    neither stored nor resumable, it has no statistics, and resuming it is
    rejected with the cannot-restore error without any change to the
    store; the other sessions are untouched. *)
Theorem deleted_session_cannot_resume
    configs workflows selector world store sessionId uuid :
  SessionManager.getSession (deleteSession sessionId store) sessionId = None
  ∧ SessionManager.isResumable (deleteSession sessionId store) sessionId = false
  ∧ getStatistics (deleteSession sessionId store) sessionId = None
  ∧ WorkflowEngine.resumeWorkflow configs workflows selector world sessionId
      (deleteSession sessionId store) uuid
    = WorkflowEngine.Rejected (CannotRestore sessionId)
        (deleteSession sessionId store)
  ∧ ∀ other, other ≠ sessionId →
      SessionManager.getSession (deleteSession sessionId store) other
      = SessionManager.getSession store other.
Proof.
  assert (Hgone : deleteSession sessionId store !! sessionId = None)
    by apply lookup_delete_eq.
  split; [done|]. split; [|split; [|split]].
  - unfold SessionManager.isResumable, SessionManager.getSession.
    by rewrite Hgone.
  - unfold getStatistics, SessionManager.getSession. by rewrite Hgone.
  - unfold WorkflowEngine.resumeWorkflow, WorkflowEngine.resumeRun,
      SessionManager.restore.
    by rewrite Hgone.
  - intros other Hne. unfold SessionManager.getSession, deleteSession.
    by rewrite lookup_delete_ne.
Qed.

End SessionStoreFurther.

(** ** Workflow engine: stages, checkpoints and completion *)

Section Keeps.
Import WorkflowEngine.

Variable configs : gmap string AgentConfig.
Variable selector : ModelSelector.Options.
Variable world : World.

Variable J : St → St → Prop.
Hypothesis J_refl : ∀ st, J st st.
Hypothesis J_trans : ∀ st1 st2 st3, J st1 st2 → J st2 st3 → J st1 st3.

Lemma keeps_ret {A} (Q : A → Prop) a : Q a → keeps J Q (ret a).
Proof. intros Hq st. by split. Qed.

Lemma keeps_raise {A} (Q : A → Prop) e : keeps J Q (raise e).
Proof. intros st. apply J_refl. Qed.

Lemma keeps_stuck {A} (Q : A → Prop) : keeps J Q stuck.
Proof. by intros st. Qed.

Lemma keeps_bind {A B} (Q1 : A → Prop) (Q2 : B → Prop) (m : M A) k :
  keeps J Q1 m → (∀ a, Q1 a → keeps J Q2 (k a)) → keeps J Q2 (bind m k).
Proof.
  intros Hm Hk st. unfold bind. specialize (Hm st).
  destruct (m st) as [a st1|e st1|]; [|done|done].
  destruct Hm as [HJ Hq]. specialize (Hk a Hq st1).
  destruct (k a st1) as [b st2|e st2|]; [| |done].
  - destruct Hk as [HJ2 Hq2]. split; [by eapply J_trans|done].
  - by eapply J_trans.
Qed.

Lemma keeps_weaken {A} (Q Q' : A → Prop) (m : M A) :
  (∀ a, Q a → Q' a) → keeps J Q m → keeps J Q' m.
Proof.
  intros Hq Hm st. specialize (Hm st).
  destruct (m st) as [a st1|e st1|]; [|done|done].
  destruct Hm. split; [done|by apply Hq].
Qed.

Lemma keeps_forEach {A} (ok : A → Prop) (f : A → M unit) l :
  (∀ x, ok x → keeps J (λ _, True) (f x)) →
  Forall ok l → keeps J (λ _, True) (forEach f l).
Proof.
  intros Hf Hl. induction Hl as [|x l Hx _ IH]; [by apply keeps_ret|].
  simpl. eapply keeps_bind; [by apply Hf|]. intros _ _. exact IH.
Qed.

Lemma keeps_mapEach {A B} (ok : A → Prop) (Q : B → Prop) (f : A → M B) l :
  (∀ x, ok x → keeps J Q (f x)) →
  Forall ok l → keeps J (Forall Q) (mapEach f l).
Proof.
  intros Hf Hl. induction Hl as [|x l Hx _ IH]; [by apply keeps_ret|].
  simpl. eapply keeps_bind; [by apply Hf|]. intros y Hy.
  eapply keeps_bind; [exact IH|]. intros ys Hys.
  apply keeps_ret. by constructor.
Qed.

(** The agents a stage may run. *)
Variable ok : string → Prop.
Hypothesis spawn_keeps :
  ∀ agentType, ok agentType →
    keeps J (λ p, ok (pen_agentType p)) (spawn configs selector agentType).
Hypothesis complete_keeps :
  ∀ p output, ok (pen_agentType p) →
    keeps J (λ _, True) (complete world p output).
Hypothesis fail_keeps :
  ∀ p error, ok (pen_agentType p) →
    keeps J (λ _, True) (fail configs world p error).

Lemma keeps_spawnAndExecuteAgentFuel fuel agentType :
  ok agentType →
  keeps J (λ _, True)
    (spawnAndExecuteAgentFuel configs selector world fuel agentType).
Proof.
  intros Hok. induction fuel as [|fuel IH]; [apply keeps_stuck|]. simpl.
  eapply keeps_bind; [by apply spawn_keeps|]. intros p Hp. simpl in Hp.
  destruct (attempt world p); [by apply complete_keeps|].
  eapply keeps_bind; [by apply fail_keeps|].
  intros [|] _; [done|apply keeps_raise].
Qed.

Lemma keeps_spawnAndExecuteAgent agentType :
  ok agentType →
  keeps J (λ _, True) (spawnAndExecuteAgent configs selector world agentType).
Proof.
  intros Hok st. unfold spawnAndExecuteAgent.
  by apply keeps_spawnAndExecuteAgentFuel.
Qed.

Lemma keeps_settleAll fuel pending :
  Forall (λ p, ok (pen_agentType p)) pending →
  keeps J (λ _, True) (settleAll configs selector world fuel pending).
Proof.
  revert pending. induction fuel as [|fuel IH]; intros [|p0 pending] Hall;
    try (by apply keeps_ret); try apply keeps_stuck.
  cbn [settleAll].
  destruct (_ !! _) as [p|] eqn:Hp; [|apply keeps_stuck].
  assert (Hokp : ok (pen_agentType p)).
  { eapply (proj1 (Forall_forall _ _) Hall). by eapply list_elem_of_lookup_2. }
  destruct (attempt world p).
  - eapply keeps_bind; [by apply complete_keeps|]. intros _ _.
    apply IH. by apply Forall_delete.
  - eapply keeps_bind; [by apply fail_keeps|].
    intros [|] _; [|apply keeps_raise].
    eapply keeps_bind; [by apply spawn_keeps|]. intros p' Hp'.
    apply IH. by apply Forall_insert.
Qed.

(** The two ways a stage runs its agents. *)
Lemma keeps_stage_agents mode fuel agentsToRun :
  Forall ok agentsToRun →
  keeps J (λ _, True)
    (match mode with
     | StageExecutionMode.PARALLEL =>
       bind (mapEach (spawn configs selector) agentsToRun)
            (λ pending, settleAll configs selector world fuel pending)
     | StageExecutionMode.SEQUENTIAL =>
       forEach (spawnAndExecuteAgent configs selector world) agentsToRun
     end).
Proof.
  intros Hall. destruct mode.
  - eapply keeps_forEach; [|done]. apply keeps_spawnAndExecuteAgent.
  - eapply keeps_bind.
    + eapply keeps_mapEach; [|done]. apply spawn_keeps.
    + intros pending Hp. by apply keeps_settleAll.
Qed.

End Keeps.

Section EngineFurther.
Import WorkflowEngine.

Variable configs : gmap string AgentConfig.
Variable workflows : gmap string WorkflowDefinition.
Variable selector : ModelSelector.Options.
Variable world : World.

Lemma bind_Done {A B} (m : M A) (k : A → M B) st b st' :
  bind m k st = Done b st' →
  ∃ a st1, m st = Done a st1 ∧ k a st1 = Done b st'.
Proof.
  unfold bind. destruct (m st) as [a st1|e st1|]; [|done|done].
  intros Hk. by exists a, st1.
Qed.

(** *** A stage only appends to the session store *)

Lemma storeStep_refl P st : storeStep P st st.
Proof. split; [by exists []|done]. Qed.

Lemma storeStep_trans P st1 st2 st3 :
  storeStep P st1 st2 → storeStep P st2 st3 → storeStep P st1 st3.
Proof.
  intros [(calls1 & H1 & E1) (Hi1 & Hs1 & Hw1)]
         [(calls2 & H2 & E2) (Hi2 & Hs2 & Hw2)].
  split; [|repeat split; congruence].
  exists (calls1 ++ calls2). split; [by apply Forall_app|].
  by rewrite foldl_app, <- E1.
Qed.

Lemma storeStep_mono (P P' : Call → Prop) st st' :
  (∀ c, P c → P' c) → storeStep P st st' → storeStep P' st st'.
Proof.
  intros HP [(calls & Hcalls & E) Hrun]. split; [|done].
  exists calls. split; [|done]. by eapply Forall_impl.
Qed.

Lemma keeps_mono {A} (J J' : St → St → Prop) (Q : A → Prop) (m : M A) :
  (∀ st st', J st st' → J' st st') → keeps J Q m → keeps J' Q m.
Proof.
  intros HJ Hm st. specialize (Hm st).
  destruct (m st) as [a st1|e st1|]; [|by apply HJ|done].
  destruct Hm. split; [by apply HJ|done].
Qed.

Lemma stageStep_refl st : stageStep st st.
Proof. apply storeStep_refl. Qed.

Lemma stageStep_trans st1 st2 st3 :
  stageStep st1 st2 → stageStep st2 st3 → stageStep st1 st3.
Proof. apply storeStep_trans. Qed.

Lemma stageStep_spawn agentType :
  keeps stageStep (λ _, True) (spawn configs selector agentType).
Proof.
  intros st. unfold spawn, bind, uuidv4, getRun, modifyRun, addLog,
    modifySessions, ret. cbn.
  split; [|done]. split; [|done].
  eexists [CallAddLog _ _]. split; [repeat constructor|reflexivity].
Qed.

Lemma stageStep_complete p output :
  keeps stageStep (λ _, True) (complete world p output).
Proof.
  intros st. unfold complete, bind, getRun, modifyRun, recordAgentExecution,
    modifySessions. cbn.
  split; [|done]. split; [|done].
  eexists [CallRecordAgentExecution _ _]. split; [repeat constructor|reflexivity].
Qed.

Lemma stageStep_fail p error :
  keeps stageStep (λ _, True) (fail configs world p error).
Proof.
  intros st. unfold fail, bind, getRun, modifyRun, recordAgentExecution,
    modifySessions, addLog, stuck, raise, ret. cbn.
  destruct (retriesOf _ _) as [retries|]; [|done].
  destruct (getAgentConfig _ _) as [agentConfig|].
  - destruct (_ <? _); cbn.
    + split; [|done]. split; [|done].
      eexists [CallRecordAgentExecution _ _; CallAddLog _ _]. split; [repeat constructor|reflexivity].
    + split; [|done]. split; [|done].
      eexists [CallRecordAgentExecution _ _]. split; [repeat constructor|reflexivity].
  - split; [|done]. eexists [CallRecordAgentExecution _ _]. split; [repeat constructor|reflexivity].
Qed.

Lemma stageStep_executeStage stage :
  keeps stageStep (λ _, True) (executeStage configs selector world stage).
Proof.
  intros st. unfold executeStage, bind at 1, getRun.
  destruct (filter _ _) as [|agent agents] eqn:Hf.
  { split; [apply stageStep_refl|done]. }
  apply (keeps_stage_agents configs selector world stageStep
           stageStep_refl stageStep_trans (λ _, True)).
  - intros. apply stageStep_spawn.
  - intros. apply stageStep_complete.
  - intros. apply stageStep_fail.
  - by apply Forall_true.
Qed.

(** A session keeps its checkpoints, its current stage and its status
    while the store is only appended to. *)
Lemma appended_session (store : gmap nat Session.t) calls k session :
  Forall isAppend calls → store !! k = Some session →
  ∃ session',
    foldl applyCall store calls !! k = Some session'
    ∧ Session.checkpoints session' = Session.checkpoints session
    ∧ Session.currentStage session' = Session.currentStage session
    ∧ Session.status session' = Session.status session.
Proof.
  intros Hcalls Hs.
  destruct (calls_follow
              (λ s s', Session.checkpoints s' = Session.checkpoints s
                       ∧ Session.currentStage s' = Session.currentStage s
                       ∧ Session.status s' = Session.status s)
              isAppend k) with (calls := calls) (store := store)
              (session := session) as (session' & Hs' & HR); try done.
  - intros s1 s2 s3 (? & ? & ?) (? & ? & ?). repeat split; congruence.
  - intros c s s' Hc _ He. rewrite callEffect_cases in He. injection He as <-.
    by destruct c.
  - by exists session'.
Qed.

(** One iteration of the loop of [executeWorkflow]. *)
Lemma executeStagesFrom_cancelled n i st :
  Run.status (run st) = WorkflowStatus.CANCELLED →
  executeStagesFrom configs selector world (S n) i st
  = Raised WorkflowCancelled st.
Proof.
  intros Hc. cbn [executeStagesFrom]. unfold bind at 1, getRun.
  by rewrite Hc.
Qed.

Lemma executeStagesFrom_S n i st :
  Run.status (run st) ≠ WorkflowStatus.CANCELLED →
  executeStagesFrom configs selector world (S n) i st
  = match (if i <? 0 then None
             else wf_stages (Run.workflowDef (run st)) !! Z.to_nat i) with
      | None => Raised (TypeError "name") st
      | Some stage =>
        bind (modifyRun (Run.with_currentStageIndex i)) (λ _,
        bind (addLog (stage_started i (stage_name stage))) (λ _,
        bind (executeStage configs selector world stage) (λ _,
        bind getRun (λ r,
        bind uuidv4 (λ checkpointId,
        bind (callSessions
           (λ store,
              match SessionManager.checkpoint checkpointId (Run.sessionId r)
                      (mkCheckpointData i (stage_name stage)
                         (Some (Run.completedAgents r))
                         (Some (mkCheckpointState (i + 1) (Run.context r))))
                      store with
              | Returned (_, store') => Returned (tt, store')
              | Threw e => Threw e
              end)) (λ _,
        executeStagesFrom configs selector world n (i + 1))))))) st
    end.
Proof.
  intros Hnc. cbn [executeStagesFrom]. unfold bind at 1, getRun.
  destruct (Run.status (run st)); try done;
    by destruct (if i <? 0 then None else _).
Qed.

Lemma executeStagesFrom_checkpoints n :
  ∀ i st st' session,
    executeStagesFrom configs selector world n i st = Done tt st' →
    sessions st !! Run.sessionId (run st) = Some session →
    ∃ session' new,
      sessions st' !! Run.sessionId (run st) = Some session'
      ∧ Session.checkpoints session' = Session.checkpoints session ++ new
      ∧ Checkpoint.stageIndex <$> new = seqZ i (Z.of_nat n)
      ∧ Forall (λ cp,
                  stage_name
                  <$> (wf_stages (Run.workflowDef (run st))
                       !! Z.to_nat (Checkpoint.stageIndex cp))
                  = Some (Checkpoint.stageName cp))
               new
      ∧ (n ≠ 0%nat →
         Session.currentStage session' = i + Z.of_nat n
         ∧ Session.completedAgents session' = Run.completedAgents (run st')).
Proof.
  induction n as [|n IH]; intros i st st' session Hrun Hs.
  { injection Hrun as <-. exists session, []. rewrite app_nil_r.
    split; [done|]. split; [done|]. split; [done|]. split; [done|]. done. }
  assert (Hnc : Run.status (run st) ≠ WorkflowStatus.CANCELLED).
  { intros Hc. by rewrite (executeStagesFrom_cancelled _ _ _ Hc) in Hrun. }
  rewrite (executeStagesFrom_S _ _ _ Hnc) in Hrun.
  destruct (i <? 0) eqn:Hi; [done|]. apply Z.ltb_ge in Hi.
  destruct (wf_stages (Run.workflowDef (run st)) !! Z.to_nat i)
    as [stage|] eqn:Hstage; [|done].
  apply bind_Done in Hrun as ([] & st1 & H1 & Hrun).
  unfold modifyRun in H1. injection H1 as <-.
  apply bind_Done in Hrun as ([] & st2 & H2 & Hrun).
  unfold addLog, bind, getRun, modifySessions in H2. cbn in H2.
  injection H2 as <-.
  apply bind_Done in Hrun as ([] & st3 & H3 & Hrun).
  pose proof (stageStep_executeStage stage
                {| sessions :=
                     SessionManager.addLog (Run.sessionId (run st))
                       (stage_started i (stage_name stage)) (sessions st);
                   run := Run.with_currentStageIndex i (run st);
                   uuid := uuid st |}) as Hstep.
  rewrite H3 in Hstep.
  destruct Hstep as [[(calls & Hcalls & Hstore) (_ & Hsid & Hwf)] _].
  cbn in Hstore, Hsid, Hwf.
  apply bind_Done in Hrun as (r & st3' & H4 & Hrun).
  unfold getRun in H4. injection H4 as <- <-.
  apply bind_Done in Hrun as (checkpointId & st4 & H5 & Hrun).
  unfold uuidv4 in H5. injection H5 as <- <-.
  apply bind_Done in Hrun as ([] & st5 & H6 & Hrun).
  unfold callSessions in H6. cbn in H6.
  destruct (appended_session (sessions st)
              (CallAddLog (Run.sessionId (run st))
                 (stage_started i (stage_name stage)) :: calls)
              (Run.sessionId (run st)) session)
    as (session3 & Hs3 & Hcp3 & _); [by constructor|done|].
  simpl in Hs3. rewrite <- Hstore in Hs3.
  unfold SessionManager.checkpoint, SessionManager.getSession in H6.
  rewrite Hsid, Hs3 in H6. injection H6 as <-.
  pose proof Hrun as Hrest.
  eapply IH in Hrest as (session' & new & Hs' & Hcp' & Hidx & Hnames & Hlast);
    [|cbn; rewrite Hsid; by rewrite lookup_insert_eq].
  cbn in Hs', Hcp', Hnames. rewrite Hsid in Hs'. rewrite Hwf in Hnames.
  eexists session', (_ :: new). split; [done|].
  split; [by rewrite Hcp', Hcp3, <- app_assoc|].
  split.
  { cbn. rewrite Hidx.
    rewrite (seqZ_cons i (Z.of_nat (S n))) by lia. do 2 f_equal; lia. }
  split.
  { constructor; [|done]. cbn. by rewrite Hstage. }
  intros _. destruct n as [|n].
  - injection Hrun as <-. cbn in Hs'. rewrite lookup_insert_eq in Hs'.
    injection Hs' as <-. cbn. split; [lia|done].
  - destruct Hlast as [Hstage' Hagents]; [done|]. split; [lia|done].
Qed.

(** X15: when [executeWorkflow] returns, it has appended one checkpoint
    per stage it ran to the session of the run, in stage order, from the
    stage the run started at to the last stage of the workflow, each under
    the name of its stage; if it ran a stage at all, the session's current
    stage is then the number of stages and its completed agents are those
    of the run. *)
Theorem executeWorkflow_checkpoints_every_stage st st' session :
  executeWorkflow configs selector world st = Done tt st' →
  sessions st !! Run.sessionId (run st) = Some session →
  ∃ session' new,
    sessions st' !! Run.sessionId (run st) = Some session'
    ∧ Session.checkpoints session' = Session.checkpoints session ++ new
    ∧ Checkpoint.stageIndex <$> new
      = seqZ (Run.currentStageIndex (run st))
             (Z.of_nat (length (wf_stages (Run.workflowDef (run st))))
              - Run.currentStageIndex (run st))
    ∧ Forall (λ cp,
                stage_name
                <$> (wf_stages (Run.workflowDef (run st))
                     !! Z.to_nat (Checkpoint.stageIndex cp))
                = Some (Checkpoint.stageName cp))
             new
    ∧ (new ≠ [] →
       Session.currentStage session'
       = Z.of_nat (length (wf_stages (Run.workflowDef (run st))))
       ∧ Session.completedAgents session' = Run.completedAgents (run st')).
Proof.
  intros Hrun Hs. unfold executeWorkflow, bind at 1, getRun in Hrun.
  destruct (executeStagesFrom_checkpoints _ _ _ _ _ Hrun Hs)
    as (session' & new & Hs' & Hcp & Hidx & Hnames & Hlast).
  exists session', new. split; [done|]. split; [done|].
  split.
  { rewrite Hidx. unfold seqZ. by rewrite Nat2Z.id. }
  split; [done|].
  intros Hnew.
  destruct (Z.to_nat (Z.of_nat (length (wf_stages (Run.workflowDef (run st))))
                      - Run.currentStageIndex (run st))) as [|n] eqn:Hn.
  { destruct new; [done|]. discriminate Hidx. }
  destruct Hlast as [Hstage Hagents]; [done|]. split; [lia|done].
Qed.

(** *** What a whole run writes *)

Section StoreSteps.
Variable P : Call → Prop.
Hypothesis P_append : ∀ c, isAppend c → P c.
Hypothesis P_checkpoint : ∀ checkpointId sessionId data,
  P (CallCheckpoint checkpointId sessionId data).

Local Abbreviation step := (storeStep P).

Lemma step_ret {A} (Q : A → Prop) a : Q a → keeps step Q (ret a).
Proof. apply keeps_ret, storeStep_refl. Qed.

Lemma step_raise {A} (Q : A → Prop) e : keeps step Q (raise e).
Proof. apply keeps_raise, storeStep_refl. Qed.

Lemma step_bind {A B} (Q1 : A → Prop) (Q2 : B → Prop) (m : M A) k :
  keeps step Q1 m → (∀ a, Q1 a → keeps step Q2 (k a)) →
  keeps step Q2 (bind m k).
Proof. apply keeps_bind, storeStep_trans. Qed.

Lemma step_getRun : keeps step (λ _, True) getRun.
Proof. intros st. split; [apply storeStep_refl|done]. Qed.

Lemma step_uuidv4 : keeps step (λ _, True) uuidv4.
Proof. intros st. split; [|done]. split; [by exists []|done]. Qed.

Lemma step_modifyRun f :
  (∀ r, sameRun r (f r)) → keeps step (λ _, True) (modifyRun f).
Proof.
  intros Hf st. split; [|done]. split; [by exists []|apply Hf].
Qed.

Lemma step_addLog entry : keeps step (λ _, True) (addLog entry).
Proof.
  intros st. split; [|done]. split; [|done].
  eexists [CallAddLog _ _]. split; [|reflexivity].
  constructor; [by apply P_append|done].
Qed.

Lemma step_callSessions {A}
    (f : gmap nat Session.t → Outcome (A * gmap nat Session.t)) :
  (∀ store a store', f store = Returned (a, store') →
                     ∃ c, P c ∧ store' = applyCall store c) →
  keeps step (λ _, True) (callSessions f).
Proof.
  intros Hf st. unfold callSessions.
  destruct (f (sessions st)) as [[a store']|e] eqn:Heq.
  - split; [|done]. split; [|done].
    destruct (Hf _ _ _ Heq) as (c & Hc & ->).
    exists [c]. split; [by constructor|done].
  - apply storeStep_refl.
Qed.

Lemma step_executeStage stage :
  keeps step (λ _, True) (executeStage configs selector world stage).
Proof.
  eapply keeps_mono; [|apply stageStep_executeStage].
  intros st st'. by apply storeStep_mono.
Qed.

Lemma step_checkpoint checkpointId sessionId data :
  keeps step (λ _, True)
    (callSessions
       (λ store,
          match SessionManager.checkpoint checkpointId sessionId data store with
          | Returned (_, store') => Returned (tt, store')
          | Threw e => Threw e
          end)).
Proof.
  apply step_callSessions. intros store [] store' Hcp.
  exists (CallCheckpoint checkpointId sessionId data). split; [done|].
  simpl.
  destruct (SessionManager.checkpoint _ _ _ store) as [[cp store1]|];
    [|discriminate].
  by injection Hcp as <-.
Qed.

Lemma step_executeStagesFrom n i :
  keeps step (λ _, True) (executeStagesFrom configs selector world n i).
Proof.
  revert i. induction n as [|n IH]; intros i; [by apply step_ret|].
  cbn [executeStagesFrom].
  eapply step_bind; [apply step_getRun|]. intros r _.
  destruct (Run.status r); try apply step_raise;
    (destruct (if i <? 0 then None else _) as [stage|]; [|apply step_raise]);
    (eapply step_bind; [by apply step_modifyRun|intros _ _]);
    (eapply step_bind; [apply step_addLog|intros _ _]);
    (eapply step_bind; [apply step_executeStage|intros _ _]);
    (eapply step_bind; [apply step_getRun|intros r' _]);
    (eapply step_bind; [apply step_uuidv4|intros checkpointId _]);
    (eapply step_bind; [apply step_checkpoint|intros _ _]);
    apply IH.
Qed.

Lemma step_executeWorkflow :
  keeps step (λ _, True) (executeWorkflow configs selector world).
Proof.
  unfold executeWorkflow.
  eapply step_bind; [apply step_getRun|].
  intros r _. apply step_executeStagesFrom.
Qed.

Lemma step_createWorkflowBranch :
  keeps step (λ _, True) (createWorkflowBranch world).
Proof.
  unfold createWorkflowBranch.
  eapply step_bind; [apply step_getRun|].
  intros r _. destruct (createBranch _ _); [by apply step_ret|apply step_raise].
Qed.

Lemma step_createPRIfConfigured :
  keeps step (λ _, True) (createPRIfConfigured world).
Proof.
  unfold createPRIfConfigured.
  eapply step_bind; [apply step_getRun|].
  intros r _. destruct (_ && _); [|by apply step_ret].
  unfold createWorkflowPR.
  eapply step_bind; [apply step_getRun|].
  intros r' _. destruct (createPR _ _ _ _ _).
  - eapply step_bind; [by apply step_modifyRun|intros _ _].
    apply step_addLog.
  - destruct (default _ _); [apply step_raise|apply step_addLog].
Qed.

End StoreSteps.

(** A session keeps its error through calls whose patches carry none. *)
Lemma error_kept (store : gmap nat Session.t) calls k session :
  Forall leavesError calls → store !! k = Some session →
  ∃ session',
    foldl applyCall store calls !! k = Some session'
    ∧ Session.error session' = Session.error session.
Proof.
  intros Hcalls Hs.
  destruct (calls_follow
              (λ s s', Session.error s' = Session.error s)
              leavesError k) with (calls := calls) (store := store)
              (session := session) as (session' & Hs' & HR); try done.
  - intros s1 s2 s3 ? ?. congruence.
  - intros c s s' Hc _ He. rewrite callEffect_cases in He. injection He as <-.
    destruct c as [sid status updates|cid sid data|sid entry|sid rec|sid];
      simpl in Hc |- *; try done.
    + by rewrite Hc.
    + destruct (bool_decide _); [done|]. by destruct (_ && _).
  - by exists session'.
Qed.

(** The end of a run that went through: the run and its session are
    marked completed, and the session holds the result. *)
Lemma markCompleted_Done sessionId withBranch st st' :
  markCompleted sessionId withBranch st = Done tt st' →
  ∃ session,
    sessions st !! sessionId = Some session
    ∧ run st' = Run.with_status WorkflowStatus.COMPLETED (run st)
    ∧ sessions st'
      = <[sessionId :=
            SessionManager.assign
              (resultUpdate
                 (mkRunResult (Run.id (run st))
                    (if withBranch then Run.gitBranch (run st) else None)))
              (Session.with_status SessionStatus.COMPLETED session)]>
          (sessions st).
Proof.
  unfold markCompleted, bind, modifyRun, getRun, callSessions. cbn.
  unfold SessionManager.markCompleted, SessionManager.updateStatus,
    SessionManager.getSession.
  destruct (sessions st !! sessionId) as [session|]; [|done].
  intros [= <-]. by exists session.
Qed.

Lemma failRun_not_Done sessionId error st a st' :
  failRun sessionId error st ≠ Done a st'.
Proof.
  unfold failRun, bind, modifyRun, callSessions, raise. cbn.
  by destruct (SessionManager.markFailed _ _ _) as [?|?].
Qed.

(** X16: when [startWorkflow] returns, the run is completed and the
    session it created is marked completed, with the identifier and the
    branch of the run as its result and without an error. *)
Theorem started_workflow_completes definition context options store uid st' :
  startWorkflow configs workflows selector world
    definition context options store uid = Ran (Done tt st') →
  Run.status (run st') = WorkflowStatus.COMPLETED
  ∧ Run.sessionId (run st') = uid
  ∧ ∃ session,
      sessions st' !! uid = Some session
      ∧ Session.status session = SessionStatus.COMPLETED
      ∧ Session.result session
        = Some (mkRunResult (Run.id (run st')) (Run.gitBranch (run st')))
      ∧ Session.error session = None.
Proof.
  intros Hstart. unfold startWorkflow in Hstart.
  destruct (startRun workflows definition context options store uid)
    as [st0|e0] eqn:Hst0; [|discriminate].
  assert (Hs0 : Run.sessionId (run st0) = uid
                ∧ ∃ session0, sessions st0 !! uid = Some session0
                              ∧ Session.error session0 = None).
  { unfold startRun in Hst0.
    destruct (match definition with inl _ => _ | inr _ => _ end);
      [|discriminate].
    injection Hst0 as <-. cbn. split; [done|].
    unfold SessionManager.addLog, SessionManager.getSession.
    rewrite lookup_insert_eq, lookup_insert_eq. by eexists. }
  destruct Hs0 as [Hsid (session0 & Hs0 & Herr0)].
  injection Hstart as Hstart. unfold tryCatch in Hstart.
  rewrite Hsid in Hstart.
  match type of Hstart with
  | match ?body st0 with _ => _ end = _ =>
    destruct (body st0) as [[] st1|e1 st1|] eqn:Hbody;
      [|by apply failRun_not_Done in Hstart|discriminate]
  end.
  injection Hstart as ->.
  apply bind_Done in Hbody as ([] & st1 & H1 & Hbody).
  apply bind_Done in Hbody as ([] & st2 & H2 & Hbody).
  apply bind_Done in Hbody as ([] & st3 & H3 & Hbody).
  apply markCompleted_Done in Hbody as (session3 & Hs3 & Hrun & Hstore).
  assert (Hstep : storeStep leavesError st0 st3).
  { eapply storeStep_trans; [|eapply storeStep_trans].
    - destruct (bool_decide _).
      + injection H1 as <-. apply storeStep_refl.
      + apply bind_Done in H1 as (branch & st1' & Hb & Hm).
        pose proof (step_createWorkflowBranch leavesError st0) as Hk.
        rewrite Hb in Hk. destruct Hk as [Hk _].
        eapply storeStep_trans; [exact Hk|].
        unfold modifyRun in Hm. injection Hm as <-.
        split; [by exists []|done].
    - pose proof (step_executeWorkflow leavesError) as Hk.
      specialize (Hk ltac:(by intros []) ltac:(done) st1).
      rewrite H2 in Hk. by destruct Hk.
    - pose proof (step_createPRIfConfigured leavesError) as Hk.
      specialize (Hk ltac:(by intros []) st2).
      rewrite H3 in Hk. by destruct Hk. }
  destruct Hstep as [(calls & Hcalls & Hstore3) (_ & Hsid3 & _)].
  destruct (error_kept _ calls uid session0 Hcalls Hs0) as (s3 & Hs3' & Herr3).
  rewrite <- Hstore3, Hs3 in Hs3'. injection Hs3' as <-.
  rewrite Hrun, Hstore. cbn. rewrite Hsid3, Hsid.
  split; [done|]. split; [done|].
  rewrite lookup_insert_eq. eexists. split; [done|]. cbn.
  split; [done|]. split; [done|]. by rewrite Herr3.
Qed.

(** X17: when [resumeWorkflow] returns, the run is completed and the
    session is marked completed with the identifier of the new run as its
    result (no branch is recorded); the error the session held from the
    earlier failure is still there. *)
Theorem resumed_workflow_completes sessionId store uid session st' :
  store !! sessionId = Some session →
  resumeWorkflow configs workflows selector world sessionId store uid
  = Ran (Done tt st') →
  Run.status (run st') = WorkflowStatus.COMPLETED
  ∧ Run.id (run st') = uid
  ∧ ∃ session',
      sessions st' !! sessionId = Some session'
      ∧ Session.status session' = SessionStatus.COMPLETED
      ∧ Session.result session' = Some (mkRunResult uid None)
      ∧ Session.error session' = Session.error session.
Proof.
  intros Hs Hresume. unfold resumeWorkflow in Hresume.
  destruct (resumeRun workflows sessionId store uid) as [[st0|e0] store0]
    eqn:Hst0; [|discriminate].
  assert (H0 : Run.id (run st0) = uid
               ∧ ∃ session0, sessions st0 !! sessionId = Some session0
                             ∧ Session.error session0 = Session.error session).
  { unfold resumeRun, SessionManager.restore in Hst0. rewrite Hs in Hst0.
    destruct (bool_decide _); [discriminate|].
    destruct (_ && _); [discriminate|].
    destruct (getWorkflow _ _); [|discriminate].
    injection Hst0 as <- <-. cbn. split; [done|].
    rewrite lookup_insert_eq. by eexists. }
  destruct H0 as [Hid (session0 & Hs0 & Herr0)].
  injection Hresume as Hresume. unfold tryCatch in Hresume.
  match type of Hresume with
  | match ?body st0 with _ => _ end = _ =>
    destruct (body st0) as [[] st1|e1 st1|] eqn:Hbody;
      [|by apply failRun_not_Done in Hresume|discriminate]
  end.
  injection Hresume as ->.
  apply bind_Done in Hbody as ([] & st2 & H2 & Hbody).
  apply bind_Done in Hbody as ([] & st3 & H3 & Hbody).
  apply markCompleted_Done in Hbody as (session3 & Hs3 & Hrun & Hstore).
  assert (Hstep : storeStep leavesError st0 st3).
  { eapply storeStep_trans.
    - pose proof (step_executeWorkflow leavesError) as Hk.
      specialize (Hk ltac:(by intros []) ltac:(done) st0).
      rewrite H2 in Hk. by destruct Hk.
    - pose proof (step_createPRIfConfigured leavesError) as Hk.
      specialize (Hk ltac:(by intros []) st2).
      rewrite H3 in Hk. by destruct Hk. }
  destruct Hstep as [(calls & Hcalls & Hstore3) (Hid3 & _ & _)].
  destruct (error_kept _ calls sessionId session0 Hcalls Hs0)
    as (s3 & Hs3' & Herr3).
  rewrite <- Hstore3, Hs3 in Hs3'. injection Hs3' as <-.
  rewrite Hid in Hid3.
  rewrite Hrun, Hstore. cbn. split; [done|]. split; [done|].
  rewrite lookup_insert_eq. eexists. split; [done|]. cbn.
  split; [done|]. split; [by rewrite Hid3|]. by rewrite Herr3, Herr0.
Qed.

(** *** A completed agent is not run again *)

Lemma noAttempt_refl agentType st : noAttempt agentType st st.
Proof. by split. Qed.

Lemma noAttempt_trans agentType st1 st2 st3 :
  noAttempt agentType st1 st2 → noAttempt agentType st2 st3 →
  noAttempt agentType st1 st3.
Proof. intros [H1 K1] [H2 K2]. split; [congruence|tauto]. Qed.

Lemma setAdd_keeps x y l : x ∈ l → x ∈ setAdd y l.
Proof.
  intros Hx. unfold setAdd. destruct (bool_decide _); [done|].
  apply elem_of_app. by left.
Qed.

Lemma noAttempt_spawn agentType other :
  other ≠ agentType →
  keeps (noAttempt agentType) (λ p, pen_agentType p ≠ agentType)
    (spawn configs selector other).
Proof.
  intros Hne st. unfold spawn, bind, uuidv4, getRun, modifyRun, addLog,
    modifySessions, ret. cbn.
  split; [|done]. split; [|done].
  unfold attemptsOf. cbn [run Run.agentExecutions Run.with_agentExecutions].
  rewrite attemptsIn_app, length_app. unfold attemptsIn at 2. simpl.
  rewrite bool_decide_eq_false_2 by done. simpl. lia.
Qed.

Lemma noAttempt_complete agentType p output :
  keeps (noAttempt agentType) (λ _, True) (complete world p output).
Proof.
  intros st. unfold complete, bind, getRun, modifyRun, recordAgentExecution,
    modifySessions. cbn.
  split; [|done]. split.
  - unfold attemptsOf.
    cbn [run Run.agentExecutions Run.with_agentExecutions
         Run.with_completedAgents Run.with_context].
    by apply attemptsIn_update_length.
  - cbn. apply setAdd_keeps.
Qed.

Lemma noAttempt_fail agentType p error :
  keeps (noAttempt agentType) (λ _, True) (fail configs world p error).
Proof.
  intros st. unfold fail, bind, getRun, modifyRun, recordAgentExecution,
    modifySessions, addLog, stuck, raise, ret. cbn.
  assert (Hlen : ∀ l,
    length (attemptsIn agentType
              (updateExecution (pen_executionId p)
                 (λ e, mkAgentExecution (exe_id e) (exe_agentType e)
                         AgentStatus.FAILED (exe_output e) (Some error)
                         (exe_model e)) l))
    = length (attemptsIn agentType l)).
  { intros l. by apply attemptsIn_update_length. }
  destruct (retriesOf _ _) as [retries|]; [|done].
  destruct (getAgentConfig _ _) as [agentConfig|].
  - destruct (_ <? _); (split; [|done]); (split; [apply Hlen|done]).
  - split; [apply Hlen|done].
Qed.

(** X18: [executeStage] leaves the agents that are already completed
    alone: whether the stage returns or throws, no execution of such an
    agent has been added to the run and the agent is still completed; a
    stage whose agents are all completed does nothing at all. *)
Theorem executeStage_skips_completed stage st agentType :
  agentType ∈ Run.completedAgents (run st) →
  match executeStage configs selector world stage st with
  | Done _ st' | Raised _ st' =>
    length (attemptsOf agentType (run st'))
    = length (attemptsOf agentType (run st))
    ∧ agentType ∈ Run.completedAgents (run st')
  | Stuck => True
  end
  ∧ (Forall (λ a, a ∈ Run.completedAgents (run st)) (stage_agents stage) →
     executeStage configs selector world stage st = Done tt st).
Proof.
  intros Hdone. split.
  - unfold executeStage, bind at 1, getRun.
    destruct (filter _ _) as [|agent agents] eqn:Hf; [done|].
    assert (Hok : Forall (λ a, a ≠ agentType) (agent :: agents)).
    { rewrite <- Hf. apply Forall_forall. intros a Ha ->.
      apply list_elem_of_filter in Ha as [Hn _]. done. }
    pose proof (keeps_stage_agents configs selector world
                  (noAttempt agentType) (noAttempt_refl agentType)
                  (noAttempt_trans agentType) (λ a, a ≠ agentType)
                  (noAttempt_spawn agentType)
                  (λ p output _, noAttempt_complete agentType p output)
                  (λ p error _, noAttempt_fail agentType p error)
                  (stage_executionMode stage)
                  (sum_list (map (attemptBudget configs (Run.context (run st)))
                                 (agent :: agents)))
                  (agent :: agents) Hok st) as Hk.
    destruct (stage_executionMode stage);
      match goal with
      | |- match ?x with _ => _ end =>
        destruct x as [[] st'|e st'|]; [| |done]
      end.
    + destruct Hk as [[Hlen Hc] _]. split; [done|by apply Hc].
    + destruct Hk as [Hlen Hc]. split; [done|by apply Hc].
    + destruct Hk as [[Hlen Hc] _]. split; [done|by apply Hc].
    + destruct Hk as [Hlen Hc]. split; [done|by apply Hc].
  - intros Hall. unfold executeStage, bind at 1, getRun.
    replace (filter (λ a, a ∉ Run.completedAgents (run st)) (stage_agents stage))
      with (@nil string); [done|].
    symmetry. induction Hall as [|a l Ha _ IH]; [done|].
    rewrite filter_cons_False by (intros Hn; by apply Hn). exact IH.
Qed.

(** *** Cancelling a run *)

(** X19: [cancelWorkflow] on a registered run whose session is stored
    returns: the run is removed from the registry (a second cancel throws
    the run-not-found error), its session is marked failed with the
    workflow-cancelled error and no other session changes, and the session
    can then be resumed exactly when it has a checkpoint or a completed
    agent. The run itself is left cancelled, so that [executeWorkflow]
    throws the workflow-cancelled error, without any effect, as soon as it
    comes to its next stage. *)
Theorem cancelWorkflow_fails_session runId activeRuns store r session :
  activeRuns !! runId = Some r →
  store !! Run.sessionId r = Some session →
  ∃ store',
    cancelWorkflow runId activeRuns store
    = (None, delete runId activeRuns, store')
    ∧ store'
      = <[Run.sessionId r :=
            Session.with_error (Some WorkflowCancelled)
              (Session.with_status SessionStatus.FAILED session)]> store
    ∧ (cancelWorkflow runId (delete runId activeRuns) store').1.1
      = Some (RunNotFound runId)
    ∧ (SessionManager.isResumable store' (Run.sessionId r) = true
       ↔ Session.checkpoints session ≠ []
         ∨ Session.completedAgents session ≠ [])
    ∧ ∀ store0 uuid0,
        Run.currentStageIndex r
        < Z.of_nat (length (wf_stages (Run.workflowDef r))) →
        executeWorkflow configs selector world
          (mkSt store0
             (Run.with_agentExecutions
                (map cancelExecution (Run.agentExecutions r))
                (Run.with_status WorkflowStatus.CANCELLED r))
             uuid0)
        = Raised WorkflowCancelled
            (mkSt store0
               (Run.with_agentExecutions
                  (map cancelExecution (Run.agentExecutions r))
                  (Run.with_status WorkflowStatus.CANCELLED r))
               uuid0).
Proof.
  intros Hr Hs. eexists. split; [|split; [reflexivity|]].
  { unfold cancelWorkflow. rewrite Hr. cbn.
    unfold SessionManager.markFailed, SessionManager.updateStatus,
      SessionManager.getSession.
    by rewrite Hs. }
  split.
  { unfold cancelWorkflow. by rewrite lookup_delete_eq. }
  split.
  { unfold SessionManager.isResumable, SessionManager.getSession.
    rewrite lookup_insert_eq.
    assert (Hlen : ∀ {A} (l : list A), (0 <? length l)%nat = true ↔ l ≠ []).
    { intros A l. rewrite Nat.ltb_lt. destruct l; simpl; split; (done || lia). }
    change (Session.status
              (Session.with_error (Some WorkflowCancelled)
                 (Session.with_status SessionStatus.FAILED session)))
      with SessionStatus.FAILED.
    change (Session.checkpoints
              (Session.with_error (Some WorkflowCancelled)
                 (Session.with_status SessionStatus.FAILED session)))
      with (Session.checkpoints session).
    change (Session.completedAgents
              (Session.with_error (Some WorkflowCancelled)
                 (Session.with_status SessionStatus.FAILED session)))
      with (Session.completedAgents session).
    rewrite bool_decide_eq_true_2 by done.
    rewrite andb_true_iff, !orb_true_iff, !Hlen. tauto. }
  intros store0 uuid0 Hleft.
  unfold executeWorkflow, bind at 1, getRun. cbn.
  destruct (Z.to_nat (Z.of_nat (length (wf_stages (Run.workflowDef r)))
                      - Run.currentStageIndex r)) as [|n] eqn:Hn; [lia|].
  by apply executeStagesFrom_cancelled.
Qed.

(** X20: when the session of the run is not stored, [cancelWorkflow]
    throws the session-not-found error after it has marked the run
    cancelled: the run stays in the registry, cancelled, and its session
    still counts as having an active run. *)
Theorem cancelWorkflow_without_session runId activeRuns store r :
  activeRuns !! runId = Some r →
  store !! Run.sessionId r = None →
  ∃ activeRuns' r',
    cancelWorkflow runId activeRuns store
    = (Some (SessionError (SessionNotFound (Run.sessionId r))),
       activeRuns', store)
    ∧ activeRuns' !! runId = Some r'
    ∧ Run.status r' = WorkflowStatus.CANCELLED
    ∧ hasActiveRun activeRuns' (Run.sessionId r) = true.
Proof.
  intros Hr Hs. eexists _, _. split; [|split; [|split]].
  - unfold cancelWorkflow. rewrite Hr. cbn.
    unfold SessionManager.markFailed, SessionManager.updateStatus,
      SessionManager.getSession.
    by rewrite Hs.
  - by rewrite lookup_insert_eq.
  - done.
  - unfold hasActiveRun. apply bool_decide_eq_true.
    eexists runId, _. split; [by rewrite lookup_insert_eq|done].
Qed.

End EngineFurther.

(** *** The further properties on sample runs *)

Section EngineFurtherOnSamples.
Import WorkflowEngine.

Lemma executeWorkflow_checkpoints_every_stage_witness :
  ∃ st' session' new,
    executeWorkflow AGENT_CONFIGS ModelSelector.defaultOptions (Sample.world [])
      Sample.state = Done tt st'
    ∧ sessions st' !! Run.sessionId (run Sample.state) = Some session'
    ∧ Session.checkpoints session' = Session.checkpoints Sample.session ++ new
    ∧ Checkpoint.stageIndex <$> new
      = seqZ (Run.currentStageIndex (run Sample.state))
             (Z.of_nat (length (wf_stages (Run.workflowDef (run Sample.state))))
              - Run.currentStageIndex (run Sample.state))
    ∧ Forall (λ cp,
                stage_name
                <$> (wf_stages (Run.workflowDef (run Sample.state))
                     !! Z.to_nat (Checkpoint.stageIndex cp))
                = Some (Checkpoint.stageName cp))
             new
    ∧ (new ≠ [] →
       Session.currentStage session'
       = Z.of_nat (length (wf_stages (Run.workflowDef (run Sample.state))))
       ∧ Session.completedAgents session' = Run.completedAgents (run st')).
Proof.
  pose proof (executeWorkflow_checkpoints_every_stage AGENT_CONFIGS
                ModelSelector.defaultOptions (Sample.world []) Sample.state)
    as H.
  remember (executeWorkflow AGENT_CONFIGS ModelSelector.defaultOptions
              (Sample.world []) Sample.state) as x eqn:Hx.
  vm_compute in Hx. subst x.
  eexists. destruct (H _ Sample.session eq_refl eq_refl) as (session' & new & Hs).
  exists session', new. split; [reflexivity|exact Hs].
Defined.

Lemma started_workflow_completes_witness :
  ∃ st',
    startWorkflow AGENT_CONFIGS PREDEFINED_WORKFLOWS ModelSelector.defaultOptions
      (Sample.world []) (inl "CODE_REVIEW") Sample.context
      (mkRunOptions None) ∅ 0 = Ran (Done tt st')
    ∧ Run.status (run st') = WorkflowStatus.COMPLETED
    ∧ Run.sessionId (run st') = 0%nat
    ∧ ∃ session,
        sessions st' !! 0%nat = Some session
        ∧ Session.status session = SessionStatus.COMPLETED
        ∧ Session.result session
          = Some (mkRunResult (Run.id (run st')) (Run.gitBranch (run st')))
        ∧ Session.error session = None.
Proof.
  pose proof (started_workflow_completes AGENT_CONFIGS PREDEFINED_WORKFLOWS
                ModelSelector.defaultOptions (Sample.world [])
                (inl "CODE_REVIEW") Sample.context (mkRunOptions None) ∅ 0%nat)
    as H.
  remember (startWorkflow AGENT_CONFIGS PREDEFINED_WORKFLOWS
              ModelSelector.defaultOptions (Sample.world [])
              (inl "CODE_REVIEW") Sample.context (mkRunOptions None) ∅ 0)
    as x eqn:Hx.
  vm_compute in Hx. subst x.
  eexists. split; [reflexivity|]. exact (H _ eq_refl).
Defined.

Lemma resumed_workflow_completes_witness :
  ∃ st',
    resumeWorkflow AGENT_CONFIGS PREDEFINED_WORKFLOWS ModelSelector.defaultOptions
      (Sample.world []) 0 {[0%nat := SampleFurther.interrupted]} 5
    = Ran (Done tt st')
    ∧ Run.status (run st') = WorkflowStatus.COMPLETED
    ∧ Run.id (run st') = 5%nat
    ∧ ∃ session',
        sessions st' !! 0%nat = Some session'
        ∧ Session.status session' = SessionStatus.COMPLETED
        ∧ Session.result session' = Some (mkRunResult 5 None)
        ∧ Session.error session' = Session.error SampleFurther.interrupted.
Proof.
  pose proof (resumed_workflow_completes AGENT_CONFIGS PREDEFINED_WORKFLOWS
                ModelSelector.defaultOptions (Sample.world []) 0%nat
                {[0%nat := SampleFurther.interrupted]} 5%nat
                SampleFurther.interrupted) as H.
  remember (resumeWorkflow AGENT_CONFIGS PREDEFINED_WORKFLOWS
              ModelSelector.defaultOptions (Sample.world []) 0
              {[0%nat := SampleFurther.interrupted]} 5) as x eqn:Hx.
  vm_compute in Hx. subst x.
  eexists. split; [reflexivity|]. exact (H _ eq_refl eq_refl).
Defined.

Lemma executeStage_skips_completed_witness :
  match executeStage AGENT_CONFIGS ModelSelector.defaultOptions (Sample.world [])
          (mkStage "Validation" [AgentType.TEST; AgentType.CQR]
             StageExecutionMode.PARALLEL ["Refactoring"])
          SampleFurther.validating with
  | Done _ st' | Raised _ st' =>
    length (attemptsOf "CQR" (run st'))
    = length (attemptsOf "CQR" (run SampleFurther.validating))
    ∧ "CQR" ∈ Run.completedAgents (run st')
  | Stuck => True
  end
  ∧ (Forall (λ a, a ∈ Run.completedAgents (run SampleFurther.validating))
            (stage_agents
               (mkStage "Validation" [AgentType.TEST; AgentType.CQR]
                  StageExecutionMode.PARALLEL ["Refactoring"])) →
     executeStage AGENT_CONFIGS ModelSelector.defaultOptions (Sample.world [])
       (mkStage "Validation" [AgentType.TEST; AgentType.CQR]
          StageExecutionMode.PARALLEL ["Refactoring"])
       SampleFurther.validating
     = Done tt SampleFurther.validating).
Proof.
  apply (executeStage_skips_completed AGENT_CONFIGS ModelSelector.defaultOptions
           (Sample.world [])
           (mkStage "Validation" [AgentType.TEST; AgentType.CQR]
              StageExecutionMode.PARALLEL ["Refactoring"])
           SampleFurther.validating "CQR").
  simpl. rewrite !elem_of_cons. tauto.
Defined.

Lemma cancelWorkflow_fails_session_witness :
  ∃ store',
    cancelWorkflow 1 {[1%nat := Sample.run]} {[0%nat := Sample.session]}
    = (None, delete 1%nat {[1%nat := Sample.run]}, store')
    ∧ store'
      = <[Run.sessionId Sample.run :=
            Session.with_error (Some WorkflowCancelled)
              (Session.with_status SessionStatus.FAILED Sample.session)]>
          {[0%nat := Sample.session]}
    ∧ (cancelWorkflow 1 (delete 1%nat {[1%nat := Sample.run]}) store').1.1
      = Some (RunNotFound 1)
    ∧ (SessionManager.isResumable store' (Run.sessionId Sample.run) = true
       ↔ Session.checkpoints Sample.session ≠ []
         ∨ Session.completedAgents Sample.session ≠ [])
    ∧ ∀ store0 uuid0,
        Run.currentStageIndex Sample.run
        < Z.of_nat (length (wf_stages (Run.workflowDef Sample.run))) →
        executeWorkflow AGENT_CONFIGS ModelSelector.defaultOptions
          (Sample.world [])
          (mkSt store0
             (Run.with_agentExecutions
                (map cancelExecution (Run.agentExecutions Sample.run))
                (Run.with_status WorkflowStatus.CANCELLED Sample.run))
             uuid0)
        = Raised WorkflowCancelled
            (mkSt store0
               (Run.with_agentExecutions
                  (map cancelExecution (Run.agentExecutions Sample.run))
                  (Run.with_status WorkflowStatus.CANCELLED Sample.run))
               uuid0).
Proof.
  apply (cancelWorkflow_fails_session AGENT_CONFIGS ModelSelector.defaultOptions
           (Sample.world []) 1%nat {[1%nat := Sample.run]}
           {[0%nat := Sample.session]} Sample.run Sample.session).
  - reflexivity.
  - reflexivity.
Defined.

Lemma cancelWorkflow_without_session_witness :
  ∃ activeRuns' r',
    cancelWorkflow 1 {[1%nat := Sample.run]} ∅
    = (Some (SessionError (SessionNotFound (Run.sessionId Sample.run))),
       activeRuns', ∅)
    ∧ activeRuns' !! 1%nat = Some r'
    ∧ Run.status r' = WorkflowStatus.CANCELLED
    ∧ hasActiveRun activeRuns' (Run.sessionId Sample.run) = true.
Proof.
  apply (cancelWorkflow_without_session 1%nat {[1%nat := Sample.run]} ∅
           Sample.run).
  - reflexivity.
  - reflexivity.
Defined.

End EngineFurtherOnSamples.

(** ** Task store: identifiers and life cycle *)

Section TaskIds.

Lemma readDigits_uint d :
  ∀ a, readDigits (DecimalString.NilEmpty.string_of_uint d) (Some a)
       = Some (Nat.of_uint_acc d a).
Proof.
  induction d; intros a;
    cbn [DecimalString.NilEmpty.string_of_uint readDigits Nat.of_uint_acc];
    [done|..];
    match goal with
    | |- context [digitValue ?c] =>
      let v := eval vm_compute in (digitValue c) in
      change (digitValue c) with v
    end;
    cbn beta iota; rewrite IHd; do 2 f_equal; rewrite Nat.tail_mul_spec;
    cbn [from_option id]; lia.
Qed.

Lemma readDigits_zeros k s acc :
  default 0%nat acc = 0%nat → (0 < k)%nat →
  readDigits (Nat.iter k (String "0"%char) s) acc = readDigits s (Some 0%nat).
Proof.
  intros Hacc Hk. revert acc Hacc.
  induction k as [|k IH]; intros acc Hacc; [lia|].
  rewrite Nat.iter_succ. cbn [readDigits].
  change (digitValue "0"%char) with (Some 0%nat). cbn beta iota.
  rewrite Hacc.
  destruct k as [|k]; [done|]. apply IH; [lia|done].
Qed.

Lemma parseTaskId_cons c rest :
  parseTaskId (String c rest)
  = if String.prefix "TASK-" (String c rest)
    then match readDigits (dropString 5 (String c rest)) None with
         | Some n => n
         | None => parseTaskId rest
         end
    else parseTaskId rest.
Proof. reflexivity. Qed.

Lemma parseTaskId_generateTaskId n : parseTaskId (generateTaskId n) = n.
Proof.
  assert (Hread : readDigits (padStart4 (decimal n)) None = Some n).
  2: { unfold generateTaskId.
       change ("TASK-" +:+ padStart4 (decimal n))
         with (String "T"%char ("ASK-" +:+ padStart4 (decimal n))).
       rewrite parseTaskId_cons.
       replace (String.prefix "TASK-"
                  (String "T"%char ("ASK-" +:+ padStart4 (decimal n))))
         with true
         by (unfold String.append; cbn; by destruct (padStart4 _)).
       change (dropString 5 (String "T"%char ("ASK-" +:+ padStart4 (decimal n))))
         with (padStart4 (decimal n)).
       by rewrite Hread. }
  unfold padStart4, decimal.
  destruct (4 - String.length (DecimalString.NilEmpty.string_of_uint (Nat.to_uint n)))%nat
    as [|k] eqn:Hk.
  - change (Nat.iter 0 ?f ?x) with x. pose proof (DecimalNat.Unsigned.of_to n) as Hn.
    destruct (Nat.to_uint n) as [|d|d|d|d|d|d|d|d|d|d]; [done|..];
      cbn [DecimalString.NilEmpty.string_of_uint readDigits];
      match goal with
      | |- context [digitValue ?c] =>
        let v := eval vm_compute in (digitValue c) in
        change (digitValue c) with v
      end;
      cbn beta iota; rewrite readDigits_uint; f_equal; rewrite <- Hn; done.
  - rewrite readDigits_zeros by (done || lia).
    rewrite readDigits_uint. f_equal. apply DecimalNat.Unsigned.of_to.
Qed.

End TaskIds.

Section TaskStore.
Import TaskManager.
Implicit Types (tm : TaskManager.t) (task : Task.t)
  (store : gmap string Task.t).

(** *** Loops over the table *)

Lemma foldl_alter_ne (f : Task.t → Task.t) l store i :
  i ∉ l → foldl (λ m k, alter f k m) store l !! i = store !! i.
Proof.
  revert store. induction l as [|k l IH]; intros store Hi; [done|].
  apply not_elem_of_cons in Hi as [Hne Hi]. simpl.
  rewrite IH by done. by rewrite lookup_alter_ne.
Qed.

Lemma foldl_alter_idem (f : Task.t → Task.t) l store i :
  (∀ x, f (f x) = f x) → i ∈ l →
  foldl (λ m k, alter f k m) store l !! i = f <$> store !! i.
Proof.
  intros Hf. revert store. induction l as [|k l IH]; intros store Hi.
  { by apply elem_of_nil in Hi. }
  simpl. destruct (decide (i ∈ l)) as [Hin|Hnin].
  - rewrite IH by done. destruct (decide (k = i)) as [->|Hne].
    + rewrite lookup_alter_eq. destruct (store !! i); simpl; [|done].
      by rewrite Hf.
    + by rewrite lookup_alter_ne.
  - apply elem_of_cons in Hi as [->|Hi]; [|done].
    rewrite foldl_alter_ne by done. by rewrite lookup_alter_eq.
Qed.

Lemma foldl_alter_lookup (f : Task.t → Task.t) l store i :
  (∀ x, f (f x) = f x) →
  foldl (λ m k, alter f k m) store l !! i
  = (if decide (i ∈ l) then f else id) <$> store !! i.
Proof.
  intros Hf. destruct (decide (i ∈ l)).
  - by apply foldl_alter_idem.
  - rewrite foldl_alter_ne by done. by destruct (store !! i).
Qed.

Lemma unblock_idem completedTaskId task :
  unblock completedTaskId (unblock completedTaskId task)
  = unblock completedTaskId task.
Proof.
  unfold unblock.
  destruct ((length (filter (λ id, id ≠ completedTaskId) (Task.blocked_by task))
             =? 0)%nat
            && bool_decide (Task.status
                              (Task.with_blocked_by
                                 (filter (λ id, id ≠ completedTaskId)
                                         (Task.blocked_by task)) task)
                            = TaskStatus.BLOCKED)) eqn:Hc; cbn.
  - rewrite list_filter_filter_l by done. by rewrite andb_false_r.
  - rewrite list_filter_filter_l by done. cbn in Hc. by rewrite Hc.
Qed.

Lemma addBlocking_idem taskId depTask :
  addBlocking taskId (addBlocking taskId depTask) = addBlocking taskId depTask.
Proof.
  unfold addBlocking.
  destruct (bool_decide (taskId ∈ Task.blocking depTask)) eqn:Hb;
    [by rewrite Hb|].
  cbn. rewrite bool_decide_eq_true_2; [done|].
  apply elem_of_app. right. by left.
Qed.

(** *** [updateBlockingRelationships] *)

(** The loop over the dependencies of a task that is not stored yet. *)
Lemma blocking_loop deps :
  ∀ task store task' store',
    foldl (λ '(task, tasks) depId,
             match tasks !! depId with
             | Some depTask =>
               if bool_decide (Task.status depTask ≠ TaskStatus.COMPLETED)
               then
                 (Task.with_blocked_by (Task.blocked_by task ++ [depId]) task,
                  if bool_decide (Task.id task ∈ Task.blocking depTask)
                  then tasks
                  else <[depId := Task.with_blocking
                                    (Task.blocking depTask ++ [Task.id task])
                                    depTask]> tasks)
               else (task, tasks)
             | None => (task, tasks)
             end)
          (task, store) deps = (task', store') →
    task' = Task.with_blocked_by
              (Task.blocked_by task
               ++ filter (λ d, unfinished store d = true) deps) task
    ∧ ∀ k, store' !! k
           = (if decide (k ∈ filter (λ d, unfinished store d = true) deps)
              then addBlocking (Task.id task) else id) <$> store !! k.
Proof.
  induction deps as [|d deps IH]; intros task store task' store' Hfold.
  { injection Hfold as <- <-. rewrite app_nil_r. split; [by destruct task|].
    intros k. by destruct (store !! k). }
  cbn [foldl] in Hfold.
  assert (Hstatus : ∀ store1,
    (∀ k, Task.status <$> store1 !! k = Task.status <$> store !! k) →
    ∀ x, unfinished store1 x = unfinished store x).
  { intros store1 Hs x. unfold unfinished. specialize (Hs x).
    destruct (store1 !! x), (store !! x); simpl in Hs;
      try done; by injection Hs as ->. }
  destruct (store !! d) as [depTask|] eqn:Hd.
  - destruct (bool_decide (Task.status depTask ≠ TaskStatus.COMPLETED)) eqn:Hnc.
    + apply IH in Hfold as [-> Hstore].
      cbn [Task.blocked_by Task.with_blocked_by Task.id] in Hstore |- *.
      assert (Hun : unfinished store d = true)
        by (unfold unfinished; by rewrite Hd).
      rewrite filter_cons_True by done.
      assert (Hsame : ∀ x,
        unfinished
          (if bool_decide (Task.id task ∈ Task.blocking depTask)
           then store
           else <[d := Task.with_blocking
                         (Task.blocking depTask ++ [Task.id task]) depTask]>
                  store) x
        = unfinished store x).
      { apply Hstatus. intros k.
        destruct (bool_decide (Task.id task ∈ Task.blocking depTask)); [done|].
        destruct (decide (d = k)) as [->|Hne].
        - by rewrite lookup_insert_eq, Hd.
        - by rewrite lookup_insert_ne. }
      split.
      { rewrite <- app_assoc.
        rewrite (list_filter_iff _ (λ d, unfinished store d = true))
          by (intros x; by rewrite Hsame).
        reflexivity. }
      intros k. rewrite Hstore.
      rewrite (list_filter_iff _ (λ d, unfinished store d = true))
        by (intros x; by rewrite Hsame).
      destruct (decide (k = d)) as [->|Hne].
      * rewrite (decide_True (P := d ∈ d :: _)) by by left.
        assert (Hl : (if bool_decide (Task.id task ∈ Task.blocking depTask)
                      then store
                      else <[d := Task.with_blocking
                                    (Task.blocking depTask ++ [Task.id task])
                                    depTask]> store) !! d
                     = Some (addBlocking (Task.id task) depTask)).
        { unfold addBlocking.
          destruct (bool_decide (Task.id task ∈ Task.blocking depTask));
            [done|].
          by rewrite lookup_insert_eq. }
        rewrite Hl, Hd. cbn. destruct (decide _); [|done].
        by rewrite addBlocking_idem.
      * assert (Hl : (if bool_decide (Task.id task ∈ Task.blocking depTask)
                      then store
                      else <[d := Task.with_blocking
                                    (Task.blocking depTask ++ [Task.id task])
                                    depTask]> store) !! k
                     = store !! k).
        { destruct (bool_decide (Task.id task ∈ Task.blocking depTask));
            [done|].
          by rewrite lookup_insert_ne. }
        rewrite Hl.
        destruct (decide (k ∈ filter _ deps)) as [Hin|Hnin].
        -- rewrite decide_True by by right. done.
        -- rewrite decide_False; [done|].
           intros [?|?]%elem_of_cons; done.
    + apply IH in Hfold as [-> Hstore].
      assert (Hun : unfinished store d ≠ true)
        by (unfold unfinished; rewrite Hd, Hnc; done).
      rewrite filter_cons_False by done. by split.
  - apply IH in Hfold as [-> Hstore].
    assert (Hun : unfinished store d ≠ true)
      by (unfold unfinished; rewrite Hd; done).
    rewrite filter_cons_False by done. by split.
Qed.

(** The task [createTask] makes and the table it leaves. *)
Lemma createTask_spec params tm :
  let taskId := generateTaskId (S (sequence tm)) in
  let deps := default [] (par_dependencies params) in
  let blocked_by := filter (λ d, unfinished (tasks tm) d = true) deps in
  let task :=
    Task.mk taskId (par_agentType params) (orEmpty (par_summary params))
      (orEmpty (par_description params))
      (if (0 <? length blocked_by)%nat
       then TaskStatus.BLOCKED else TaskStatus.PENDING)
      (default TaskPriority.MEDIUM (par_priority params))
      deps blocked_by [] (orEmpty (par_context params)) None None in
  (createTask params tm).1 = task
  ∧ sequence (createTask params tm).2 = S (sequence tm)
  ∧ ∀ k, tasks (createTask params tm).2 !! k
         = if decide (k = taskId) then Some task
           else (if decide (k ∈ blocked_by) then addBlocking taskId else id)
                <$> tasks tm !! k.
Proof.
  intros taskId deps blocked_by task. unfold createTask.
  unfold updateBlockingRelationships.
  match goal with
  | |- context [foldl ?f (?t0, ?s0) ?l] =>
    destruct (foldl f (t0, s0) l) as [task1 store1] eqn:Hfold
  end.
  apply blocking_loop in Hfold as [-> Hstore].
  cbn [Task.blocked_by Task.deps Task.id Task.with_blocked_by app]
    in Hstore |- *.
  fold deps in Hstore |- *. fold blocked_by in Hstore |- *.
  fold taskId in Hstore |- *. unfold task.
  destruct (0 <? length blocked_by)%nat;
    (split; [reflexivity|]); (split; [reflexivity|]);
    intros k; cbn [snd tasks];
    (destruct (decide (k = taskId)) as [->|Hne];
     [by rewrite lookup_insert_eq
     |rewrite lookup_insert_ne by done; apply Hstore]).
Qed.

(** *** [unblockDependentTasks] and [updateStatus] *)

Lemma unblockDependentTasks_lookup completedTaskId store completedTask k :
  store !! completedTaskId = Some completedTask →
  unblockDependentTasks completedTaskId store !! k
  = (if decide (k = completedTaskId) then Task.with_blocking [] else id)
    <$> ((if decide (k ∈ Task.blocking completedTask)
          then unblock completedTaskId else id) <$> store !! k).
Proof.
  intros Hc. unfold unblockDependentTasks. rewrite Hc.
  destruct (decide (k = completedTaskId)) as [->|Hne].
  - rewrite lookup_alter_eq. f_equal.
    apply foldl_alter_lookup, unblock_idem.
  - rewrite lookup_alter_ne by done.
    rewrite (foldl_alter_lookup _ _ _ _ (unblock_idem completedTaskId)).
    by destruct (_ <$> store !! k).
Qed.

Lemma unblockDependentTasks_stored completedTaskId store k :
  is_Some (unblockDependentTasks completedTaskId store !! k)
  ↔ is_Some (store !! k).
Proof.
  destruct (store !! completedTaskId) as [completedTask|] eqn:Hc.
  - rewrite (unblockDependentTasks_lookup _ _ _ _ Hc).
    by rewrite !fmap_is_Some.
  - unfold unblockDependentTasks. by rewrite Hc.
Qed.

Lemma unblock_fields completedTaskId task :
  Task.blocked_by (unblock completedTaskId task)
  = filter (λ id, id ≠ completedTaskId) (Task.blocked_by task)
  ∧ Task.status (unblock completedTaskId task)
    = (if decide (Task.status task = TaskStatus.BLOCKED
                  ∧ filter (λ id, id ≠ completedTaskId) (Task.blocked_by task)
                    = [])
       then TaskStatus.PENDING else Task.status task)
  ∧ Task.output (unblock completedTaskId task) = Task.output task
  ∧ Task.blocking (unblock completedTaskId task) = Task.blocking task.
Proof.
  unfold unblock. cbn [Task.status Task.with_blocked_by].
  destruct (filter (λ id, id ≠ completedTaskId) (Task.blocked_by task))
    as [|b bs] eqn:Hf; cbn [length Nat.eqb andb].
  - case_bool_decide as Hb; cbn.
    + rewrite decide_True by done. done.
    + rewrite decide_False by tauto. done.
  - rewrite decide_False by (intros [_ ?]; done). done.
Qed.

(** The state [updateStatus] leaves: the same sequence counter and the
    same stored identifiers. *)
Lemma updateStatus_frame taskId newStatus updates tm :
  sequence (stateAfter (updateStatus taskId newStatus updates tm)) = sequence tm
  ∧ ∀ k, is_Some (tasks (stateAfter
                           (updateStatus taskId newStatus updates tm)) !! k)
         ↔ is_Some (tasks tm !! k).
Proof.
  unfold updateStatus, getTask.
  destruct (tasks tm !! taskId) as [task|] eqn:Ht; [|done].
  destruct (isValidStatusTransition _ _); [|done].
  cbn [stateAfter sequence tasks]. split; [done|]. intros k.
  assert (Hins : is_Some
            (<[taskId := assign updates (Task.with_status newStatus task)]>
               (tasks tm) !! k)
          ↔ is_Some (tasks tm !! k)).
  { destruct (decide (taskId = k)) as [->|Hne].
    - rewrite lookup_insert_eq, Ht. split; by eexists.
    - by rewrite lookup_insert_ne. }
  destruct (bool_decide _); [|done].
  by rewrite unblockDependentTasks_stored.
Qed.

(** Completing a task that is in progress. *)
Lemma completeTask_spec taskId output tm task :
  tasks tm !! taskId = Some task →
  Task.status task = TaskStatus.IN_PROGRESS →
  ∃ completed tm',
    completeTask taskId output tm = Ok completed tm'
    ∧ sequence tm' = sequence tm
    ∧ tasks tm' !! taskId = Some completed
    ∧ Task.status completed = TaskStatus.COMPLETED
    ∧ Task.output completed = Some output
    ∧ Task.blocking completed = []
    ∧ ∀ other, other ≠ taskId →
        tasks tm' !! other
        = (if decide (other ∈ Task.blocking task) then unblock taskId else id)
          <$> tasks tm !! other.
Proof.
  intros Ht Hst. unfold completeTask, updateStatus, getTask.
  rewrite Ht, Hst.
  change (isValidStatusTransition TaskStatus.IN_PROGRESS TaskStatus.COMPLETED)
    with true.
  cbn [assign]. rewrite bool_decide_eq_true_2 by done.
  set (t2 := Task.with_output (Some output)
               (Task.with_status TaskStatus.COMPLETED task)).
  assert (H2 : <[taskId := t2]> (tasks tm) !! taskId = Some t2)
    by by rewrite lookup_insert_eq.
  pose proof (unblockDependentTasks_lookup taskId _ _ taskId H2) as Hself.
  rewrite decide_True, H2 in Hself by done. cbn in Hself.
  eexists _, _. split; [reflexivity|]. cbn [sequence tasks].
  rewrite Hself. cbn [default from_option id].
  split; [done|]. split; [done|].
  destruct (unblock_fields taskId t2) as (_ & Hs & Ho & _).
  split.
  { destruct (decide (taskId ∈ Task.blocking task)); cbn; [|done].
    rewrite Hs. by rewrite decide_False by (intros [? _]; done). }
  split.
  { destruct (decide (taskId ∈ Task.blocking task)); cbn; [|done].
    by rewrite Ho. }
  split; [done|].
  intros other Hne.
  rewrite (unblockDependentTasks_lookup taskId _ _ other H2).
  rewrite decide_False by done. rewrite lookup_insert_ne by done.
  cbn [Task.blocking t2 Task.with_output Task.with_status].
  by destruct (_ <$> tasks tm !! other).
Qed.

Lemma getReadyTasks_elem tm task :
  task ∈ getReadyTasks tm
  ↔ (∃ k, tasks tm !! k = Some task)
    ∧ Task.status task = TaskStatus.PENDING ∧ Task.blocked_by task = [].
Proof.
  unfold getReadyTasks. rewrite list_elem_of_filter, list_elem_of_fmap.
  split.
  - intros [Hp ([k t] & -> & Hin)]. apply elem_of_map_to_list in Hin.
    split; [by exists k|done].
  - intros [[k Hk] Hp]. split; [done|].
    exists (k, task). split; [done|]. by apply elem_of_map_to_list.
Qed.

(** *** Identifiers *)

Lemma numbered_fresh tm :
  numbered tm → tasks tm !! generateTaskId (S (sequence tm)) = None.
Proof.
  intros Hn. destruct (tasks tm !! _) as [task|] eqn:Ht; [|done].
  specialize (Hn _ (mk_is_Some _ _ Ht)).
  rewrite parseTaskId_generateTaskId in Hn. lia.
Qed.

(** X21: task identifiers are never reused. [parseTaskId] reads back the
    number [generateTaskId] wrote; [loadTasks] leaves the sequence counter
    at or above the number of every stored task; from such a state
    [createTask] stores its task under an identifier that was not in use,
    and [createTask], [updateStatus], [blockTask] and [deleteTask] all keep
    the counter at or above every stored number. *)
Theorem task_ids_never_reused :
  (∀ n, parseTaskId (generateTaskId n) = n)
  ∧ (∀ files, numbered (loadTasks files))
  ∧ (∀ params tm,
       numbered tm →
       tasks tm !! Task.id (createTask params tm).1 = None
       ∧ tasks (createTask params tm).2 !! Task.id (createTask params tm).1
         = Some (createTask params tm).1
       ∧ numbered (createTask params tm).2)
  ∧ (∀ tm,
       numbered tm →
       (∀ taskId newStatus updates,
          numbered (stateAfter (updateStatus taskId newStatus updates tm)))
       ∧ (∀ taskId blockedBy, numbered (stateAfter (blockTask taskId blockedBy tm)))
       ∧ (∀ taskId, numbered (deleteTask taskId tm))).
Proof.
  split; [exact parseTaskId_generateTaskId|]. split; [|split].
  - intros files. unfold loadTasks.
    assert (Hgen : ∀ tm, numbered tm →
      numbered (foldl (λ tm data,
                         mk (<[Task.id data := data]> (tasks tm))
                            (Nat.max (sequence tm) (parseTaskId (Task.id data))))
                      tm files)).
    { induction files as [|data files IH]; intros tm Hn; [done|].
      simpl. apply IH. intros k Hk. cbn in Hk |- *.
      destruct (decide (Task.id data = k)) as [<-|Hne]; [lia|].
      rewrite lookup_insert_ne in Hk by done. specialize (Hn k Hk). lia. }
    apply Hgen. intros k Hk. cbn in Hk. rewrite lookup_empty in Hk.
    by destruct Hk.
  - intros params tm Hn.
    destruct (createTask_spec params tm) as (Htask & Hseq & Hstore).
    cbn zeta in Htask, Hstore. rewrite Htask at 1 2. cbn [Task.id].
    split; [by apply numbered_fresh|]. split.
    + rewrite Hstore, decide_True by done. by rewrite Htask.
    + intros k Hk. rewrite Hseq. rewrite Hstore in Hk.
      destruct (decide (k = _)) as [->|Hne].
      * by rewrite parseTaskId_generateTaskId.
      * apply fmap_is_Some in Hk. specialize (Hn k Hk). lia.
  - intros tm Hn.
    assert (Hupdate : ∀ tm0, numbered tm0 →
      ∀ taskId newStatus updates,
        numbered (stateAfter (updateStatus taskId newStatus updates tm0))).
    { intros tm0 Hn0 taskId newStatus updates k Hk.
      destruct (updateStatus_frame taskId newStatus updates tm0) as [Hseq Hdom].
      rewrite Hseq. apply Hn0. by apply Hdom. }
    split; [by apply Hupdate|]. split.
    + intros taskId blockedBy. unfold blockTask, getTask.
      destruct (tasks tm !! taskId) as [task|] eqn:Ht; [|done].
      apply Hupdate. intros k Hk. cbn in Hk |- *. apply Hn.
      destruct (decide (taskId = k)) as [->|Hne]; [by rewrite Ht|].
      by rewrite lookup_insert_ne in Hk.
    + intros taskId k Hk. cbn in Hk |- *. apply Hn.
      destruct (decide (taskId = k)) as [->|Hne].
      * rewrite lookup_delete_eq in Hk. by destruct Hk.
      * by rewrite lookup_delete_ne in Hk.
Qed.

(** *** Life cycle *)

(** X22: a task goes through [startTask] before it can be completed or
    failed. The task [createTask] returns is pending or blocked, and
    [completeTask] and [failTask] called on it right away, as the workflow
    engine does, both throw the invalid-transition error and change
    nothing; after [startTask], [completeTask] marks a pending task
    completed and stores the output. *)
Theorem created_task_must_be_started params tm output error :
  (Task.status (createTask params tm).1 = TaskStatus.PENDING
   ∨ Task.status (createTask params tm).1 = TaskStatus.BLOCKED)
  ∧ completeTask (Task.id (createTask params tm).1) output
      (createTask params tm).2
    = Threw (InvalidTransition (Task.status (createTask params tm).1)
               TaskStatus.COMPLETED)
        (createTask params tm).2
  ∧ failTask (Task.id (createTask params tm).1) error (createTask params tm).2
    = Threw (InvalidTransition (Task.status (createTask params tm).1)
               TaskStatus.FAILED)
        (createTask params tm).2
  ∧ (Task.status (createTask params tm).1 = TaskStatus.PENDING →
     ∃ started tm1 completed tm2,
       startTask (Task.id (createTask params tm).1) (createTask params tm).2
       = Ok started tm1
       ∧ completeTask (Task.id (createTask params tm).1) output tm1
         = Ok completed tm2
       ∧ Task.status completed = TaskStatus.COMPLETED
       ∧ Task.output completed = Some output).
Proof.
  destruct (createTask_spec params tm) as (Htask & Hseq & Hstore).
  cbn zeta in Htask, Hstore.
  destruct (createTask params tm) as [created tm0]. cbn [fst snd] in *.
  assert (Hstored : tasks tm0 !! Task.id created = Some created).
  { rewrite Hstore. subst created. cbn [Task.id]. by rewrite decide_True. }
  assert (Hstatus : Task.status created = TaskStatus.PENDING
                    ∨ Task.status created = TaskStatus.BLOCKED).
  { subst created. cbn [Task.status].
    destruct (0 <? length _)%nat; [by right|by left]. }
  split; [done|]. split; [|split].
  - unfold completeTask, updateStatus, getTask. rewrite Hstored.
    by destruct Hstatus as [-> | ->].
  - unfold failTask, updateStatus, getTask. rewrite Hstored.
    by destruct Hstatus as [-> | ->].
  - intros Hp. unfold startTask, updateStatus, getTask.
    rewrite Hstored, Hp.
    change (isValidStatusTransition TaskStatus.PENDING TaskStatus.IN_PROGRESS)
      with true.
    rewrite bool_decide_eq_false_2 by done. cbn [assign].
    rewrite lookup_insert_eq. cbn [default from_option id].
    destruct (completeTask_spec (Task.id created) output
                (mk (<[Task.id created :=
                         Task.with_status TaskStatus.IN_PROGRESS created]>
                       (tasks tm0))
                    (sequence tm0))
                (Task.with_status TaskStatus.IN_PROGRESS created))
      as (completed & tm2 & Hc & _ & _ & Hs & Ho & _);
      [by cbn [tasks]; rewrite lookup_insert_eq|done|].
    by eexists _, _, completed, tm2.
Qed.

(** X23: [createTask] blocks a task on exactly those of its dependencies
    that are stored and not completed, in the order given; the task is
    blocked when there is one and pending, and ready, when there is none;
    and each such dependency has the new task in its [blocking] list. *)
Theorem createTask_blocks_on_unfinished params tm :
  numbered tm →
  Task.blocked_by (createTask params tm).1
  = filter (λ d, unfinished (tasks tm) d = true)
           (default [] (par_dependencies params))
  ∧ Task.status (createTask params tm).1
    = (if decide (Task.blocked_by (createTask params tm).1 = [])
       then TaskStatus.PENDING else TaskStatus.BLOCKED)
  ∧ ((createTask params tm).1 ∈ getReadyTasks (createTask params tm).2
     ↔ Task.blocked_by (createTask params tm).1 = [])
  ∧ ∀ d, d ∈ Task.blocked_by (createTask params tm).1 →
         ∃ depTask,
           tasks (createTask params tm).2 !! d = Some depTask
           ∧ Task.status depTask ≠ TaskStatus.COMPLETED
           ∧ Task.id (createTask params tm).1 ∈ Task.blocking depTask.
Proof.
  intros Hn.
  destruct (createTask_spec params tm) as (Htask & Hseq & Hstore).
  cbn zeta in Htask, Hstore.
  rewrite Htask. cbn [Task.blocked_by Task.status Task.id].
  set (blocked_by := filter (λ d, unfinished (tasks tm) d = true)
                            (default [] (par_dependencies params))) in *.
  split; [done|]. split.
  { destruct blocked_by; [done|]. by rewrite decide_False. }
  split.
  { rewrite getReadyTasks_elem. cbn [Task.blocked_by Task.status]. split.
    - by intros (_ & _ & ?).
    - intros Hb. split; [|by rewrite Hb].
      eexists. rewrite Hstore. by rewrite decide_True. }
  intros d Hd.
  pose proof Hd as Hun. apply list_elem_of_filter in Hun as [Hun _].
  unfold unfinished in Hun.
  destruct (tasks tm !! d) as [depTask|] eqn:Hdep; [|done].
  apply bool_decide_eq_true in Hun.
  assert (Hne : d ≠ generateTaskId (S (sequence tm))).
  { intros ->. by rewrite numbered_fresh in Hdep. }
  exists (addBlocking (generateTaskId (S (sequence tm))) depTask).
  split.
  { rewrite Hstore, decide_False by done. rewrite decide_True by done.
    by rewrite Hdep. }
  unfold addBlocking. case_bool_decide as Hb; [done|].
  split; [done|]. cbn. apply elem_of_app. right. by left.
Qed.

(** X24: [completeTask] on a task in progress marks it completed, stores
    the output and empties its [blocking] list; every other task named in
    that list loses the completed task from its [blocked_by] list, and
    becomes pending when it was blocked and nothing else blocks it; the
    remaining tasks are left as they were. *)
Theorem completeTask_unblocks taskId output tm task :
  tasks tm !! taskId = Some task →
  Task.status task = TaskStatus.IN_PROGRESS →
  ∃ completed tm',
    completeTask taskId output tm = Ok completed tm'
    ∧ tasks tm' !! taskId = Some completed
    ∧ Task.status completed = TaskStatus.COMPLETED
    ∧ Task.output completed = Some output
    ∧ Task.blocking completed = []
    ∧ (∀ other waiting,
         other ≠ taskId → other ∈ Task.blocking task →
         tasks tm !! other = Some waiting →
         ∃ waiting',
           tasks tm' !! other = Some waiting'
           ∧ Task.blocked_by waiting'
             = filter (λ id, id ≠ taskId) (Task.blocked_by waiting)
           ∧ Task.status waiting'
             = (if decide (Task.status waiting = TaskStatus.BLOCKED
                           ∧ Task.blocked_by waiting' = [])
                then TaskStatus.PENDING else Task.status waiting))
    ∧ (∀ other, other ≠ taskId → other ∉ Task.blocking task →
                tasks tm' !! other = tasks tm !! other).
Proof.
  intros Ht Hst.
  destruct (completeTask_spec taskId output tm task Ht Hst)
    as (completed & tm' & Hc & _ & Hstored & Hs & Ho & Hb & Hothers).
  exists completed, tm'. split; [done|]. split; [done|]. split; [done|].
  split; [done|]. split; [done|]. split.
  - intros other waiting Hne Hin Hw. rewrite (Hothers other Hne), Hw.
    rewrite decide_True by done. cbn. eexists. split; [done|].
    destruct (unblock_fields taskId waiting) as (Hbb & Hss & _).
    split; [done|]. by rewrite Hbb.
  - intros other Hne Hnin. rewrite (Hothers other Hne).
    rewrite decide_False by done. by destruct (tasks tm !! other).
Qed.

(** X25: [blockTask] records the blocker on the blocked task only, not in
    the [blocking] list of the blocker: when the blocker later completes,
    the task is not unblocked. It stays blocked, with the completed
    blocker still in its [blocked_by] list, and never becomes ready. *)
Theorem blockTask_outlives_blocker taskId blocker output tm task blockerTask :
  taskId ≠ blocker →
  tasks tm !! taskId = Some task →
  Task.status task = TaskStatus.PENDING →
  tasks tm !! blocker = Some blockerTask →
  Task.status blockerTask = TaskStatus.IN_PROGRESS →
  taskId ∉ Task.blocking blockerTask →
  ∃ blocked tm1 completed tm2,
    blockTask taskId blocker tm = Ok blocked tm1
    ∧ completeTask blocker output tm1 = Ok completed tm2
    ∧ Task.status completed = TaskStatus.COMPLETED
    ∧ tasks tm2 !! taskId = Some blocked
    ∧ Task.status blocked = TaskStatus.BLOCKED
    ∧ blocker ∈ Task.blocked_by blocked
    ∧ blocked ∉ getReadyTasks tm2.
Proof.
  intros Hne Ht Hst Hb Hbst Hnin.
  unfold blockTask, updateStatus, getTask. rewrite Ht. cbn [tasks sequence].
  rewrite lookup_insert_eq.
  assert (Hstatus : Task.status
            (if bool_decide (blocker ∈ Task.blocked_by task)
             then task
             else Task.with_blocked_by (Task.blocked_by task ++ [blocker]) task)
          = TaskStatus.PENDING).
  { by destruct (bool_decide _). }
  rewrite Hstatus.
  change (isValidStatusTransition TaskStatus.PENDING TaskStatus.BLOCKED)
    with true.
  rewrite (bool_decide_eq_false_2 (TaskStatus.BLOCKED = TaskStatus.COMPLETED))
    by done.
  cbn [assign].
  rewrite lookup_insert_eq. cbn [default from_option id].
  match goal with
  | |- ∃ blocked tm1 completed tm2, Ok ?b ?t1 = Ok blocked tm1 ∧ _ =>
    destruct (completeTask_spec blocker output t1 blockerTask)
      as (completed & tm2 & Hc & _ & _ & Hs & _ & _ & Hothers);
      [by cbn [tasks]; rewrite !lookup_insert_ne|done|]
  end.
  eexists _, _, completed, tm2. split; [reflexivity|]. split; [exact Hc|].
  split; [done|].
  assert (Hkept : tasks tm2 !! taskId
                  = Some (Task.with_status TaskStatus.BLOCKED
                            (if bool_decide (blocker ∈ Task.blocked_by task)
                             then task
                             else Task.with_blocked_by
                                    (Task.blocked_by task ++ [blocker]) task))).
  { rewrite (Hothers taskId Hne). rewrite decide_False by done.
    cbn [tasks]. by rewrite !lookup_insert_eq. }
  split; [done|]. split; [done|]. split.
  - case_bool_decide as Hin; cbn; [done|].
    apply elem_of_app. right. by left.
  - rewrite getReadyTasks_elem. by intros (_ & ? & _).
Qed.

End TaskStore.

Section TaskStoreOnSamples.
Import TaskManager.

Lemma createTask_blocks_on_unfinished_witness :
  Task.blocked_by
    (createTask (mkTaskParams "ARCHITECT" None None None (Some ["TASK-0001"]) None)
       (createTask (mkTaskParams "PM" None None None None None) (mk ∅ 0)).2).1
  = filter (λ d,
              unfinished
                (tasks (createTask (mkTaskParams "PM" None None None None None)
                          (mk ∅ 0)).2) d = true)
           (default []
              (par_dependencies
                 (mkTaskParams "ARCHITECT" None None None (Some ["TASK-0001"])
                    None)))
  ∧ Task.status
      (createTask (mkTaskParams "ARCHITECT" None None None (Some ["TASK-0001"]) None)
         (createTask (mkTaskParams "PM" None None None None None) (mk ∅ 0)).2).1
    = (if decide
            (Task.blocked_by
               (createTask
                  (mkTaskParams "ARCHITECT" None None None (Some ["TASK-0001"])
                     None)
                  (createTask (mkTaskParams "PM" None None None None None)
                     (mk ∅ 0)).2).1 = [])
       then TaskStatus.PENDING else TaskStatus.BLOCKED)
  ∧ ((createTask (mkTaskParams "ARCHITECT" None None None (Some ["TASK-0001"]) None)
        (createTask (mkTaskParams "PM" None None None None None) (mk ∅ 0)).2).1
     ∈ getReadyTasks
         (createTask
            (mkTaskParams "ARCHITECT" None None None (Some ["TASK-0001"]) None)
            (createTask (mkTaskParams "PM" None None None None None) (mk ∅ 0)).2).2
     ↔ Task.blocked_by
         (createTask
            (mkTaskParams "ARCHITECT" None None None (Some ["TASK-0001"]) None)
            (createTask (mkTaskParams "PM" None None None None None) (mk ∅ 0)).2).1
       = [])
  ∧ ∀ d,
      d ∈ Task.blocked_by
            (createTask
               (mkTaskParams "ARCHITECT" None None None (Some ["TASK-0001"]) None)
               (createTask (mkTaskParams "PM" None None None None None)
                  (mk ∅ 0)).2).1 →
      ∃ depTask,
        tasks
          (createTask
             (mkTaskParams "ARCHITECT" None None None (Some ["TASK-0001"]) None)
             (createTask (mkTaskParams "PM" None None None None None)
                (mk ∅ 0)).2).2 !! d = Some depTask
        ∧ Task.status depTask ≠ TaskStatus.COMPLETED
        ∧ Task.id
            (createTask
               (mkTaskParams "ARCHITECT" None None None (Some ["TASK-0001"]) None)
               (createTask (mkTaskParams "PM" None None None None None)
                  (mk ∅ 0)).2).1
          ∈ Task.blocking depTask.
Proof.
  apply (createTask_blocks_on_unfinished
           (mkTaskParams "ARCHITECT" None None None (Some ["TASK-0001"]) None)
           (createTask (mkTaskParams "PM" None None None None None) (mk ∅ 0)).2).
  intros taskId Hstored.
  change (tasks (createTask (mkTaskParams "PM" None None None None None)
                   (mk ∅ 0)).2)
    with (<[generateTaskId 1 :=
              (createTask (mkTaskParams "PM" None None None None None)
                 (mk ∅ 0)).1]> (∅ : gmap string Task.t)) in Hstored.
  destruct (decide (generateTaskId 1 = taskId)) as [<-|Hne].
  - vm_compute. lia.
  - rewrite lookup_insert_ne, lookup_empty in Hstored by done.
    by destruct Hstored.
Defined.

Lemma completeTask_unblocks_witness :
  ∃ completed tm',
    completeTask "TASK-0001" Sample.output SampleTasks.store = Ok completed tm'
    ∧ tasks tm' !! "TASK-0001" = Some completed
    ∧ Task.status completed = TaskStatus.COMPLETED
    ∧ Task.output completed = Some Sample.output
    ∧ Task.blocking completed = []
    ∧ (∀ other waiting,
         other ≠ "TASK-0001" → other ∈ Task.blocking SampleTasks.working →
         tasks SampleTasks.store !! other = Some waiting →
         ∃ waiting',
           tasks tm' !! other = Some waiting'
           ∧ Task.blocked_by waiting'
             = filter (λ id, id ≠ "TASK-0001") (Task.blocked_by waiting)
           ∧ Task.status waiting'
             = (if decide (Task.status waiting = TaskStatus.BLOCKED
                           ∧ Task.blocked_by waiting' = [])
                then TaskStatus.PENDING else Task.status waiting))
    ∧ (∀ other, other ≠ "TASK-0001" →
                other ∉ Task.blocking SampleTasks.working →
                tasks tm' !! other = tasks SampleTasks.store !! other).
Proof.
  apply (completeTask_unblocks "TASK-0001" Sample.output SampleTasks.store
           SampleTasks.working).
  - reflexivity.
  - reflexivity.
Defined.

Lemma blockTask_outlives_blocker_witness :
  ∃ blocked tm1 completed tm2,
    blockTask "TASK-0003" "TASK-0001" SampleTasks.store = Ok blocked tm1
    ∧ completeTask "TASK-0001" Sample.output tm1 = Ok completed tm2
    ∧ Task.status completed = TaskStatus.COMPLETED
    ∧ tasks tm2 !! "TASK-0003" = Some blocked
    ∧ Task.status blocked = TaskStatus.BLOCKED
    ∧ "TASK-0001" ∈ Task.blocked_by blocked
    ∧ blocked ∉ getReadyTasks tm2.
Proof.
  apply (blockTask_outlives_blocker "TASK-0003" "TASK-0001" Sample.output
           SampleTasks.store SampleTasks.idle SampleTasks.working).
  - discriminate.
  - reflexivity.
  - reflexivity.
  - reflexivity.
  - reflexivity.
  - simpl. rewrite elem_of_cons, elem_of_nil. intros [?|[]]. discriminate.
Defined.

End TaskStoreOnSamples.

(** ** XML escaping *)

Section Escaping.
Import ContextSerializer.

Lemma append_cons a s t : String a s +:+ t = String a (s +:+ t).
Proof. reflexivity. Qed.

Lemma append_assoc (r s t : string) : r +:+ (s +:+ t) = (r +:+ s) +:+ t.
Proof.
  induction r as [|y r IH]; [done|]. rewrite !append_cons. by rewrite IH.
Qed.

Lemma replaceChar_app c r s t :
  replaceChar c r (s +:+ t) = replaceChar c r s +:+ replaceChar c r t.
Proof.
  induction s as [|x s IH]; [done|].
  rewrite append_cons. cbn [replaceChar]. rewrite IH.
  destruct (Ascii.eqb x c); [|done]. apply append_assoc.
Qed.

Lemma escapeXml_cons c s :
  escapeXml (String c s) = escapeChar c +:+ escapeXml s.
Proof.
  unfold escapeXml, escapeChar.
  change (String c s) with (String c EmptyString +:+ s).
  rewrite !replaceChar_app. f_equal.
  cbn [replaceChar].
  destruct (Ascii.eqb_spec c "&") as [->|H1]; [reflexivity|].
  cbn [replaceChar].
  destruct (Ascii.eqb_spec c "<") as [->|H2]; [reflexivity|].
  cbn [replaceChar].
  destruct (Ascii.eqb_spec c ">") as [->|H3]; [reflexivity|].
  cbn [replaceChar].
  destruct (Ascii.eqb_spec c quote) as [->|H4]; [reflexivity|].
  cbn [replaceChar].
  destruct (Ascii.eqb_spec c "'") as [->|H5]; reflexivity.
Qed.

(** One entity, or one other character, at the head of a string. *)
Lemma unescapeXml_amp rest :
  unescapeXml ("&amp;" +:+ rest) = String "&" (unescapeXml rest).
Proof. reflexivity. Qed.

Lemma unescapeXml_lt rest :
  unescapeXml ("&lt;" +:+ rest) = String "<" (unescapeXml rest).
Proof. reflexivity. Qed.

Lemma unescapeXml_gt rest :
  unescapeXml ("&gt;" +:+ rest) = String ">" (unescapeXml rest).
Proof. reflexivity. Qed.

Lemma unescapeXml_quot rest :
  unescapeXml ("&quot;" +:+ rest) = String quote (unescapeXml rest).
Proof. reflexivity. Qed.

Lemma unescapeXml_apos rest :
  unescapeXml ("&apos;" +:+ rest) = String "'" (unescapeXml rest).
Proof. reflexivity. Qed.

Lemma unescapeXml_other c rest :
  c ≠ "&"%char → unescapeXml (String c rest) = String c (unescapeXml rest).
Proof.
  intros Hc. unfold unescapeXml, replaceAll.
  assert (Hne : Ascii.eqb "&" c = false) by (apply Ascii.eqb_neq; congruence).
  repeat (cbn [replaceFrom startsWith]; rewrite Hne; cbn [andb]).
  reflexivity.
Qed.

(** X26: [unescapeXml] undoes [escapeXml] on every string. *)
Theorem unescapeXml_escapeXml str : unescapeXml (escapeXml str) = str.
Proof.
  induction str as [|c str IH]; [done|].
  rewrite escapeXml_cons. unfold escapeChar.
  destruct (Ascii.eqb_spec c "&") as [->|H1];
    [by rewrite unescapeXml_amp, IH|].
  destruct (Ascii.eqb_spec c "<") as [->|H2];
    [by rewrite unescapeXml_lt, IH|].
  destruct (Ascii.eqb_spec c ">") as [->|H3];
    [by rewrite unescapeXml_gt, IH|].
  destruct (Ascii.eqb_spec c quote) as [->|H4];
    [by rewrite unescapeXml_quot, IH|].
  destruct (Ascii.eqb_spec c "'") as [->|H5];
    [by rewrite unescapeXml_apos, IH|].
  rewrite append_cons. change (EmptyString +:+ escapeXml str) with (escapeXml str).
  by rewrite unescapeXml_other, IH.
Qed.

Lemma allChars_app P s t :
  allChars P (s +:+ t) = allChars P s && allChars P t.
Proof.
  induction s as [|x s IH]; [done|].
  rewrite append_cons. cbn [allChars]. rewrite IH. by rewrite andb_assoc.
Qed.

(** X27: the text [escapeXml] returns holds none of the characters [<],
    [>], double quote and apostrophe, whatever the string. *)
Theorem escapeXml_no_markup str :
  allChars (λ c, negb (Ascii.eqb c "<" || Ascii.eqb c ">"
                       || Ascii.eqb c quote || Ascii.eqb c "'"))
           (escapeXml str) = true.
Proof.
  induction str as [|c str IH]; [done|].
  rewrite escapeXml_cons, allChars_app, IH, andb_true_r.
  unfold escapeChar.
  destruct (Ascii.eqb_spec c "&") as [->|H1]; [reflexivity|].
  destruct (Ascii.eqb_spec c "<") as [->|H2]; [reflexivity|].
  destruct (Ascii.eqb_spec c ">") as [->|H3]; [reflexivity|].
  destruct (Ascii.eqb_spec c quote) as [->|H4]; [reflexivity|].
  destruct (Ascii.eqb_spec c "'") as [->|H5]; [reflexivity|].
  cbn [allChars]. rewrite andb_true_r.
  apply Ascii.eqb_neq in H2, H3, H4, H5. by rewrite H2, H3, H4, H5.
Qed.

(** *** Tag names *)

Lemma mapChars_tagChars str :
  allChars isTagChar
    (mapChars (λ c, if isTagChar c then c else "_"%char) str) = true.
Proof.
  induction str as [|c str IH]; [done|]. cbn [mapChars allChars].
  rewrite IH, andb_true_r. by destruct (isTagChar c) eqn:Hc.
Qed.

Lemma mapChars_fixed str :
  allChars isTagChar str = true →
  mapChars (λ c, if isTagChar c then c else "_"%char) str = str.
Proof.
  induction str as [|c str IH]; [done|]. cbn [mapChars allChars].
  intros [Hc Hs]%andb_true_iff. by rewrite Hc, IH.
Qed.

(** X28: [sanitizeTagName] returns a string made of letters, digits,
    underscores and hyphens that does not start with a digit or a hyphen;
    it leaves such strings as they are, so that sanitising twice is
    sanitising once; and it returns the empty string for the empty string
    only. *)
Theorem sanitizeTagName_is_tag_name str :
  allChars isTagChar (sanitizeTagName str) = true
  ∧ match sanitizeTagName str with
    | String x _ => isDigitOrHyphen x = false
    | EmptyString => str = EmptyString
    end
  ∧ sanitizeTagName (sanitizeTagName str) = sanitizeTagName str
  ∧ (allChars isTagChar str = true →
     match str with
     | String x _ => isDigitOrHyphen x = false
     | EmptyString => True
     end →
     sanitizeTagName str = str).
Proof.
  assert (Hfixed : ∀ s,
    allChars isTagChar s = true →
    match s with
    | String x _ => isDigitOrHyphen x = false
    | EmptyString => True
    end →
    sanitizeTagName s = s).
  { intros s Hs Hhead. unfold sanitizeTagName. rewrite mapChars_fixed by done.
    destruct s as [|x s]; [done|]. by rewrite Hhead. }
  assert (Hchars : allChars isTagChar (sanitizeTagName str) = true).
  { unfold sanitizeTagName.
    pose proof (mapChars_tagChars str) as Hm.
    destruct (mapChars _ str) as [|x rest]; [done|].
    destruct (isDigitOrHyphen x); [|done].
    cbn [allChars] in Hm |- *. by rewrite Hm. }
  assert (Hhead : match sanitizeTagName str with
                  | String x _ => isDigitOrHyphen x = false
                  | EmptyString => str = EmptyString
                  end).
  { unfold sanitizeTagName. destruct str as [|c str]; [done|].
    cbn [mapChars].
    destruct (isDigitOrHyphen (if isTagChar c then c else "_"%char)) eqn:Hd;
      [done|exact Hd]. }
  split; [done|]. split; [done|]. split; [|exact (Hfixed str)].
  apply Hfixed; [done|].
  destruct (sanitizeTagName str); [done|exact Hhead].
Qed.

End Escaping.
